(** * bonjourarcade/roms: the catalog build (gamelist generation)

    A shallow embedding of the two gamelist drivers,
    [scripts/generate_gamelist_sequential.sh] and the parallel batched
    driver, and of the front-end filter that reads the hide field
    ([public/assets/js/main.js]).

    Shell variables are strings.  The tools the scripts call ([yq], [jq],
    [date], the two prediction helpers) and the file system they read are
    fields of an environment record; the temporary directory the parallel
    driver writes to is a finite map from paths to file contents.  Both
    scripts run under [set -e]: an assignment from a command substitution
    that fails ends the script, except inside the per-file subshell of the
    parallel driver, which is the condition of an [if].

    What the model leaves out: diagnostics (the colored messages, debug.log,
    missing_covers.log); newlines inside manifest lines and inside the line
    the prediction helper prints; pathname expansion of the words of
    [$GAME_FILES]; the interleaving of two writes to one file (a write of a
    game file is one step).  [sort] orders lines bytewise, as in the C
    locale.

    The second part of the development follows the rest of the code around
    the catalog: the distribution of the ROM files over the batches and the
    order of the workers' steps; the progress monitor and the thumbnail
    script that share a file with the sequential driver; and, of the front
    end, [getSystemName], the keyboard navigation, the pool of the random
    button, the lookup of the featured game, the thumbnail of a cover, the
    title normaliser of the utilities and the character and word counts of
    the typing test ([public/wpm/script.js]).  Left out there: what depends
    on the locale or on Unicode tables ([localeCompare], [normalize],
    [toUpperCase]), on the local time, and on floating-point numbers (the
    words per minute and the accuracy of the typing test). *)

From Stdlib Require Import ZArith Ascii String List Bool Lia.
From stdpp Require Import base option list gmap strings.

Local Open Scope string_scope.
Local Open Scope Z_scope.
Local Open Scope list_scope.

(** ** Strings *)

Module Str.

Definition is_empty (s : string) : bool :=
  match s with EmptyString => true | String _ _ => false end.

(** The double quote. *)
Definition dquote : ascii := "034"%char.

(** What a command substitution keeps of the text a command printed: the
    trailing newlines are dropped. *)
Fixpoint chomp (s : string) : string :=
  match s with
  | EmptyString => EmptyString
  | String c t =>
      let t' := chomp t in
      if is_empty t' && Ascii.eqb c "010" then EmptyString else String c t'
  end.

(** [has_char c s]: the byte [c] occurs in [s]. *)
Fixpoint has_char (c : ascii) (s : string) : bool :=
  match s with
  | EmptyString => false
  | String d t => Ascii.eqb c d || has_char c t
  end.

(** [starts p s]: [p] is a prefix of [s]; the shell pattern [p*]. *)
Fixpoint starts (p s : string) : bool :=
  match p, s with
  | EmptyString, _ => true
  | String a p', String b s' => Ascii.eqb a b && starts p' s'
  | String _ _, EmptyString => false
  end.

(** [contains p s]: [p] occurs in [s]; [grep] with a fixed pattern, and the
    shell pattern [*p*]. *)
Fixpoint contains (p s : string) : bool :=
  starts p s ||
  match s with
  | EmptyString => false
  | String _ t => contains p t
  end.

(** [cut -d c -f1]: the text before the first delimiter. *)
Fixpoint field1 (c : ascii) (s : string) : string :=
  match s with
  | EmptyString => EmptyString
  | String d t => if Ascii.eqb c d then EmptyString else String d (field1 c t)
  end.

(** The text after the first delimiter, [None] when there is none. *)
Fixpoint after_first (c : ascii) (s : string) : option string :=
  match s with
  | EmptyString => None
  | String d t => if Ascii.eqb c d then Some t else after_first c t
  end.

(** [cut -d c -f2] on one line: the second field; a line without the
    delimiter is printed whole. *)
Definition field2 (c : ascii) (s : string) : string :=
  match after_first c s with
  | Some t => field1 c t
  | None => s
  end.

(** [awk -F c '{print $NF}']: the text after the last delimiter. *)
Fixpoint last_field (c : ascii) (s : string) : string :=
  match s with
  | EmptyString => EmptyString
  | String d t =>
      if has_char c t then last_field c t
      else if Ascii.eqb c d then t
      else String d t
  end.

(** [sed 's/\.[^.]*$//']: drop the last dot and what follows it. *)
Fixpoint strip_ext (s : string) : string :=
  match s with
  | EmptyString => EmptyString
  | String d t =>
      if has_char "." t then String d (strip_ext t)
      else if Ascii.eqb "." d then EmptyString
      else String d t
  end.

Fixpoint skip (n : nat) (s : string) : string :=
  match n, s with
  | S n', String _ t => skip n' t
  | _, _ => s
  end.

(** [sed "s#^p##"] for a literal [p]: drop the prefix [p] when the line
    starts with it. *)
Definition drop_prefix (p s : string) : string :=
  if starts p s then skip (String.length p) s else s.

Definition lower (c : ascii) : ascii :=
  let n := nat_of_ascii c in
  if (65 <=? n)%nat && (n <=? 90)%nat then ascii_of_nat (n + 32) else c.

(** Insertion into a list sorted bytewise, as [sort] orders lines in the C
    locale. *)
Fixpoint insert_sorted (x : string) (l : list string) : list string :=
  match l with
  | [] => [x]
  | y :: l' => if String.leb x y then x :: l else y :: insert_sorted x l'
  end.

Definition sort (l : list string) : list string :=
  foldr insert_sorted [] l.

Definition is_ifs (c : ascii) : bool :=
  Ascii.eqb c " " || Ascii.eqb c "009" || Ascii.eqb c "010".

(** Word splitting of an unquoted expansion at the default [IFS];
    [acc] is the word being read. *)
Fixpoint words_from (acc : string) (s : string) : list string :=
  match s with
  | EmptyString => if is_empty acc then [] else [acc]
  | String c t =>
      if is_ifs c
      then (if is_empty acc then words_from EmptyString t
            else acc :: words_from EmptyString t)
      else words_from (acc +:+ String c EmptyString) t
  end.

Definition words (s : string) : list string := words_from EmptyString s.

(** Lines joined with newlines, as a command substitution keeps them. *)
Fixpoint unlines (l : list string) : string :=
  match l with
  | [] => EmptyString
  | [x] => x
  | x :: l' => x +:+ String "010" (unlines l')
  end.

End Str.

(** ** The extended regular expressions given to [grep -E]

    Only the operators the scripts use: literals, [.], [^], [$], grouping,
    sequence and alternation.  [ci] is the [-i] flag. *)

Module Ere.

Inductive t : Type :=
| Lit (c : ascii)
| AnyChar
| Bol
| Eol
| Eps
| Seq (a b : t)
| Alt (a b : t).

Definition same (ci : bool) (a b : ascii) : bool :=
  if ci then Ascii.eqb (Str.lower a) (Str.lower b) else Ascii.eqb a b.

(** [at_ r ci bol s k]: [r] matches a prefix of [s] and [k] accepts what is
    left; [bol] tells whether [s] starts the line. *)
Fixpoint at_ (r : t) (ci bol : bool) (s : string)
    (k : bool -> string -> bool) : bool :=
  match r with
  | Lit c =>
      match s with
      | String d s' => same ci c d && k false s'
      | EmptyString => false
      end
  | AnyChar =>
      match s with
      | String _ s' => k false s'
      | EmptyString => false
      end
  | Bol => bol && k bol s
  | Eol => Str.is_empty s && k bol s
  | Eps => k bol s
  | Seq a b => at_ a ci bol s (fun bol' s' => at_ b ci bol' s' k)
  | Alt a b => at_ a ci bol s k || at_ b ci bol s k
  end.

Fixpoint search_from (r : t) (ci bol : bool) (s : string) : bool :=
  at_ r ci bol s (fun _ _ => true) ||
  match s with
  | EmptyString => false
  | String _ s' => search_from r ci false s'
  end.

(** [grep -E r] selects the line: [r] matches somewhere in it. *)
Definition grep (r : t) (ci : bool) (line : string) : bool :=
  search_from r ci true line.

Fixpoint word (s : string) : t :=
  match s with
  | EmptyString => Eps
  | String c s' => Seq (Lit c) (word s')
  end.

(** [(w|w1|...|wn)] *)
Fixpoint alts (w : string) (ws : list string) : t :=
  match ws with
  | [] => word w
  | w' :: ws' => Alt (word w) (alts w' ws')
  end.

End Ere.

(** ** Configuration *)

Definition GAMES_DIR : string := "public/games".
Definition ROMS_DIR : string := "roms".
Definition OUTPUT_FILE : string := "public/gamelist.json".
Definition DEFAULT_COVER : string := "assets/images/placeholder_thumb.png".
Definition LAUNCHER_PAGE : string := "/play".

(** [get_core_from_dir]: directory name to EJS core name. *)
Definition get_core_from_dir (dir : string) : string :=
  if (dir =? "arcade")%string || (dir =? "fbneo")%string then "arcade"
  else if (dir =? "mame")%string || (dir =? "mame2003")%string then "mame2003_plus"
  else if (dir =? "ATARI2600")%string then "atari2600"
  else if (dir =? "GAMEBOY")%string then "gb"
  else if (dir =? "GBA")%string then "gba"
  else if (dir =? "GENESIS")%string || (dir =? "MEGADRIVE")%string then "segaMD"
  else if (dir =? "GG")%string then "segaGG"
  else if (dir =? "JAGUAR")%string then "jaguar"
  else if (dir =? "N64")%string then "n64"
  else if (dir =? "NES")%string then "nes"
  else if (dir =? "PCENGINE")%string then "pce"
  else if (dir =? "PSX")%string then "psx"
  else if (dir =? "S32X")%string then "sega32x"
  else if (dir =? "SMS")%string then "segaMS"
  else if (dir =? "SNES")%string then "snes"
  else if (dir =? "VB")%string then "vb"
  else if (dir =? "WS")%string then "ws"
  else "".

(** ** The line filters of the manifest *)

(** [grep -v "/bios/"] *)
Definition has_bios_dir (line : string) : bool := Str.contains "/bios/" line.

(** [(^|/)(README|upload-files)(\.|$)] *)
Definition re_reserved_path : Ere.t :=
  Ere.Seq (Ere.Alt Ere.Bol (Ere.Lit "/"))
    (Ere.Seq (Ere.alts "README" ["upload-files"])
       (Ere.Alt (Ere.Lit ".") Ere.Eol)).

(** [^(README|upload-files)(\.|$)] *)
Definition re_reserved_name : Ere.t :=
  Ere.Seq Ere.Bol
    (Ere.Seq (Ere.alts "README" ["upload-files"])
       (Ere.Alt (Ere.Lit ".") Ere.Eol)).

(** ['\\.(md|markdown|txt|sh|bash|zsh|ps1|bat)$'], as the single quotes hand
    it to grep: an escaped backslash, then any character, then one of the
    extensions at the end of the line. *)
Definition re_helper_ext : Ere.t :=
  Ere.Seq (Ere.Lit "\")
    (Ere.Seq Ere.AnyChar
       (Ere.Seq
          (Ere.alts "md" ["markdown"; "txt"; "sh"; "bash"; "zsh"; "ps1"; "bat"])
          Ere.Eol)).

(** The path of a manifest line: system folder and file name. *)
Definition split_entry (rom_entry : string) : string * string :=
  if Str.has_char "/" rom_entry
  then (Str.field1 "/" rom_entry, Str.last_field "/" rom_entry)
  else (".", rom_entry).

Definition game_id_of (rom_filename : string) : string :=
  Str.strip_ext rom_filename.

(** ** JSON values, and the jq filters the scripts apply to them *)

#[warnings="-register-all"]
Inductive json : Type :=
| JNull
| JBool (b : bool)
| JNum (text : string)
| JStr (s : string)
| JArr (items : list json)
| JObj (fields : list (string * json)).

Module Jq.

(** jq's truth: everything but [null] and [false]. *)
Definition truthy (j : json) : bool :=
  match j with
  | JNull | JBool false => false
  | _ => true
  end.

Fixpoint field (k : string) (fields : list (string * json)) : json :=
  match fields with
  | [] => JNull
  | (k', v) :: rest => if (k =? k')%string then v else field k rest
  end.

(** [.k]: defined on objects and on [null], an error elsewhere. *)
Definition index (k : string) (doc : json) : option json :=
  match doc with
  | JObj fields => Some (field k fields)
  | JNull => Some JNull
  | _ => None
  end.

(** [a // d] *)
Definition alt (a d : json) : json := if truthy a then a else d.

Definition hex_digit (n : nat) : ascii :=
  ascii_of_nat (if (n <? 10)%nat then 48 + n else 87 + n).

Definition escape_char (c : ascii) : string :=
  let n := nat_of_ascii c in
  if Ascii.eqb c Str.dquote then String "\" (String Str.dquote EmptyString)
  else if Ascii.eqb c "\" then "\\"
  else if (n =? 10)%nat then "\n"
  else if (n =? 9)%nat then "\t"
  else if (n =? 13)%nat then "\r"
  else if (n =? 8)%nat then "\b"
  else if (n =? 12)%nat then "\f"
  else if (n <? 32)%nat || (n =? 127)%nat
  then "\u00" +:+ String (hex_digit (n / 16)) (String (hex_digit (n mod 16)) EmptyString)
  else String c EmptyString.

Fixpoint escape (s : string) : string :=
  match s with
  | EmptyString => EmptyString
  | String c t => escape_char c +:+ escape t
  end.

Definition quote (s : string) : string :=
  String Str.dquote (escape s +:+ String Str.dquote EmptyString).

(** [jq -c .]: the value on one line. *)
Fixpoint compact (j : json) : string :=
  match j with
  | JNull => "null"
  | JBool true => "true"
  | JBool false => "false"
  | JNum text => text
  | JStr s => quote s
  | JArr items =>
      "[" +:+
      (fix go (l : list json) : string :=
         match l with
         | [] => EmptyString
         | [x] => compact x
         | x :: l' => compact x +:+ "," +:+ go l'
         end) items +:+ "]"
  | JObj fields =>
      "{" +:+
      (fix go (l : list (string * json)) : string :=
         match l with
         | [] => EmptyString
         | [(k, v)] => quote k +:+ ":" +:+ compact v
         | (k, v) :: l' => quote k +:+ ":" +:+ compact v +:+ "," +:+ go l'
         end) fields +:+ "}"
  end.

(** [jq -r]: a string is printed as it is, anything else as JSON. *)
Definition raw (j : json) : string :=
  match j with
  | JStr s => s
  | _ => compact j
  end.

(** [jq -r '.k // d']: what jq prints, [None] when it fails.  [.k] fails on
    a document that is neither an object nor [null], and the failure is
    taken to pass through [//], which is not [try]. *)
Definition get_r (k : string) (d : json) (doc : json) : option string :=
  v ← index k doc; Some (raw (alt v d)).

(** [jq -c '.k // d'] *)
Definition get_c (k : string) (d : json) (doc : json) : option string :=
  v ← index k doc; Some (compact (alt v d)).

(** [jq -r '.k // empty']: nothing is printed for [null] and [false]. *)
Definition get_r_or_empty (k : string) (doc : json) : option string :=
  v ← index k doc; Some (if truthy v then raw v else EmptyString).

(** [jq -e .] on a document: exit status zero. *)
Definition e_ok (doc : json) : bool := truthy doc.

End Jq.

(** ** The world the scripts run in *)

(** What [yq '.' file] gives for a metadata file. *)
Inductive yaml_file : Type :=
| NoFile
| YqFails
| YqPrints (doc : json).

(** Where the list of ROM entries comes from. *)
Inductive manifest_source : Type :=
| ManifestUrl (fetched : option (list string))
| ManifestPath (lines : list string)
| ScanRoms (found : list string).

Record env : Type := {
  (** [command -v] finds yq, jq, find and python3 *)
  have_tools : bool;
  (** [LOCAL_TESTING] is [true] *)
  LOCAL_TESTING : bool;
  (** [CI], [GITHUB_ACTIONS] or [GITLAB_CI] is [true] *)
  CI : bool;
  (** what [nproc] prints *)
  NUM_CORES : Z;
  (** [ROMS_MANIFEST_URL] with what curl fetched, [ROMS_MANIFEST_PATH] with
      the lines of the file, or the paths [find -L roms -maxdepth 2 -type f]
      prints *)
  manifest : manifest_source;
  (** the metadata document at a path *)
  metadata_yaml : string -> yaml_file;
  (** [[ -f path ]] for cover and save-state files *)
  is_file : string -> bool;
  (** [[ -d path ]] *)
  is_dir : string -> bool;
  (** the paths [public/games/external-*] expands to *)
  external_glob : list string;
  (** [python3 scripts/check_predictions_status.py key]: the line it prints
      when it exits zero, [None] when it fails (printing nothing) *)
  check_predictions_status : string -> option string;
  (** [date -j -f "%Y-%m-%d" s +%s || date -d s +%s]: the epoch, [None] when
      both fail *)
  date_epoch : string -> option Z;
  (** [date +%s] *)
  now_epoch : Z;
  (** the value jq reads from the text given to [--argjson], [None] when the
      text is not JSON *)
  jq_text : string -> option json;
  (** [python3 scripts/get_current_week_game_id.py]: what it prints, [None]
      when it fails *)
  get_current_week_game_id : option string;
  (** the directory [mktemp -d] made *)
  TEMP_DIR : string;
  (** the order in which the batch workers get to run: each number names the
      worker that processes its next line *)
  schedule : list nat
}.

(** ** [set -e] *)

Inductive sh (A : Type) : Type :=
| Ok (a : A)
| Errexit.
Arguments Ok {A} a.
Arguments Errexit {A}.

Definition sh_bind {A B : Type} (c : sh A) (k : A -> sh B) : sh B :=
  match c with
  | Ok a => k a
  | Errexit => Errexit
  end.

Notation "'do' x <- c ; k" := (sh_bind c (fun x => k))
  (at level 10, x name, c at level 100, k at level 200).

(** The text a variable receives from [$(command)]; a command that fails
    printed nothing. *)
Definition captured (out : option string) : string :=
  Str.chomp (default EmptyString out).

(** [var=$(command)]: the variable receives what the command printed.  When
    the command fails, the script ends under [set -e], unless [set -e] is
    being ignored. *)
Definition assign (errexit : bool) (out : option string) : sh string :=
  match out with
  | Some _ => Ok (captured out)
  | None => if errexit then Errexit else Ok (captured out)
  end.

(** ** The shell variables of one entry *)

Record vars : Type := {
  title : string;
  developer : string;
  year : string;
  genre : string;
  recommended : string;
  added : string;
  hide : string;
  enable_score : string;
  to_start : string;
  problem : string;
  controls_json : string;
  new_flag : string;
  announcement_message : string
}.

(** No variable is set. *)
Definition unset_vars : vars :=
  {| title := ""; developer := ""; year := ""; genre := ""; recommended := "";
     added := ""; hide := ""; enable_score := ""; to_start := "";
     problem := ""; controls_json := ""; new_flag := "";
     announcement_message := "" |}.

Definition set_hide (h : string) (v : vars) : vars :=
  {| title := title v; developer := developer v; year := year v;
     genre := genre v; recommended := recommended v; added := added v;
     hide := h; enable_score := enable_score v; to_start := to_start v;
     problem := problem v; controls_json := controls_json v;
     new_flag := new_flag v; announcement_message := announcement_message v |}.

Definition set_added (a : string) (v : vars) : vars :=
  {| title := title v; developer := developer v; year := year v;
     genre := genre v; recommended := recommended v; added := a;
     hide := hide v; enable_score := enable_score v; to_start := to_start v;
     problem := problem v; controls_json := controls_json v;
     new_flag := new_flag v; announcement_message := announcement_message v |}.

Definition set_new_flag (n : string) (v : vars) : vars :=
  {| title := title v; developer := developer v; year := year v;
     genre := genre v; recommended := recommended v; added := added v;
     hide := hide v; enable_score := enable_score v; to_start := to_start v;
     problem := problem v; controls_json := controls_json v;
     new_flag := n; announcement_message := announcement_message v |}.

(** "Determine Title and other metadata": the assignments before the
    metadata file is looked at.  [new_flag] and [announcement_message] are
    not among them and keep what they held. *)
Definition rom_defaults (game_id : string) (v : vars) : vars :=
  {| title := game_id; developer := ""; year := ""; genre := "";
     recommended := ""; added := ""; hide := "yes"; enable_score := "true";
     to_start := ""; problem := ""; controls_json := "null";
     new_flag := new_flag v; announcement_message := announcement_message v |}.

(** The thirteen assignments from a parsed metadata document;
    [score_default] is the default of [.enable_score]. *)
Definition extract (errexit : bool) (score_default : bool) (doc : json)
    (v : vars) : sh vars :=
  do title' <- assign errexit (Jq.get_r "title" (JStr "") doc);
  do developer' <- assign errexit (Jq.get_r "developer" (JStr "") doc);
  do year' <- assign errexit (Jq.get_r "year" (JStr "") doc);
  do genre' <- assign errexit (Jq.get_r "genre" (JStr "") doc);
  do recommended' <- assign errexit (Jq.get_r "recommended" (JStr "") doc);
  do added' <- assign errexit (Jq.get_r "added" (JStr "") doc);
  do hide' <- assign errexit (Jq.get_r "hide" (JStr "") doc);
  do enable_score' <-
    assign errexit (Jq.get_r "enable_score" (JBool score_default) doc);
  do to_start' <- assign errexit (Jq.get_r "to_start" (JStr "") doc);
  do problem' <- assign errexit (Jq.get_r "problem" (JStr "") doc);
  do controls_json' <- assign errexit (Jq.get_c "controls" JNull doc);
  do new_flag' <- assign errexit (Jq.get_r_or_empty "new" doc);
  do announcement_message' <-
    assign errexit (Jq.get_r "announcement_message" (JStr "") doc);
  Ok {| title := title'; developer := developer'; year := year';
        genre := genre'; recommended := recommended'; added := added';
        hide := hide'; enable_score := enable_score'; to_start := to_start';
        problem := problem'; controls_json := controls_json';
        new_flag := new_flag';
        announcement_message := announcement_message' |}.

(** ** Catalog entries *)

Module Game.

(** The four fields only external entries have. *)
Record ext : Type := {
  external_url : string;
  launch_button_text : string;
  launch_button_url : string;
  game_type : string
}.

(** The object [jq -n] builds for one game. *)
Record t : Type := {
  id : string;
  title : string;
  problem : string;
  developer : string;
  year : string;
  genre : string;
  recommended : string;
  added : string;
  hide : string;
  coverArt : string;
  pageUrl : string;
  core : string;
  romPath : string;
  saveState : string;
  enable_score : json;
  controls : json;
  to_start : string;
  new_flag : string;
  announcement_message : string;
  external : option ext
}.

Definition to_json (g : t) : json :=
  JObj
    ([("id", JStr (id g)); ("title", JStr (title g));
      ("problem", JStr (problem g)); ("developer", JStr (developer g));
      ("year", JStr (year g)); ("genre", JStr (genre g));
      ("recommended", JStr (recommended g)); ("added", JStr (added g));
      ("hide", JStr (hide g)); ("coverArt", JStr (coverArt g));
      ("pageUrl", JStr (pageUrl g)); ("core", JStr (core g));
      ("romPath", JStr (romPath g)); ("saveState", JStr (saveState g));
      ("enable_score", enable_score g); ("controls", controls g);
      ("to_start", JStr (to_start g)); ("new_flag", JStr (new_flag g));
      ("announcement_message", JStr (announcement_message g))] ++
     match external g with
     | Some x =>
         [("external_url", JStr (external_url x));
          ("launch_button_text", JStr (launch_button_text x));
          ("launch_button_url", JStr (launch_button_url x));
          ("game_type", JStr (game_type x))]
     | None => []
     end).

End Game.

(** [${x:-d}] *)
Definition or_default (x d : string) : string :=
  if Str.is_empty x then d else x.

(** ** Prediction overlay *)

(** [$(python3 scripts/check_predictions_status.py key 2>/dev/null
      || echo "NOT_IN_PREDICTIONS")] *)
Definition prediction_result (e : env) (key : string) : string :=
  match check_predictions_status e key with
  | Some out => out
  | None => "NOT_IN_PREDICTIONS"
  end.

(** What the scripts do with a prediction result: [SHOW_GAME*] sets [hide]
    to "no", and a non-empty second [|]-field replaces [added]. *)
Definition overlay (result : string) (v : vars) : vars :=
  if Str.starts "SHOW_GAME" result then
    let v' := set_hide "no" v in
    if Str.contains "|" result then
      let prediction_date := Str.field2 "|" result in
      if negb (Str.is_empty prediction_date)
      then set_added prediction_date v'
      else v'
    else v'
  else v.

(** ** Recency *)

(** Shell arithmetic is on signed 64-bit integers. *)
Definition wrap64 (z : Z) : Z := (z + 2 ^ 63) mod 2 ^ 64 - 2 ^ 63.

(** [$(( (now_epoch - added_epoch) / 86400 ))] *)
Definition diff_days (now added_epoch : Z) : Z :=
  Z.quot (wrap64 (now - added_epoch)) 86400.

(** "Check if the game should be marked as new by date" *)
Definition is_new_by_date (errexit : bool) (e : env) (added : string)
    : sh string :=
  if negb (Str.is_empty added) && negb (added =? "DATE_PLACEHOLDER")%string
  then
    match date_epoch e added with
    | Some added_epoch =>
        Ok (if diff_days (now_epoch e) added_epoch <? 7 then "true" else "")
    | None => if errexit then Errexit else Ok ""
    end
  else Ok "".

(** "Determine final new_flag" *)
Definition final_new_flag (new_flag is_new : string) : string :=
  if (new_flag =? "true")%string || (is_new =? "true")%string
  then "true" else "".

(** ** Cover art and save state *)

Definition cover_art (e : env) (expected_cover_file game_id : string)
    : string :=
  if is_file e expected_cover_file
  then "/games/" +:+ game_id +:+ "/cover.png"
  else "/" +:+ DEFAULT_COVER.

Definition save_state_of (e : env) (expected_save_state game_id : string)
    : string :=
  if is_file e expected_save_state
  then "/games/" +:+ game_id +:+ "/save.state"
  else "".

Definition rom_path_of (e : env) (rom_subdir rom_filename : string)
    : string :=
  if LOCAL_TESTING e
  then "/roms/" +:+ rom_subdir +:+ "/" +:+ rom_filename
  else "https://storage.googleapis.com/bonjourarcade/roms/" +:+
       rom_subdir +:+ "/" +:+ rom_filename.

(** ** Building the entry *)

(** "Create JSON object": [$(jq -n --arg ... --argjson enable_score ...
    --argjson controls ... '{...}' 2>/dev/null || echo "{}")], and the test
    that follows it.  [None] stands for the "{}" that is not written. *)
Definition jq_n_rom (e : env)
    (game_id cover_art_abs page_url core rom_path save_state : string)
    (v : vars) : option Game.t :=
  score ← jq_text e (enable_score v);
  ctrl ← jq_text e (controls_json v);
  Some {| Game.id := game_id;
          Game.title := or_default (title v) game_id;
          Game.problem := problem v;
          Game.developer := developer v;
          Game.year := year v;
          Game.genre := genre v;
          Game.recommended := recommended v;
          Game.added := added v;
          Game.hide := hide v;
          Game.coverArt := cover_art_abs;
          Game.pageUrl := page_url;
          Game.core := or_default core "null";
          Game.romPath := or_default rom_path "null";
          Game.saveState := save_state;
          Game.enable_score := score;
          Game.controls := ctrl;
          Game.to_start := to_start v;
          Game.new_flag := new_flag v;
          Game.announcement_message := announcement_message v;
          Game.external := None |}.

Definition jq_n_external (e : env)
    (game_id cover_art_abs page_url core : string) (x : Game.ext) (v : vars)
    : option Game.t :=
  score ← jq_text e (enable_score v);
  ctrl ← jq_text e (controls_json v);
  Some {| Game.id := game_id;
          Game.title := or_default (title v) game_id;
          Game.problem := problem v;
          Game.developer := developer v;
          Game.year := year v;
          Game.genre := genre v;
          Game.recommended := recommended v;
          Game.added := added v;
          Game.hide := hide v;
          Game.coverArt := cover_art_abs;
          Game.pageUrl := page_url;
          Game.core := or_default core "null";
          Game.romPath := "";
          Game.saveState := "";
          Game.enable_score := score;
          Game.controls := ctrl;
          Game.to_start := to_start v;
          Game.new_flag := new_flag v;
          Game.announcement_message := announcement_message v;
          Game.external := Some x |}.

(** [game_dir="$GAMES_DIR/$game_id/"] and
    [metadata_file="${game_dir}metadata.yaml"] of a ROM entry *)
Definition rom_game_dir (game_id : string) : string :=
  GAMES_DIR +:+ "/" +:+ game_id +:+ "/".

Definition rom_metadata_file (game_id : string) : string :=
  rom_game_dir game_id +:+ "metadata.yaml".

(** [metadata_file="${game_dir}/metadata.yaml"] of an external directory *)
Definition external_metadata_file (game_dir : string) : string :=
  game_dir +:+ "/metadata.yaml".

(** [[ -f "$metadata_file" ]] *)
Definition has_metadata_file (f : yaml_file) : bool :=
  match f with
  | NoFile => false
  | YqFails | YqPrints _ => true
  end.

(** ** One ROM entry, sequential driver

    The body of the [while read] loop.  It runs at the top level of a script
    under [set -e].  [v0] holds the variables as the previous iteration left
    them; the result is the variables after this one, and the object
    appended to the array, if any. *)

Definition seq_metadata (e : env) (f : yaml_file) (v1 : vars) : sh vars :=
  match f with
  | NoFile => Ok (set_new_flag "" v1)
  | YqFails => Ok (set_new_flag "" v1)
  | YqPrints doc =>
      if Jq.e_ok doc then
        do v <- extract true true doc v1;
        (* the prediction lookup is by title *)
        Ok (if negb (Str.is_empty (title v))
            then overlay (prediction_result e (title v)) v
            else v)
      else Ok (set_new_flag "" v1)
  end.

(** "for games without metadata" *)
Definition seq_overlay_again (e : env) (game_id : string) (f : yaml_file)
    (v : vars) : vars :=
  if has_metadata_file f && negb (Str.is_empty (title v))
     && negb (title v =? game_id)%string
  then v
  else if negb (Str.is_empty (title v))
  then overlay (prediction_result e (title v)) v
  else v.

Definition seq_rom (e : env) (v0 : vars) (rom_entry : string)
    : sh (vars * option Game.t) :=
  let '(rom_subdir, rom_filename) := split_entry rom_entry in
  let game_id := game_id_of rom_filename in
  if (rom_subdir =? "bios")%string then Ok (v0, None) else
  let rom_path := rom_path_of e rom_subdir rom_filename in
  let core := get_core_from_dir rom_subdir in
  let page_url := LAUNCHER_PAGE +:+ "?game=" +:+ game_id in
  let v1 := rom_defaults game_id v0 in
  let game_dir := rom_game_dir game_id in
  let metadata_file := rom_metadata_file game_id in
  do v2 <- seq_metadata e (metadata_yaml e metadata_file) v1;
  let v3 := seq_overlay_again e game_id (metadata_yaml e metadata_file) v2 in
  do is_new <- is_new_by_date true e (added v3);
  let v4 := set_new_flag (final_new_flag (new_flag v3) is_new) v3 in
  let cover_art_abs := cover_art e (game_dir +:+ "cover.png") game_id in
  let save_state := save_state_of e (game_dir +:+ "save.state") game_id in
  Ok (v4, jq_n_rom e game_id cover_art_abs page_url core rom_path save_state v4).

(** ** One ROM entry, parallel driver

    The body of the per-file subshell.  The subshell is the condition of an
    [if], so [set -e] is ignored in it, and it starts from the variables of
    the batch worker, in which none of the entry's variables is set.  The
    result is the file it writes: its path and the object in it. *)

Definition par_metadata (e : env) (game_id : string) (f : yaml_file)
    (v1 : vars) : sh vars :=
  match f with
  | NoFile => Ok (set_new_flag "" v1)
  | YqFails => Ok (set_new_flag "" v1)
  | YqPrints doc =>
      if Jq.e_ok doc then
        do v <- extract false true doc v1;
        (* "Check by game_id (not title) since predictions.yaml uses
           game_id" *)
        Ok (if negb (Str.is_empty game_id)
            then overlay (prediction_result e game_id) v
            else v)
      else Ok (set_new_flag "" v1)
  end.

Definition par_overlay_again (e : env) (game_id : string) (f : yaml_file)
    (v : vars) : vars :=
  if has_metadata_file f && negb (Str.is_empty (title v))
     && negb (title v =? game_id)%string
  then v
  else if negb (Str.is_empty game_id)
  then overlay (prediction_result e game_id) v
  else v.

Definition game_file (temp_dir game_id : string) : string :=
  temp_dir +:+ "/game_" +:+ game_id +:+ ".json".

Definition par_rom_sh (e : env) (rom_entry : string)
    : sh (option (string * Game.t)) :=
  let '(rom_subdir, rom_filename) := split_entry rom_entry in
  let game_id := game_id_of rom_filename in
  (* "Skip non-ROM helper files" *)
  if Ere.grep re_reserved_name true rom_filename then Ok None else
  if Ere.grep re_helper_ext true rom_filename then Ok None else
  if (rom_subdir =? "bios")%string then Ok None else
  let rom_path := rom_path_of e rom_subdir rom_filename in
  let core := get_core_from_dir rom_subdir in
  let page_url := LAUNCHER_PAGE +:+ "?game=" +:+ game_id in
  let v1 := rom_defaults game_id unset_vars in
  let game_dir := rom_game_dir game_id in
  let metadata_file := rom_metadata_file game_id in
  do v2 <- par_metadata e game_id (metadata_yaml e metadata_file) v1;
  let v3 := par_overlay_again e game_id (metadata_yaml e metadata_file) v2 in
  do is_new <- is_new_by_date false e (added v3);
  let v4 := set_new_flag (final_new_flag (new_flag v3) is_new) v3 in
  let cover_art_abs := cover_art e (game_dir +:+ "cover.png") game_id in
  let save_state := save_state_of e (game_dir +:+ "save.state") game_id in
  Ok (g ← jq_n_rom e game_id cover_art_abs page_url core rom_path
            save_state v4;
      Some (game_file (TEMP_DIR e) game_id, g)).

(** A subshell that fails writes nothing; the worker logs it and goes on. *)
Definition par_rom (e : env) (rom_entry : string)
    : option (string * Game.t) :=
  match par_rom_sh e rom_entry with
  | Ok w => w
  | Errexit => None
  end.

(** ** One external game directory

    The body of the [for game_dir in "$GAMES_DIR"/external-*] loop, the same
    in both drivers, at the top level under [set -e].  Every variable the
    entry is built from is assigned in the body. *)

Definition external_game (e : env) (game_dir : string)
    : sh (option Game.t) :=
  if negb (is_dir e game_dir) then Ok None else
  let game_id := Str.last_field "/" game_dir in
  let metadata_file := external_metadata_file game_dir in
  match metadata_yaml e metadata_file with
  | NoFile => Ok None
  | YqFails => Ok None
  | YqPrints doc =>
      if Jq.e_ok doc then
        do game_type <- assign true (Jq.get_r "game_type" (JStr "") doc);
        if negb (game_type =? "external")%string then Ok None else
        do v <- extract true false doc unset_vars;
        do external_url <- assign true (Jq.get_r "external_url" (JStr "") doc);
        do launch_button_text <-
          assign true (Jq.get_r "launch_button_text" (JStr "Play Game") doc);
        do launch_button_url <-
          assign true (Jq.get_r "launch_button_url" (JStr "") doc);
        (* "Skip hidden games or games without required field" *)
        if (hide v =? "yes")%string || Str.is_empty (title v)
           || Str.is_empty external_url
        then Ok None else
        let core := "external" in
        let cover_art_abs :=
          if is_file e (game_dir +:+ "/cover.png")
          then "/games/" +:+ game_id +:+ "/cover.png"
          else "/" +:+ DEFAULT_COVER in
        let page_url :=
          if negb (Str.is_empty launch_button_url)
             && negb (launch_button_url =? external_url)%string
          then launch_button_url else external_url in
        do is_new <- is_new_by_date true e (added v);
        let v' := set_new_flag (final_new_flag (new_flag v) is_new) v in
        Ok (jq_n_external e game_id cover_art_abs page_url core
              {| Game.external_url := external_url;
                 Game.launch_button_text := launch_button_text;
                 Game.launch_button_url := launch_button_url;
                 Game.game_type := game_type |} v')
      else Ok None
  end.

(** ** The array file [processed_games.json]

    The file is the sequence of the texts appended to it: the brackets, the
    commas and the objects. *)

Inductive chunk : Type :=
| LBracket
| Comma
| RBracket
| Object (g : Game.t).

(** The object is appended, after a comma unless it is the first. *)
Definition append_game (first_game : bool) (file : list chunk) (g : Game.t)
    : list chunk :=
  file ++ (if first_game then [] else [Comma]) ++ [Object g].

(** After an object: [, object]* and the closing bracket. *)
Fixpoint jq_items (acc : list Game.t) (rest : list chunk)
    : option (list Game.t) :=
  match rest with
  | [RBracket] => Some acc
  | Comma :: Object g :: rest' => jq_items (acc ++ [g]) rest'
  | _ => None
  end.

(** [jq -e . processed_games.json]: the array read from the file, [None]
    when the file is not one JSON array.  An array is neither [null] nor
    [false], so the exit status is zero whenever it is read. *)
Definition jq_array (file : list chunk) : option (list Game.t) :=
  match file with
  | [LBracket; RBracket] => Some []
  | LBracket :: Object g :: rest => jq_items [g] rest
  | _ => None
  end.

(** [[ -s file ]]: every chunk is at least one byte. *)
Definition size_nonzero (file : list chunk) : bool :=
  match file with
  | [] => false
  | _ :: _ => true
  end.

(** What a run leaves behind. *)
Record result : Type := {
  (** the script ended with status zero *)
  exit_zero : bool;
  (** the games of [public/gamelist.json], when it was written *)
  gamelist : option (list Game.t);
  (** the line of [public/api/current-game], when it was written *)
  current_game : option string
}.

Definition failed : result :=
  {| exit_zero := false; gamelist := None; current_game := None |}.

(** "Close the JSON array", "Validate the JSON array", "Check if processing
    was successful": the games of the final document, [None] on [exit 1]. *)
Definition close_and_check (file : list chunk) : option (list Game.t) :=
  let file' := file ++ [RBracket] in
  match jq_array file' with
  | None => None
  | Some games => if negb (size_nonzero file') then None else Some games
  end.

(** The directories the external loop visits: the expansion of the glob, or
    the pattern itself when nothing matches. *)
Definition external_dirs (e : env) : list string :=
  match external_glob e with
  | [] => [GAMES_DIR +:+ "/external-*"]
  | dirs => dirs
  end.

Fixpoint external_loop (e : env) (dirs : list string) (first_game : bool)
    (file : list chunk) : sh (bool * list chunk) :=
  match dirs with
  | [] => Ok (first_game, file)
  | game_dir :: rest =>
      do r <- external_game e game_dir;
      match r with
      | Some g => external_loop e rest false (append_game first_game file g)
      | None => external_loop e rest first_game file
      end
  end.

(** ** The sequential driver *)

(** [ROM_FILES] *)
Definition seq_rom_files (e : env) : option (list string) :=
  match manifest e with
  | ManifestUrl None => None
  | ManifestUrl (Some lines) =>
      Some (Str.sort (filter (fun l => negb (has_bios_dir l)) lines))
  | ManifestPath lines =>
      Some (Str.sort (filter (fun l => negb (has_bios_dir l)) lines))
  | ScanRoms found =>
      Some (Str.sort
              (map (Str.drop_prefix (ROMS_DIR +:+ "/"))
                 (filter (fun l => negb (has_bios_dir l)) found)))
  end.

Fixpoint seq_rom_loop (e : env) (lines : list string) (v : vars)
    (first_game : bool) (file : list chunk)
    : sh (vars * bool * list chunk) :=
  match lines with
  | [] => Ok (v, first_game, file)
  | rom_entry :: rest =>
      if Str.is_empty rom_entry then seq_rom_loop e rest v first_game file
      else
        do r <- seq_rom e v rom_entry;
        match r with
        | (v', Some g) =>
            seq_rom_loop e rest v' false (append_game first_game file g)
        | (v', None) => seq_rom_loop e rest v' first_game file
        end
  end.

(** "Create API endpoint for current game of the week ID" *)
Definition current_game_line (current_game_id : string) : string :=
  if negb (Str.is_empty current_game_id) then current_game_id else "no-game".

Definition generate_gamelist_sequential (e : env) : result :=
  if negb (have_tools e) then failed else
  match seq_rom_files e with
  | None => failed
  | Some rom_files =>
      match seq_rom_loop e rom_files unset_vars true [LBracket] with
      | Errexit => failed
      | Ok (_, first_game, file) =>
          match external_loop e (external_dirs e) first_game file with
          | Errexit => failed
          | Ok (first_game', file') =>
              match close_and_check file' with
              | None => failed
              | Some games =>
                  match get_current_week_game_id e with
                  | None =>
                      {| exit_zero := false; gamelist := Some games;
                         current_game := None |}
                  | Some current_game_id =>
                      (* the external loop a second time, after the output
                         is written *)
                      match external_loop e (external_dirs e) first_game'
                              (file' ++ [RBracket]) with
                      | Errexit =>
                          {| exit_zero := false; gamelist := Some games;
                             current_game :=
                               Some (current_game_line current_game_id) |}
                      | Ok _ =>
                          {| exit_zero := true; gamelist := Some games;
                             current_game :=
                               Some (current_game_line current_game_id) |}
                      end
                  end
              end
          end
      end
  end.

(** ** The parallel driver *)

(** [ROM_FILES]: a local manifest and a scan go through two more filters. *)
Definition par_keep (l : string) : bool :=
  negb (has_bios_dir l) && negb (Ere.grep re_reserved_path true l)
  && negb (Ere.grep re_helper_ext true l).

Definition par_rom_files (e : env) : option (list string) :=
  match manifest e with
  | ManifestUrl None => None
  | ManifestUrl (Some lines) =>
      Some (Str.sort (filter (fun l => negb (has_bios_dir l)) lines))
  | ManifestPath lines => Some (Str.sort (filter par_keep lines))
  | ScanRoms found =>
      Some (Str.sort
              (map (Str.drop_prefix (ROMS_DIR +:+ "/")) (filter par_keep found)))
  end.

(** [NUM_WORKERS] and [BATCH_WORKERS] *)
Definition NUM_WORKERS (e : env) : Z :=
  let n := Z.quot (wrap64 (NUM_CORES e * 3)) 4 in
  if n <? 2 then 2 else n.

Definition BATCH_WORKERS (e : env) : Z :=
  if negb (CI e) then NUM_WORKERS e else 3.

(** "Distribute files across batches": line after line, round robin;
    [batch_num] counts from zero here. *)
Fixpoint distribute (num_workers : nat) (lines : list string)
    (batch_num : nat) (batches : list (list string)) : list (list string) :=
  match lines with
  | [] => batches
  | l :: rest =>
      distribute num_workers rest (S batch_num mod num_workers)
        (alter (fun b => b ++ [l]) batch_num batches)
  end.

(** The game files in the temporary directory, by path. *)
Abbreviation tempdir := (gmap string Game.t).

(** A worker processes one line of its batch. *)
Definition worker_step (e : env) (rom_entry : string) (dir : tempdir)
    : tempdir :=
  if Str.is_empty rom_entry then dir
  else match par_rom e rom_entry with
       | Some (path, g) => <[path := g]> dir
       | None => dir
       end.

(** The workers run at once; each goes through its batch in order.  The
    schedule picks the worker that takes the next step; once it is used up
    the workers finish one after the other ([wait] returns only when all
    are done). *)
Fixpoint run_workers (e : env) (sched : list nat)
    (batches : list (list string)) (dir : tempdir) : tempdir :=
  match sched with
  | [] => foldl (fun d batch => foldl (fun d' l => worker_step e l d') d batch)
            dir batches
  | w :: sched' =>
      match batches !! w with
      | Some (rom_entry :: rest) =>
          run_workers e sched' (<[w := rest]> batches)
            (worker_step e rom_entry dir)
      | _ => run_workers e sched' batches dir
      end
  end.

(** [GAME_FILES=$(find "$TEMP_DIR" -name "game_*.json" -type f | sort)] *)
Definition GAME_FILES (dir : tempdir) : string :=
  Str.unlines (Str.sort (map fst (map_to_list dir))).

(** [for game_file in $GAME_FILES]: the unquoted expansion is split into
    words; a word that is not the path of a game file does not pass
    [[ -s ]]. *)
Fixpoint merge_loop (dir : tempdir) (game_files : list string)
    (first_game : bool) (file : list chunk) : bool * list chunk :=
  match game_files with
  | [] => (first_game, file)
  | game_file :: rest =>
      match dir !! game_file with
      | Some g => merge_loop dir rest false (append_game first_game file g)
      | None => merge_loop dir rest first_game file
      end
  end.

(** From "Combining individual game files into JSON array" to the end of
    the script, given the temporary directory the workers left. *)
Definition par_assemble (e : env) (dir : tempdir) : result :=
  let '(first_game, file) :=
    merge_loop dir (Str.words (GAME_FILES dir)) true [LBracket] in
  match external_loop e (external_dirs e) first_game file with
  | Errexit => failed
  | Ok (_, file') =>
      match close_and_check file' with
      | None => failed
      | Some games =>
          match get_current_week_game_id e with
          | None =>
              {| exit_zero := false; gamelist := Some games;
                 current_game := None |}
          | Some current_game_id =>
              {| exit_zero := true; gamelist := Some games;
                 current_game := Some (current_game_line current_game_id) |}
          end
      end
  end.

Definition par_batches (e : env) (rom_files : list string)
    : list (list string) :=
  let num_workers := Z.to_nat (BATCH_WORKERS e) in
  distribute num_workers rom_files 0 (replicate num_workers []).

Definition generate_gamelist_parallel (e : env) : result :=
  if negb (have_tools e) then failed else
  match par_rom_files e with
  | None => failed
  | Some rom_files =>
      par_assemble e
        (run_workers e (schedule e) (par_batches e rom_files) ∅)
  end.

(** ** The front end

    [allGames.filter(game => !(game.hide === true || game.hide === 'yes'))]
    in [main.js], on the JSON of an entry. *)
Definition visible (game : json) : bool :=
  match game with
  | JObj fields =>
      match Jq.field "hide" fields with
      | JBool true => false
      | JStr s => negb (s =? "yes")%string
      | _ => true
      end
  | _ => true
  end.

(** ** Reading JSON text

    A reader of JSON text, for the environments of the examples below: what
    jq makes of the text after [--argjson].  Numbers keep their digits.  An
    escape [\uXXXX] is read for code points below 128 only. *)

Module JsonText.

Definition is_ws (c : ascii) : bool :=
  Ascii.eqb c " " || Ascii.eqb c "009" || Ascii.eqb c "010" || Ascii.eqb c "013".

Fixpoint skip_ws (s : string) : string :=
  match s with
  | String c t => if is_ws c then skip_ws t else s
  | EmptyString => s
  end.

Definition is_digit (c : ascii) : bool :=
  let n := nat_of_ascii c in (48 <=? n)%nat && (n <=? 57)%nat.

(** The longest run of digits at the head, and what follows it. *)
Fixpoint digits (s : string) : string * string :=
  match s with
  | String c t =>
      if is_digit c then let '(d, r) := digits t in (String c d, r)
      else (EmptyString, s)
  | EmptyString => (EmptyString, s)
  end.

Definition hex_value (c : ascii) : option nat :=
  let n := nat_of_ascii c in
  if (48 <=? n)%nat && (n <=? 57)%nat then Some (n - 48)%nat
  else if (65 <=? n)%nat && (n <=? 70)%nat then Some (n - 55)%nat
  else if (97 <=? n)%nat && (n <=? 102)%nat then Some (n - 87)%nat
  else None.

(** [-?digits(.digits)?([eE][+-]?digits)?] *)
Definition number (s : string) : option (string * string) :=
  let '(sign, s1) :=
    match s with
    | String "-" t => ("-", t)
    | _ => ("", s)
    end in
  let '(int, s2) := digits s1 in
  if Str.is_empty int then None
  else if Str.starts "0" int && negb (int =? "0")%string then None
  else
    let after_frac :=
      match s2 with
      | String "." t =>
          let '(frac, s3) := digits t in
          if Str.is_empty frac then None else Some ("." +:+ frac, s3)
      | _ => Some ("", s2)
      end in
    match after_frac with
    | None => None
    | Some (frac, s3) =>
        let is_e c := Ascii.eqb c "e" || Ascii.eqb c "E" in
        match s3 with
        | String c t =>
            if is_e c then
              let '(esign, t') :=
                match t with
                | String "+" u => ("+", u)
                | String "-" u => ("-", u)
                | _ => ("", t)
                end in
              let '(ex, s4) := digits t' in
              if Str.is_empty ex then None
              else Some (sign +:+ int +:+ frac +:+ String c esign +:+ ex, s4)
            else Some (sign +:+ int +:+ frac, s3)
        | EmptyString => Some (sign +:+ int +:+ frac, s3)
        end
    end.

(** The characters of a string after its opening quote, up to the closing
    one. *)
Fixpoint chars (s : string) : option (string * string) :=
  match s with
  | EmptyString => None
  | String c t =>
      if Ascii.eqb c Str.dquote then Some (EmptyString, t)
      else if Ascii.eqb c "\" then
        match t with
        | String "u" (String a (String b (String x (String y t')))) =>
            match hex_value a, hex_value b, hex_value x, hex_value y with
            | Some 0%nat, Some 0%nat, Some h, Some l =>
                if (h <? 8)%nat then
                  '(r, rest) ← chars t';
                  Some (String (ascii_of_nat (16 * h + l)) r, rest)
                else None
            | _, _, _, _ => None
            end
        | String d t' =>
            let simple (x : ascii) :=
              '(r, rest) ← chars t'; Some (String x r, rest) in
            if Ascii.eqb d Str.dquote then simple Str.dquote
            else if Ascii.eqb d "\" then simple "\"%char
            else if Ascii.eqb d "/" then simple "/"%char
            else if Ascii.eqb d "b" then simple "008"%char
            else if Ascii.eqb d "f" then simple "012"%char
            else if Ascii.eqb d "n" then simple "010"%char
            else if Ascii.eqb d "r" then simple "013"%char
            else if Ascii.eqb d "t" then simple "009"%char
            else None
        | EmptyString => None
        end
      else if (nat_of_ascii c <? 32)%nat then None
      else '(r, rest) ← chars t; Some (String c r, rest)
  end.

(** One value at the head of [s], and what follows it. *)
Fixpoint value (fuel : nat) (s : string) : option (json * string) :=
  match fuel with
  | O => None
  | S fuel' =>
      let elements :=
        fix elements (n : nat) (acc : list json) (s : string)
            : option (json * string) :=
          match n with
          | O => None
          | S n' =>
              '(x, r) ← value fuel' (skip_ws s);
              match skip_ws r with
              | String "," r' => elements n' (acc ++ [x]) r'
              | String "]" r' => Some (JArr (acc ++ [x]), r')
              | _ => None
              end
          end in
      let members :=
        fix members (n : nat) (acc : list (string * json)) (s : string)
            : option (json * string) :=
          match n with
          | O => None
          | S n' =>
              match skip_ws s with
              | String "034" t =>
                  '(k, r) ← chars t;
                  match skip_ws r with
                  | String ":" r1 =>
                      '(x, r2) ← value fuel' (skip_ws r1);
                      match skip_ws r2 with
                      | String "," r3 => members n' (acc ++ [(k, x)]) r3
                      | String "}" r3 => Some (JObj (acc ++ [(k, x)]), r3)
                      | _ => None
                      end
                  | _ => None
                  end
              | _ => None
              end
          end in
      if Str.starts "null" s then Some (JNull, Str.skip 4 s)
      else if Str.starts "true" s then Some (JBool true, Str.skip 4 s)
      else if Str.starts "false" s then Some (JBool false, Str.skip 5 s)
      else
        match s with
        | String "034" t => '(x, r) ← chars t; Some (JStr x, r)
        | String "[" t =>
            match skip_ws t with
            | String "]" r => Some (JArr [], r)
            | _ => elements fuel' [] t
            end
        | String "{" t =>
            match skip_ws t with
            | String "}" r => Some (JObj [], r)
            | _ => members fuel' [] t
            end
        | _ => '(n, r) ← number s; Some (JNum n, r)
        end
  end.

(** The text is one JSON value, with blanks around it at most. *)
Definition read (s : string) : option json :=
  '(j, r) ← value (S (String.length s)) (skip_ws s);
  if Str.is_empty (skip_ws r) then Some j else None.

End JsonText.

(** ** Reading dates

    A [date] for the environments of the examples below: it reads the form
    [YYYY-MM-DD] as midnight UTC and fails on everything else. *)

Module DateText.

Fixpoint number (acc : Z) (s : string) : option Z :=
  match s with
  | EmptyString => Some acc
  | String c t =>
      if JsonText.is_digit c
      then number (10 * acc + Z.of_nat (nat_of_ascii c - 48)) t
      else None
  end.

Definition leap (y : Z) : bool :=
  ((y mod 4 =? 0) && negb (y mod 100 =? 0)) || (y mod 400 =? 0).

Definition days_in_month (y m : Z) : Z :=
  if m =? 2 then (if leap y then 29 else 28)
  else if (m =? 4) || (m =? 6) || (m =? 9) || (m =? 11) then 30
  else 31.

(** Days from 1970-01-01 to the civil date. *)
Definition days_from_civil (y m d : Z) : Z :=
  let y' := if m <=? 2 then y - 1 else y in
  let era := y' / 400 in
  let yoe := y' - era * 400 in
  let mp := (m + 9) mod 12 in
  let doy := (153 * mp + 2) / 5 + d - 1 in
  let doe := yoe * 365 + yoe / 4 - yoe / 100 + doy in
  era * 146097 + doe - 719468.

Definition epoch (s : string) : option Z :=
  if (String.length s =? 10)%nat
     && Ascii.eqb (default "x"%char (String.get 4 s)) "-"
     && Ascii.eqb (default "x"%char (String.get 7 s)) "-"
  then
    y ← number 0 (String.substring 0 4 s);
    m ← number 0 (String.substring 5 2 s);
    d ← number 0 (String.substring 8 2 s);
    if (1 <=? m) && (m <=? 12) && (1 <=? d) && (d <=? days_in_month y m)
    then Some (days_from_civil y m d * 86400)
    else None
  else None.

End DateText.

(** ** Example worlds

    A CI run on four cores at 2025-02-01 00:00 UTC: all tools are there, no
    cover or save-state file exists, the directories are the ones the glob
    lists, and jq and date read texts as above. *)

Definition world (manifest : manifest_source)
    (metadata_yaml : string -> yaml_file) (external_glob : list string)
    (check_predictions_status : string -> option string)
    (schedule : list nat) : env :=
  {| have_tools := true;
     LOCAL_TESTING := false;
     CI := true;
     NUM_CORES := 4;
     manifest := manifest;
     metadata_yaml := metadata_yaml;
     is_file := fun _ => false;
     is_dir := fun p => existsb (String.eqb p) external_glob;
     external_glob := external_glob;
     check_predictions_status := check_predictions_status;
     date_epoch := DateText.epoch;
     now_epoch := 1738368000;
     jq_text := JsonText.read;
     get_current_week_game_id := Some "mario";
     TEMP_DIR := "/tmp/tmp.gamelist";
     schedule := schedule |}.

Definition no_metadata : string -> yaml_file := fun _ => NoFile.

(** One metadata file, at [public/games/game_id/metadata.yaml]. *)
Definition metadata_for (game_id : string) (f : yaml_file)
    (others : string -> yaml_file) : string -> yaml_file :=
  fun path =>
    if (path =? rom_metadata_file game_id)%string then f else others path.

Definition no_predictions : string -> option string :=
  fun _ => Some "NOT_IN_PREDICTIONS".

(** The prediction data flags one key. *)
Definition predicted (key out : string) : string -> option string :=
  fun k => if (k =? key)%string then Some out else Some "NOT_IN_PREDICTIONS".

(** * What the properties are stated with *)

(** The ids of the catalog a run wrote. *)
Definition ids (r : result) : option (list string) :=
  map Game.id <$> gamelist r.

(** The sequential driver builds [g] from the manifest line. *)
Definition seq_builds (e : env) (v0 : vars) (rom_entry : string)
    (g : Game.t) : Prop :=
  exists v, seq_rom e v0 rom_entry = Ok (v, Some g).

(** A worker of the parallel driver writes [g] for the manifest line. *)
Definition par_builds (e : env) (rom_entry : string) (g : Game.t) : Prop :=
  exists path, par_rom e rom_entry = Some (path, g).

(** The external loop appends an entry for the directory. *)
Definition external_builds (e : env) (game_dir : string) : Prop :=
  exists g, external_game e game_dir = Ok (Some g).

(** The table of the specification: system folder, core id. *)
Definition core_table : list (string * string) :=
  [("arcade", "arcade"); ("fbneo", "arcade");
   ("mame", "mame2003_plus"); ("mame2003", "mame2003_plus");
   ("ATARI2600", "atari2600"); ("GAMEBOY", "gb"); ("GBA", "gba");
   ("GENESIS", "segaMD"); ("MEGADRIVE", "segaMD"); ("GG", "segaGG");
   ("JAGUAR", "jaguar"); ("N64", "n64"); ("NES", "nes");
   ("PCENGINE", "pce"); ("PSX", "psx"); ("S32X", "sega32x");
   ("SMS", "segaMS"); ("SNES", "snes"); ("VB", "vb"); ("WS", "ws")].

(** The core the table gives for a system folder, [None] for a folder that
    is not in it. *)
Fixpoint table_core (table : list (string * string)) (system : string)
    : option string :=
  match table with
  | [] => None
  | (folder, core) :: rest =>
      if (system =? folder)%string then Some core else table_core rest system
  end.

(** The prediction helper flags the key: its answer matches [SHOW_GAME*]. *)
Definition predicted_show (e : env) (key : string) : bool :=
  Str.starts "SHOW_GAME" (prediction_result e key).

(** The text [jq -r] prints for [.k] with the empty string as default. *)
Definition doc_text (k : string) (doc : json) : string :=
  captured (Jq.get_r k (JStr "") doc).

(** The prediction data flags none of the keys the ROM entry is looked up
    under: its id, and (sequential driver) the title of its metadata
    document. *)
Definition not_predicted (e : env) (game_id : string) (f : yaml_file)
    : Prop :=
  (game_id <> "" -> predicted_show e game_id = false)
  /\ forall doc,
       f = YqPrints doc -> doc_text "title" doc <> "" ->
       predicted_show e (doc_text "title" doc) = false.

(** The five conditions of the specification: the metadata document parses,
    [game_type] is "external", [hide] is not "yes", and [title] and
    [external_url] are not empty. *)
Definition external_eligible (e : env) (game_dir : string) : Prop :=
  exists doc,
    metadata_yaml e (external_metadata_file game_dir) = YqPrints doc
    /\ Jq.e_ok doc = true
    /\ doc_text "game_type" doc = "external"
    /\ doc_text "hide" doc <> "yes"
    /\ doc_text "title" doc <> ""
    /\ doc_text "external_url" doc <> "".

(** The entry serializes: jq reads the two texts handed to [--argjson]. *)
Definition external_serializes (e : env) (game_dir : string) : Prop :=
  exists doc,
    metadata_yaml e (external_metadata_file game_dir) = YqPrints doc
    /\ is_Some (jq_text e (captured (Jq.get_r "enable_score" (JBool false) doc)))
    /\ is_Some (jq_text e (captured (Jq.get_c "controls" JNull doc))).

(** The text of the explicit new override of a metadata file:
    [jq -r '.new // empty'] of a parsed document, nothing otherwise. *)
Definition new_override (f : yaml_file) : string :=
  match f with
  | YqPrints doc =>
      if Jq.e_ok doc then captured (Jq.get_r_or_empty "new" doc) else ""
  | _ => ""
  end.

(** The added date is there, is not the placeholder, is read by [date], and
    lies less than seven whole days back. *)
Definition recent (e : env) (added : string) : Prop :=
  added <> "" /\ added <> "DATE_PLACEHOLDER"
  /\ exists added_epoch,
       date_epoch e added = Some added_epoch
       /\ diff_days (now_epoch e) added_epoch < 7.

(** The file is there and is not taken as metadata: yq fails on it, or jq
    rejects what yq printed. *)
Definition unparsable (f : yaml_file) : Prop :=
  f = YqFails \/ exists doc, f = YqPrints doc /\ Jq.e_ok doc = false.

(** The same world with other metadata files. *)
Definition with_metadata (e : env) (m : string -> yaml_file) : env :=
  {| have_tools := have_tools e;
     LOCAL_TESTING := LOCAL_TESTING e;
     CI := CI e;
     NUM_CORES := NUM_CORES e;
     manifest := manifest e;
     metadata_yaml := m;
     is_file := is_file e;
     is_dir := is_dir e;
     external_glob := external_glob e;
     check_predictions_status := check_predictions_status e;
     date_epoch := date_epoch e;
     now_epoch := now_epoch e;
     jq_text := jq_text e;
     get_current_week_game_id := get_current_week_game_id e;
     TEMP_DIR := TEMP_DIR e;
     schedule := schedule e |}.

(** The chunks of an array file after its opening bracket. *)
Fixpoint objects (games : list Game.t) : list chunk :=
  match games with
  | [] => []
  | [g] => [Object g]
  | g :: gs => Object g :: Comma :: objects gs
  end.

Definition no_game (games : list Game.t) : bool :=
  match games with [] => true | _ :: _ => false end.

(** The array file holds the games appended so far, and [first_game] tells
    whether there is none. *)
Definition holds (first_game : bool) (file : list chunk)
    (games : list Game.t) : Prop :=
  file = LBracket :: objects games /\ first_game = no_game games.

(** Where an entry of a catalog comes from: a line of [ROM_FILES] that the
    body of the ROM loop (with the variables some earlier round left) or a
    worker turned into the entry, or a directory of the external loop. *)
Definition seq_entry (e : env) (g : Game.t) : Prop :=
  exists rom_files v0 rom_entry,
    seq_rom_files e = Some rom_files /\ In rom_entry rom_files
    /\ seq_builds e v0 rom_entry g.

Definition par_entry (e : env) (g : Game.t) : Prop :=
  exists rom_files rom_entry,
    par_rom_files e = Some rom_files /\ In rom_entry rom_files
    /\ par_builds e rom_entry g.

Definition external_entry (e : env) (g : Game.t) : Prop :=
  exists game_dir,
    In game_dir (external_dirs e) /\ external_game e game_dir = Ok (Some g).

(** Every game file of the temporary directory was written by a worker
    for a line of [ROM_FILES]. *)
Definition all_written (e : env) (rom_files : list string) (dir : tempdir)
    : Prop :=
  forall game_file g,
    dir !! game_file = Some g ->
    exists rom_entry, In rom_entry rom_files /\ par_builds e rom_entry g.

(** The batches hold lines of [ROM_FILES] only. *)
Definition from_rom_files (rom_files : list string)
    (batches : list (list string)) : Prop :=
  Forall (Forall (fun l => In l rom_files)) batches.

(** ** The worlds of the examples *)

(** No ROM and no external directory. *)
Definition empty_world : env :=
  world (ManifestPath []) no_metadata [] no_predictions [].

(** A scan that finds a ROM and a README next to it. *)
Definition readme_world : env :=
  world (ScanRoms ["roms/NES/Mario.nes"; "roms/NES/README.md"])
    no_metadata [] no_predictions [].

(** A local manifest that lists a text file. *)
Definition notes_world : env :=
  world (ManifestPath ["NES/notes.txt"]) no_metadata [] no_predictions [].

(** A ROM whose metadata gives an added date that [date] cannot read. *)
Definition unreadable_date_world : env :=
  world (ManifestPath ["NES/Mario.nes"])
    (metadata_for "Mario" (YqPrints (JObj [("added", JStr "soon")]))
       no_metadata)
    [] no_predictions [].

(** A ROM whose metadata gives it a title and hides it, and prediction data
    that flags the game by its id. *)
Definition retitled_world : env :=
  world (ManifestPath ["NES/mario.nes"])
    (metadata_for "mario"
       (YqPrints
          (JObj [("title", JStr "Super Mario Bros"); ("hide", JStr "yes");
                 ("added", JStr "2024-01-01")]))
       no_metadata)
    [] (predicted "mario" "SHOW_GAME|2025-01-27") [].

(** Two ROMs: the metadata of the first gives an announcement message, the
    metadata of the second does not parse. *)
Definition announcement_world : env :=
  world (ManifestPath ["NES/a.nes"; "NES/b.nes"])
    (metadata_for "a"
       (YqPrints (JObj [("announcement_message", JStr "Hello")]))
       (metadata_for "b" YqFails no_metadata))
    [] no_predictions [].

Definition demo_dir : string := "public/games/external-demo".

(** An external directory whose metadata meets the five conditions and
    gives [enable_score] a value that is not JSON text. *)
Definition unreadable_score_world : env :=
  world (ManifestPath [])
    (fun path =>
       if (path =? external_metadata_file demo_dir)%string
       then YqPrints
              (JObj [("game_type", JStr "external"); ("title", JStr "Demo");
                     ("external_url", JStr "https://x");
                     ("enable_score", JStr "enabled")])
       else NoFile)
    [demo_dir] no_predictions [].

Definition arcade1up_dir : string := "public/games/external-arcade1up".

(** Scenario E of the specification. *)
Definition scenario_e_world : env :=
  world (ManifestPath [])
    (fun path =>
       if (path =? external_metadata_file arcade1up_dir)%string
       then YqPrints
              (JObj [("game_type", JStr "external"); ("hide", JStr "no");
                     ("title", JStr "Demo");
                     ("external_url", JStr "https://x")])
       else NoFile)
    [arcade1up_dir] no_predictions [].

(** Two ROMs with the same file name stem in two system folders. *)
Definition two_marios (sched : list nat) : env :=
  world (ManifestPath ["NES/Mario.nes"; "SNES/Mario.sfc"]) no_metadata []
    no_predictions sched.

(** The game file both workers write, and the entry a worker writes for the
    ROM in a folder. *)
Definition mario_file : string := "/tmp/tmp.gamelist/game_Mario.json".

Definition mario_of (core rom : string) : Game.t :=
  {| Game.id := "Mario"; Game.title := "Mario"; Game.problem := "";
     Game.developer := ""; Game.year := ""; Game.genre := "";
     Game.recommended := ""; Game.added := ""; Game.hide := "yes";
     Game.coverArt := "/assets/images/placeholder_thumb.png";
     Game.pageUrl := "/play?game=Mario"; Game.core := core;
     Game.romPath :=
       "https://storage.googleapis.com/bonjourarcade/roms/" +:+ rom;
     Game.saveState := ""; Game.enable_score := JBool true;
     Game.controls := JNull; Game.to_start := ""; Game.new_flag := "";
     Game.announcement_message := ""; Game.external := None |}.

(** The temporary directory holds one game file, whichever worker wrote
    last. *)
Definition one_mario (dir : tempdir) : Prop :=
  dir = {[mario_file := mario_of "nes" "NES/Mario.nes"]}
  \/ dir = {[mario_file := mario_of "snes" "SNES/Mario.sfc"]}.

(** A manifest line in a folder that is not in the table, and nothing
    else. *)
Definition unmapped_world : env :=
  world (ManifestPath ["FOO/game.bin"]) no_metadata [] no_predictions [].

(** Scenario A of the specification: a ROM with no metadata file. *)
Definition bare_world : env :=
  world (ManifestPath ["NES/Mario.nes"]) no_metadata [] no_predictions [].

(** The same ROM with a metadata file that holds the empty mapping. *)
Definition empty_metadata_world : env :=
  world (ManifestPath ["NES/Mario.nes"])
    (metadata_for "Mario" (YqPrints (JObj [])) no_metadata) []
    no_predictions [].

(** * The rest of the build scripts and of the front end

    ** The parallel driver under another schedule *)

(** The same world with the workers taking their steps in another order. *)
Definition with_schedule (e : env) (sched : list nat) : env :=
  {| have_tools := have_tools e;
     LOCAL_TESTING := LOCAL_TESTING e;
     CI := CI e;
     NUM_CORES := NUM_CORES e;
     manifest := manifest e;
     metadata_yaml := metadata_yaml e;
     is_file := is_file e;
     is_dir := is_dir e;
     external_glob := external_glob e;
     check_predictions_status := check_predictions_status e;
     date_epoch := date_epoch e;
     now_epoch := now_epoch e;
     jq_text := jq_text e;
     get_current_week_game_id := get_current_week_game_id e;
     TEMP_DIR := TEMP_DIR e;
     schedule := sched |}.

(** No two lines of [ROM_FILES] make the workers write different entries to
    one game file. *)
Definition writes_agree (e : env) (rom_files : list string) : Prop :=
  forall l1 l2 path g1 g2,
    In l1 rom_files -> In l2 rom_files ->
    par_rom e l1 = Some (path, g1) -> par_rom e l2 = Some (path, g2) ->
    g1 = g2.

(** The lines a list of workers goes through, one after the other. *)
Definition steps (e : env) (dir : tempdir) (lines : list string) : tempdir :=
  foldl (fun d l => worker_step e l d) dir lines.

(** Two ROMs in two system folders, with different names. *)
Definition two_games (sched : list nat) : env :=
  world (ManifestPath ["NES/Mario.nes"; "SNES/Zelda.sfc"]) no_metadata []
    no_predictions sched.

(** The first [batch_num] batches hold one line more than the others. *)
Definition round_robin (num_workers batch_num q : nat)
    (batches : list (list string)) : Prop :=
  length batches = num_workers /\ (batch_num < num_workers)%nat
  /\ forall i b, batches !! i = Some b ->
       length b = if (i <? batch_num)%nat then S q else q.

(** A ROM and an external game. *)
Definition mixed_world : env :=
  world (ManifestPath ["NES/Mario.nes"])
    (fun path =>
       if (path =? external_metadata_file arcade1up_dir)%string
       then YqPrints
              (JObj [("game_type", JStr "external"); ("hide", JStr "no");
                     ("title", JStr "Demo");
                     ("external_url", JStr "https://x")])
       else NoFile)
    [arcade1up_dir] no_predictions [].

(** ** Text and paths

    What the two scripts below share: counting and splitting lines, the
    cells of a progress bar, and [basename] and [dirname]. *)

Module Text.

(** [wc -l]: the number of newline bytes. *)
Fixpoint wc_l (text : string) : Z :=
  match text with
  | EmptyString => 0
  | String c t => (if Ascii.eqb c "010" then 1 else 0) + wc_l t
  end.

(** The lines [while IFS= read -r line; do ... done <<< "$text"] goes
    through: the here-string ends the text with a newline, so the text
    without newlines is one line, the empty text included. *)
Fixpoint lines_from (acc : string) (text : string) : list string :=
  match text with
  | EmptyString => [acc]
  | String c t =>
      if Ascii.eqb c "010" then acc :: lines_from EmptyString t
      else lines_from (acc +:+ String c EmptyString) t
  end.

Definition lines (text : string) : list string := lines_from EmptyString text.

Fixpoint cells (cell : string) (n : nat) : string :=
  match n with
  | O => EmptyString
  | S n' => cell +:+ cells cell n'
  end.

(** The two [for ((i=0; i<n; i++))] loops of a progress bar: a loop whose
    bound is not positive adds nothing. *)
Definition bar_of (filled empty : Z) : string :=
  cells "█" (Z.to_nat filled) +:+ cells "░" (Z.to_nat empty).

(** The text without the slashes that end it. *)
Fixpoint strip_trailing_slashes (s : string) : string :=
  match s with
  | EmptyString => EmptyString
  | String c t =>
      let t' := strip_trailing_slashes t in
      if Str.is_empty t' && Ascii.eqb c "/" then EmptyString else String c t'
  end.

(** The text before the last slash; empty when there is no slash. *)
Fixpoint before_last_slash (s : string) : string :=
  match s with
  | EmptyString => EmptyString
  | String c t =>
      if Str.has_char "/" t then String c (before_last_slash t)
      else EmptyString
  end.

(** [basename path] *)
Definition basename (path : string) : string :=
  let stripped := strip_trailing_slashes path in
  if Str.is_empty stripped
  then (if Str.is_empty path then "" else "/")
  else Str.last_field "/" stripped.

(** [dirname path] *)
Definition dirname (path : string) : string :=
  let stripped := strip_trailing_slashes path in
  if Str.has_char "/" stripped then
    let dir := strip_trailing_slashes (before_last_slash stripped) in
    if Str.is_empty dir then "/" else dir
  else if Str.is_empty stripped && negb (Str.is_empty path) then "/"
  else ".".

End Text.

(** ** The progress tracker

    [scripts/progress_tracker.sh] watches the two log files the gamelist
    and the thumbnail runs append to, and prints percentages and bars.  The
    functions below give what the caller's command substitution keeps of
    each function's output.  Counts are integers within the range of the
    shell's arithmetic; the colored text around the numbers is left out. *)

Module Tracker.

(** A log file: its bytes, or [None] when the file is not there. *)
Definition log : Type := option string.

(** [echo "$line" >> log] *)
Definition echo_append (line : string) (l : log) : log :=
  Some (default "" l +:+ line +:+ String "010" "").

(** The text without the newline that ends it, if one does. *)
Fixpoint without_final_newline (text : string) : string :=
  match text with
  | EmptyString => EmptyString
  | String c t =>
      if Str.is_empty t && Ascii.eqb c "010" then EmptyString
      else String c (without_final_newline t)
  end.

(** [tail -n 1]: the last line. *)
Definition tail_n1 (text : string) : string :=
  Str.last_field "010" (without_final_newline text).

(** "Function to count processed files from log" *)
Definition count_processed_files (log_file : log) : Z :=
  match log_file with
  | Some text => Text.wc_l text
  | None => 0
  end.

(** "Function to calculate percentage" *)
Definition calculate_percentage (processed total : Z) : Z :=
  if total >? 0 then Z.quot (wrap64 (processed * 100)) total
  else if processed >? 0 then 100
  else 0.

(** "Function to create progress bar" *)
Definition create_progress_bar (percentage : Z) : string :=
  let width := 30 in
  let filled := Z.quot (wrap64 (percentage * width)) 100 in
  let empty := wrap64 (width - filled) in
  "[" +:+ Text.bar_of filled empty +:+ "]".

(** "Function to get last processed file from log" *)
Definition get_last_processed (log_file : log) : string :=
  match log_file with
  | Some text =>
      if negb (Str.is_empty text) then Str.chomp (tail_n1 text) else "None"
  | None => "None"
  end.

(** What [display_progress] prints its lines from. *)
Record display : Type := {
  gamelist_percentage : Z;
  thumbnails_percentage : Z;
  gamelist_bar : string;
  thumbnails_bar : string;
  gamelist_last : string;
  thumbnails_last : string;
  overall_processed : Z;
  overall_total : Z;
  overall_percentage : Z;
  overall_bar : string
}.

(** "Function to display progress" *)
Definition display_progress (GAMELIST_LOG THUMBNAILS_LOG : log)
    (gamelist_processed thumbnails_processed total_roms : Z) : display :=
  let gamelist_percentage :=
    calculate_percentage gamelist_processed total_roms in
  let thumbnails_percentage :=
    calculate_percentage thumbnails_processed total_roms in
  let overall_processed :=
    wrap64 (gamelist_processed + thumbnails_processed) in
  let overall_total := wrap64 (total_roms * 2) in
  let overall_percentage :=
    calculate_percentage overall_processed overall_total in
  {| gamelist_percentage := gamelist_percentage;
     thumbnails_percentage := thumbnails_percentage;
     gamelist_bar := create_progress_bar gamelist_percentage;
     thumbnails_bar := create_progress_bar thumbnails_percentage;
     gamelist_last := get_last_processed GAMELIST_LOG;
     thumbnails_last := get_last_processed THUMBNAILS_LOG;
     overall_processed := overall_processed;
     overall_total := overall_total;
     overall_percentage := overall_percentage;
     overall_bar := create_progress_bar overall_percentage |}.

(** "Main monitoring loop": one round per observation of the two logs; the
    rounds shown, and whether the loop reached its [break].  When the
    observations run out the monitor is still waiting. *)
Fixpoint main (TOTAL_ROMS : Z) (observations : list (log * log))
    : list display * bool :=
  match observations with
  | [] => ([], false)
  | (GAMELIST_LOG, THUMBNAILS_LOG) :: later =>
      let GAMELIST_PROCESSED := count_processed_files GAMELIST_LOG in
      let THUMBNAILS_PROCESSED := count_processed_files THUMBNAILS_LOG in
      let shown :=
        display_progress GAMELIST_LOG THUMBNAILS_LOG GAMELIST_PROCESSED
          THUMBNAILS_PROCESSED TOTAL_ROMS in
      if (GAMELIST_PROCESSED >=? TOTAL_ROMS)
         && (THUMBNAILS_PROCESSED >=? TOTAL_ROMS)
      then ([shown], true)
      else let '(rest, done) := main TOTAL_ROMS later in (shown :: rest, done)
  end.

(** The log after the lines were appended to it, one [echo] each. *)
Definition appended (lines : list string) (l : log) : log :=
  foldl (fun l' line => echo_append line l') l lines.

End Tracker.

(** A text whose every line is ended by a newline. *)
Definition ended (text : string) : Prop :=
  text = "" \/ exists t, text = t +:+ String "010" "".


(** Both logs hold at least [TOTAL_ROMS] lines. *)
Definition finished (TOTAL_ROMS : Z) (observation : Tracker.log * Tracker.log)
    : bool :=
  (Tracker.count_processed_files observation.1 >=? TOTAL_ROMS)
  && (Tracker.count_processed_files observation.2 >=? TOTAL_ROMS).

(** ** The thumbnail generator

    The script that writes a [_thumb] copy next to every cover image.  It
    does not run under [set -e].  The images [find] prints and the default
    cover have no newline in their paths. *)

Module Thumbnails.

Definition THUMB_WIDTH : Z := 150.
Definition GAMES_DIR : string := "public/games".
Definition DEFAULT_COVER : string := "public/assets/images/placeholder_thumb.png".

(** What the script finds when it starts. *)
Record env : Type := {
  (** [command -v magick] succeeds *)
  have_magick : bool;
  (** [find "$GAMES_DIR" -name "cover.png" -type f], in any order;
      [None] when [$GAMES_DIR] is not a directory *)
  covers : option (list string);
  (** the regular files there are when the script starts *)
  is_file : string -> bool;
  (** [magick source -resize "150x>" target] succeeds, and then [target]
      is there *)
  magick : string -> string -> bool
}.

(** [IMAGE_PATHS] *)
Definition IMAGE_PATHS (e : env) : string :=
  let found :=
    match covers e with
    | Some found => Str.chomp (Str.unlines (Str.sort found))
    | None => ""
    end in
  if is_file e DEFAULT_COVER
  then found +:+ String "010" DEFAULT_COVER
  else found.

(** [TOTAL_IMAGES=$(echo "$IMAGE_PATHS" | wc -l)] *)
Definition TOTAL_IMAGES (e : env) : Z :=
  Text.wc_l (IMAGE_PATHS e +:+ String "010" "").

(** "Function to update progress bar": the bar and the percentage it
    prints; [None] when the division by [total] fails. *)
Definition update_progress (current total : Z) : option (string * Z) :=
  let width := 50 in
  if total =? 0 then None
  else
    let percentage := Z.quot (wrap64 (current * 100)) total in
    let filled := Z.quot (wrap64 (current * width)) total in
    let empty := wrap64 (width - filled) in
    Some (Text.bar_of filled empty, percentage).

(** "Remove leading slash", then "Prepend 'public/' if the path does not
    already start with it". *)
Definition full_image_path (relative_path : string) : string :=
  let relative_path :=
    match relative_path with
    | String "/" rest => rest
    | _ => relative_path
    end in
  if negb (Str.starts "public/" relative_path)
  then "public/" +:+ relative_path
  else relative_path.

(** "Construct thumbnail filename (e.g., cover.png -> cover_thumb.png)" *)
Definition thumbnail_path (full_image_path : string) : string :=
  let filename := Text.basename full_image_path in
  let dirname := Text.dirname full_image_path in
  let extension := Str.last_field "." filename in
  let base_name := Str.strip_ext filename in
  dirname +:+ "/" +:+ base_name +:+ "_thumb." +:+ extension.

(** The variables of the loop, the thumbnails written ([source, target]),
    the calls of [update_progress], and the files there are. *)
Record state : Type := {
  PROCESSED_COUNT : Z;
  FAILED_COUNT : Z;
  FAILED_FILES : list string;
  thumbnails : list (string * string);
  progress : list (option (string * Z));
  there : string -> bool
}.

(** The body of the [while read] loop. *)
Definition step (e : env) (total : Z) (s : state) (relative_path : string)
    : state :=
  let full := full_image_path relative_path in
  if negb (there s full) then
    let processed := wrap64 (PROCESSED_COUNT s + 1) in
    {| PROCESSED_COUNT := processed;
       FAILED_COUNT := wrap64 (FAILED_COUNT s + 1);
       FAILED_FILES := FAILED_FILES s ++ [full +:+ " (file not found)"];
       thumbnails := thumbnails s;
       progress := progress s ++ [update_progress processed total];
       there := there s |}
  else
    let target := thumbnail_path full in
    if magick e full target then
      let processed := wrap64 (PROCESSED_COUNT s + 1) in
      {| PROCESSED_COUNT := processed;
         FAILED_COUNT := FAILED_COUNT s;
         FAILED_FILES := FAILED_FILES s;
         thumbnails := thumbnails s ++ [(full, target)];
         progress := progress s ++ [update_progress processed total];
         there := fun path => (path =? target)%string || there s path |}
    else
      {| PROCESSED_COUNT := PROCESSED_COUNT s;
         FAILED_COUNT := wrap64 (FAILED_COUNT s + 1);
         FAILED_FILES :=
           FAILED_FILES s ++ [full +:+ " (ImageMagick processing failed)"];
         thumbnails := thumbnails s;
         progress :=
           progress s ++ [update_progress (PROCESSED_COUNT s) total];
         there := there s |}.

(** How a run ends: its exit status, and the state it leaves ([None] when
    it ends before the loop). *)
Definition generate_thumbnails (e : env) : Z * option state :=
  if negb (have_magick e) then (1, None)
  else if Str.is_empty (IMAGE_PATHS e) then (0, None)
  else
    let s :=
      foldl (step e (TOTAL_IMAGES e))
        {| PROCESSED_COUNT := 0; FAILED_COUNT := 0; FAILED_FILES := [];
           thumbnails := []; progress := []; there := is_file e |}
        (Text.lines (IMAGE_PATHS e)) in
    (if FAILED_COUNT s >? 0 then 1 else 0, Some s).

End Thumbnails.

(** ** The cover of a game in the grid of the front end

    [populatePreviousGames] in [main.js]: "Use thumbnail version for the
    previous games grid if available". *)

(** [s.substring(0, i) + '_thumb' + s.substring(i)] at the last dot of
    [s]; [s] itself when it has no dot. *)
Fixpoint insert_thumb (s : string) : string :=
  match s with
  | EmptyString => EmptyString
  | String c t =>
      if Str.has_char "." t then String c (insert_thumb t)
      else if Ascii.eqb c "." then "_thumb" +:+ s
      else s
  end.

(** The [src] of the image of a game whose [coverArt] is the given text. *)
Definition grid_cover_src (coverArt : string) : string :=
  let coverSrc :=
    if negb (Str.is_empty coverArt) then coverArt
    else "/assets/images/placeholder_thumb.png" in
  if negb (Str.is_empty coverSrc)
     && negb (coverSrc =? "/assets/images/placeholder_thumb.png")%string
  then insert_thumb coverSrc
  else coverSrc.

(** A games directory with the covers of two games, and the placeholder. *)
Definition two_covers : Thumbnails.env :=
  {| Thumbnails.have_magick := true;
     Thumbnails.covers :=
       Some ["public/games/zelda/cover.png"; "public/games/mario/cover.png"];
     Thumbnails.is_file := fun path =>
       (path =? "public/games/zelda/cover.png")%string
       || (path =? "public/games/mario/cover.png")%string
       || (path =? Thumbnails.DEFAULT_COVER)%string;
     Thumbnails.magick := fun _ _ => true |}.

(** A games directory without any cover, and the placeholder. *)
Definition no_cover : Thumbnails.env :=
  {| Thumbnails.have_magick := true;
     Thumbnails.covers := Some [];
     Thumbnails.is_file := fun path =>
       (path =? Thumbnails.DEFAULT_COVER)%string;
     Thumbnails.magick := fun _ _ => true |}.

(** A ROM whose game directory holds a cover. *)
Definition cover_world : env :=
  {| have_tools := true; LOCAL_TESTING := false; CI := true; NUM_CORES := 4;
     manifest := ManifestPath ["NES/Mario.nes"];
     metadata_yaml := no_metadata;
     is_file := fun path => (path =? "public/games/Mario/cover.png")%string;
     is_dir := fun _ => false;
     external_glob := [];
     check_predictions_status := no_predictions;
     date_epoch := DateText.epoch;
     now_epoch := 1738368000;
     jq_text := JsonText.read;
     get_current_week_game_id := Some "mario";
     TEMP_DIR := "/tmp/tmp.gamelist";
     schedule := [] |}.

(** After [k] lines of the loop: every line has ended as a thumbnail or as
    an entry of [FAILED_FILES], the counters agree with the lists, and
    every call of [update_progress] printed a bar and a percentage of at
    most 100. *)
Definition accounted (k : Z) (s : Thumbnails.state) : Prop :=
  0 <= k
  /\ Z.of_nat (length (Thumbnails.thumbnails s))
     + Z.of_nat (length (Thumbnails.FAILED_FILES s)) = k
  /\ Thumbnails.FAILED_COUNT s
     = Z.of_nat (length (Thumbnails.FAILED_FILES s))
  /\ Z.of_nat (length (Thumbnails.thumbnails s))
     <= Thumbnails.PROCESSED_COUNT s <= k
  /\ Forall (fun shown =>
               exists bar percentage,
                 shown = Some (bar, percentage) /\ 0 <= percentage <= 100)
       (Thumbnails.progress s).

(** ** The front end: system names

    [getSystemName] in [main.js] looks the core up in an object literal.  A
    key the literal does not have is looked up in [Object.prototype], whose
    members are functions and objects, all truthy: the function then
    returns that member, not a text. *)

Inductive shown : Type :=
| Text (s : string)
| Inherited (key : string).

Definition systemMap : list (string * string) :=
  [("arcade", "Arcade"); ("mame2003_plus", "Arcade (MAME)");
   ("atari2600", "Atari 2600"); ("gb", "Game Boy");
   ("gba", "Game Boy Advance"); ("segaMD", "Sega Genesis/Mega Drive");
   ("segaGG", "Sega Game Gear"); ("jaguar", "Atari Jaguar");
   ("n64", "Nintendo 64"); ("nes", "Nintendo Entertainment System");
   ("pce", "PC Engine/TurboGrafx-16"); ("psx", "PlayStation");
   ("sega32x", "Sega 32X"); ("segaMS", "Sega Master System");
   ("snes", "Super Nintendo"); ("vb", "Virtual Boy"); ("ws", "WonderSwan");
   ("external", "External Game")].

(** The members of [Object.prototype]. *)
Definition Object_prototype : list string :=
  ["constructor"; "__defineGetter__"; "__defineSetter__"; "hasOwnProperty";
   "__lookupGetter__"; "__lookupSetter__"; "isPrototypeOf";
   "propertyIsEnumerable"; "toString"; "valueOf"; "__proto__";
   "toLocaleString"].

Fixpoint own (object : list (string * string)) (key : string)
    : option string :=
  match object with
  | [] => None
  | (k, v) :: rest => if (key =? k)%string then Some v else own rest key
  end.

Fixpoint member (key : string) (keys : list string) : bool :=
  match keys with
  | [] => false
  | k :: rest => (key =? k)%string || member key rest
  end.

(** [getSystemName(core)] for a core that is a string. *)
Definition getSystemName (core : string) : shown :=
  if Str.is_empty core then Text ""
  else
    match own systemMap core with
    | Some name => Text name   (* every name of the literal is truthy *)
    | None => if member core Object_prototype then Inherited core
              else Text core
    end.

(** ** The front end: keyboard navigation

    The [keydown] listener of [main.js] moves [currentIndex]: 0 is the
    featured game, 1 to [gameItems.length] are the games of the grid. *)

Inductive key : Type :=
| ArrowDown
| ArrowUp
| ArrowLeft
| ArrowRight
| Tab (shiftKey : bool)
| Enter.

(** The number of spaces of a text. *)
Fixpoint spaces (s : string) : Z :=
  match s with
  | EmptyString => 0
  | String c t => (if Ascii.eqb c " " then 1 else 0) + spaces t
  end.

(** "Determine grid width": [colStr.split(' ').length] when the grid is
    there, with [colStr] its computed [grid-template-columns]. *)
Definition gridCols (grid : option string) : Z :=
  match grid with
  | Some colStr => spaces colStr + 1
  | None => 1
  end.

(** [currentIndex] after a navigation key; [items] is
    [gameItems.length]. *)
Definition navigate (k : key) (grid : option string) (items : Z)
    (currentIndex : Z) : Z :=
  let gridCols := gridCols grid in
  match k with
  | ArrowDown =>
      if currentIndex =? 0 then 1
      else Z.min items (currentIndex + gridCols)
  | ArrowUp =>
      if currentIndex <=? gridCols then 0
      else Z.max 1 (currentIndex - gridCols)
  | ArrowLeft =>
      if currentIndex >? 0 then Z.max 0 (currentIndex - 1)
      else currentIndex
  | ArrowRight =>
      if currentIndex <? items then Z.min items (currentIndex + 1)
      else currentIndex
  | Tab true => Z.rem (currentIndex - 1 + items + 1) (items + 1)
  | Tab false => Z.rem (currentIndex + 1) (items + 1)
  | Enter => currentIndex
  end.

(** What [highlightCurrent] and [selectCurrent] take for the current
    index: the featured section, an item of the grid, or nothing. *)
Inductive target : Type :=
| Featured
| Item (n : nat)
| Nothing.

Definition current (featured : bool) (items : Z) (currentIndex : Z)
    : target :=
  if (currentIndex =? 0) && featured then Featured
  else if (currentIndex >? 0) && (currentIndex - 1 <? items)
  then Item (Z.to_nat (currentIndex - 1))
  else Nothing.

(** ** The front end: the random button

    [fetchGameData] in [main.js], with a catalog the drivers wrote: every
    game is an object whose fields, but for [enable_score] and [controls],
    are strings. *)

Definition visible_game (g : Game.t) : bool := visible (Game.to_json g).

(** [const visibleGames = allGames.filter(...)] *)
Definition visibleGames (allGames : list Game.t) : list Game.t :=
  List.filter visible_game allGames.

(** "Always exclude external games from random selection", with no text
    in the search box. *)
Definition gamesToRandomizeFrom (allGames : list Game.t) : list Game.t :=
  List.filter (fun g => negb (Game.core g =? "external")%string)
    (visibleGames allGames).

(** The number in the text under the button, with no text in the search
    box: [`... (${visibleGames.length} jeux)`]. *)
Definition random_info_count (allGames : list Game.t) : nat :=
  length (visibleGames allGames).

(** ** The front end: the game of the week

    [fetchGameData] reads the id the build wrote to [/api/current-game].
    Texts are UTF-8 here; [trim] removes the white space and the line
    terminators of ECMAScript, which are one to three bytes long. *)

Module Js.

(** Tab, line feed, vertical tab, form feed, carriage return, space. *)
Definition space1 (c : ascii) : bool :=
  Ascii.eqb c "009" || Ascii.eqb c "010" || Ascii.eqb c "011"
  || Ascii.eqb c "012" || Ascii.eqb c "013" || Ascii.eqb c " ".

(** U+00A0. *)
Definition space2 (c1 c2 : ascii) : bool :=
  Ascii.eqb c1 "194" && Ascii.eqb c2 "160".

(** U+1680, U+2000 to U+200A, U+2028, U+2029, U+202F, U+205F, U+3000,
    U+FEFF. *)
Definition space3 (c1 c2 c3 : ascii) : bool :=
  Ascii.eqb c1 "225" && Ascii.eqb c2 "154" && Ascii.eqb c3 "128"
  || Ascii.eqb c1 "226" && Ascii.eqb c2 "128"
     && ((128 <=? nat_of_ascii c3)%nat && (nat_of_ascii c3 <=? 138)%nat
         || Ascii.eqb c3 "168" || Ascii.eqb c3 "169" || Ascii.eqb c3 "175")
  || Ascii.eqb c1 "226" && Ascii.eqb c2 "129" && Ascii.eqb c3 "159"
  || Ascii.eqb c1 "227" && Ascii.eqb c2 "128" && Ascii.eqb c3 "128"
  || Ascii.eqb c1 "239" && Ascii.eqb c2 "187" && Ascii.eqb c3 "191".

(** The text is made of white space only. *)
Fixpoint all_space (s : string) : bool :=
  match s with
  | EmptyString => true
  | String c1 t1 =>
      if space1 c1 then all_space t1
      else
        match t1 with
        | String c2 t2 =>
            if space2 c1 c2 then all_space t2
            else
              match t2 with
              | String c3 t3 =>
                  if space3 c1 c2 c3 then all_space t3 else false
              | EmptyString => false
              end
        | EmptyString => false
        end
  end.

Fixpoint trimStart (s : string) : string :=
  match s with
  | EmptyString => EmptyString
  | String c1 t1 =>
      if space1 c1 then trimStart t1
      else
        match t1 with
        | String c2 t2 =>
            if space2 c1 c2 then trimStart t2
            else
              match t2 with
              | String c3 t3 =>
                  if space3 c1 c2 c3 then trimStart t3 else s
              | EmptyString => s
              end
        | EmptyString => s
        end
  end.

Fixpoint trimEnd (s : string) : string :=
  match s with
  | EmptyString => EmptyString
  | String c t => if all_space s then EmptyString else String c (trimEnd t)
  end.

(** [s.trim()] *)
Definition trim (s : string) : string := trimEnd (trimStart s).

End Js.




(** ** The typing test

    [public/wpm/script.js], the class [WPMTypingTest], without the page it
    draws on and without the words-per-minute figures, which are floating
    point.  A text is the sequence of its UTF-16 code units, as the script
    indexes and compares it. *)

Module Wpm.

Definition text : Type := list N.

(** What [\s] matches and [trim] removes. *)
Definition is_space (u : N) : bool :=
  ((u =? 9) || (u =? 10) || (u =? 11) || (u =? 12) || (u =? 13)
   || (u =? 32) || (u =? 160) || (u =? 5760)
   || ((8192 <=? u) && (u <=? 8202))
   || (u =? 8232) || (u =? 8233) || (u =? 8239) || (u =? 8287)
   || (u =? 12288) || (u =? 65279))%N.

Fixpoint trimStart (s : text) : text :=
  match s with
  | u :: t => if is_space u then trimStart t else s
  | [] => []
  end.

Fixpoint trimEnd (s : text) : text :=
  match s with
  | u :: t => if forallb is_space s then [] else u :: trimEnd t
  | [] => []
  end.

(** [s.trim()] *)
Definition trim (s : text) : text := trimEnd (trimStart s).

(** [s.split(/\s+/)]: the pieces between the runs of white space; a run at
    the start or at the end leaves an empty piece there, and the empty text
    is one empty piece.  [in_space] tells that the unit before was white
    space, [piece] is the piece being read. *)
Fixpoint split_from (in_space : bool) (piece : text) (s : text)
    : list text :=
  match s with
  | [] => [piece]
  | u :: t =>
      if is_space u
      then (if in_space then split_from true [] t
            else piece :: split_from true [] t)
      else split_from false (piece ++ [u]) t
  end.

Definition split (s : text) : list text := split_from false [] s.

(** The number of positions at which both lists have an element and the
    two are the same: the [for (let i = 0; i < Math.min(...); i++)] loops
    of [handleInput] and of [getCorrectWords]. *)
Fixpoint same_at {A : Type} `{EqDecision A} (l1 l2 : list A) : Z :=
  match l1, l2 with
  | x :: l1', y :: l2' => (if decide (x = y) then 1 else 0) + same_at l1' l2'
  | _, _ => 0
  end.

(** The fields of the test the functions below read and write;
    [value] and [disabled] are those of the text box, [timer] tells that
    the interval is set. *)
Record test : Type := {
  currentQuote : text;
  value : text;
  disabled : bool;
  startTime : option Z;
  endTime : option Z;
  isTestActive : bool;
  isTestComplete : bool;
  timer : bool;
  correctCharacters : Z;
  typedCharacters : Z;
  testDuration : Z;
  timeRemaining : Z
}.

Definition startTest (now : Z) (t : test) : test :=
  if isTestActive t then t
  else
    {| currentQuote := currentQuote t; value := value t;
       disabled := false;
       startTime := Some now; endTime := endTime t;
       isTestActive := true; isTestComplete := isTestComplete t;
       timer := true;
       correctCharacters := correctCharacters t;
       typedCharacters := typedCharacters t;
       testDuration := testDuration t;
       timeRemaining := testDuration t |}.

Definition completeTest (now : Z) (t : test) : test :=
  {| currentQuote := currentQuote t; value := value t;
     disabled := true;
     startTime := startTime t; endTime := Some now;
     isTestActive := false; isTestComplete := true;
     timer := false;
     correctCharacters := correctCharacters t;
     typedCharacters := typedCharacters t;
     testDuration := testDuration t;
     timeRemaining := timeRemaining t |}.

(** The [input] event of the text box: the box holds [inputValue] when the
    listener calls [handleInput(e.target.value)]. *)
Definition handleInput (now : Z) (inputValue : text) (t : test) : test :=
  let t :=
    {| currentQuote := currentQuote t; value := inputValue;
       disabled := disabled t;
       startTime := startTime t; endTime := endTime t;
       isTestActive := isTestActive t; isTestComplete := isTestComplete t;
       timer := timer t;
       correctCharacters := correctCharacters t;
       typedCharacters := typedCharacters t;
       testDuration := testDuration t;
       timeRemaining := timeRemaining t |} in
  (* "Auto-start test on first keystroke" *)
  let t :=
    if negb (isTestActive t) && (0 <? Z.of_nat (length inputValue))
    then startTest now t else t in
  if negb (isTestActive t) then t
  else
    let t :=
      {| currentQuote := currentQuote t; value := value t;
         disabled := disabled t;
         startTime := startTime t; endTime := endTime t;
         isTestActive := isTestActive t; isTestComplete := isTestComplete t;
         timer := timer t;
         correctCharacters := same_at inputValue (currentQuote t);
         typedCharacters := Z.of_nat (length inputValue);
         testDuration := testDuration t;
         timeRemaining := timeRemaining t |} in
    (* "Check if test is complete" *)
    if (Z.of_nat (length inputValue) =? Z.of_nat (length (currentQuote t)))
    then completeTest now t
    else t.

(** The classes [renderQuoteWithProgress] gives the characters of the
    quote. *)
Inductive class : Type :=
| untyped
| correct
| incorrect
| current.

(** The class of the characters from index [i] on; [typed] is what the text
    box holds from index [i] on. *)
Fixpoint classes_from (i : Z) (typedCharacters : Z) (typed : text)
    (quote : text) : list class :=
  match quote with
  | [] => []
  | char :: quote' =>
      (if i <? typedCharacters then
         match typed with
         | u :: _ => if decide (u = char) then correct else incorrect
         | [] => incorrect
         end
       else if i =? typedCharacters then current
       else untyped)
      :: classes_from (i + 1) typedCharacters (tail typed) quote'
  end.

Definition renderQuoteWithProgress (t : test) : list class :=
  classes_from 0 (typedCharacters t) (value t) (currentQuote t).

(** [getTypedWords] and [getCorrectWords] *)
Definition getTypedWords (t : test) : Z :=
  Z.of_nat (length (split (trim (value t)))).

Definition getCorrectWords (t : test) : Z :=
  same_at (split (trim (value t))) (split (trim (currentQuote t))).

End Wpm.

(** The number of characters of a class in a rendering. *)
Definition of_class (c : Wpm.class) (classes : list Wpm.class) : Z :=
  Z.of_nat
    (length
       (List.filter
          (fun c' => match c, c' with
                     | Wpm.untyped, Wpm.untyped
                     | Wpm.correct, Wpm.correct
                     | Wpm.incorrect, Wpm.incorrect
                     | Wpm.current, Wpm.current => true
                     | _, _ => false
                     end) classes)).

(** A test that waits for its first keystroke, on the quote "to be". *)
Definition fresh_test : Wpm.test :=
  {| Wpm.currentQuote := [116; 111; 32; 98; 101]%N;
     Wpm.value := [];
     Wpm.disabled := false;
     Wpm.startTime := None; Wpm.endTime := None;
     Wpm.isTestActive := false; Wpm.isTestComplete := false;
     Wpm.timer := false;
     Wpm.correctCharacters := 0; Wpm.typedCharacters := 0;
     Wpm.testDuration := 60; Wpm.timeRemaining := 60 |}.

(** ** The front end: titles

    [normalizeTitleForSorting] of the utilities, on UTF-8 texts.  The
    lowered and trimmed copy of the title is only tested for starting with
    "the ": no character but the letters A to Z is lowered to one of the
    letters of that prefix, so the copy lowers these alone. *)

Fixpoint lowered (s : string) : string :=
  match s with
  | EmptyString => EmptyString
  | String c t => String (Str.lower c) (lowered t)
  end.

(** [s.substring(n)]: the text without its first [n] UTF-16 code units.  A
    character of one, two or three bytes is one code unit, a character of
    four bytes is two; [None] when the cut falls between these two, which
    leaves no UTF-8 text. *)
Fixpoint substring (n : nat) (s : string) : option string :=
  match n with
  | O => Some s
  | S n' =>
      match s with
      | EmptyString => Some EmptyString
      | String c t =>
          let lead := nat_of_ascii c in
          if (lead <? 128)%nat then substring n' t
          else if (lead <? 224)%nat then substring n' (Str.skip 1 t)
          else if (lead <? 240)%nat then substring n' (Str.skip 2 t)
          else
            match n' with
            | O => None
            | S n'' => substring n'' (Str.skip 3 t)
            end
      end
  end.

(** [normalizeTitleForSorting(title)] for a title that is a string. *)
Definition normalizeTitleForSorting (title : string) : option string :=
  if Str.is_empty title then Some ""
  else
    let lowerTitle := Js.trim (lowered title) in
    if Str.starts "the " lowerTitle then
      restOfTitle ← substring 4 title;
      Some (restOfTitle +:+ ", The")
    else Some title.

(** * Properties *)

(** A closed statement about a run is settled by running the model. *)
Ltac by_running := vm_compute; reflexivity.

(** Case analysis on the folder names a mapping compares [system] with, one
    after the other; a match settles the goal. *)
Ltac case_folders system :=
  repeat match goal with
  | |- context [String.eqb system ?k] =>
      destruct (String.eqb system k); cbn; [reflexivity|]
  end;
  reflexivity.

(** ** Strings and captured text *)

Lemma is_empty_false s : Str.is_empty s = false <-> s <> "".
Proof. destruct s; cbn; split; congruence. Qed.

Lemma is_empty_true s : Str.is_empty s = true <-> s = "".
Proof. destruct s; cbn; split; congruence. Qed.

Lemma field1_no_delimiter c d : Str.has_char c d = false -> Str.field1 c d = d.
Proof.
  induction d as [|x d IH]; cbn; [reflexivity|].
  destruct (Ascii.eqb c x); cbn; [discriminate|].
  intros H. rewrite (IH H). reflexivity.
Qed.

Lemma assign_object errexit (get : json -> option string) fields out :
  get (JObj fields) = Some out ->
  assign errexit (get (JObj fields)) = Ok (captured (get (JObj fields))).
Proof. intros ->. reflexivity. Qed.

Lemma captured_omitted k fields :
  Jq.field k fields = JNull ->
  captured (Jq.get_r k (JStr "") (JObj fields)) = "".
Proof. unfold captured, Jq.get_r. cbn. intros ->. reflexivity. Qed.

Lemma extract_object errexit score_default fields v :
  let doc := JObj fields in
  extract errexit score_default doc v =
  Ok {| title := captured (Jq.get_r "title" (JStr "") doc);
        developer := captured (Jq.get_r "developer" (JStr "") doc);
        year := captured (Jq.get_r "year" (JStr "") doc);
        genre := captured (Jq.get_r "genre" (JStr "") doc);
        recommended := captured (Jq.get_r "recommended" (JStr "") doc);
        added := captured (Jq.get_r "added" (JStr "") doc);
        hide := captured (Jq.get_r "hide" (JStr "") doc);
        enable_score :=
          captured (Jq.get_r "enable_score" (JBool score_default) doc);
        to_start := captured (Jq.get_r "to_start" (JStr "") doc);
        problem := captured (Jq.get_r "problem" (JStr "") doc);
        controls_json := captured (Jq.get_c "controls" JNull doc);
        new_flag := captured (Jq.get_r_or_empty "new" doc);
        announcement_message :=
          captured (Jq.get_r "announcement_message" (JStr "") doc) |}.
Proof. reflexivity. Qed.

(** In the per-file subshell of the parallel driver no assignment ends the
    script: the subshell always runs to its end. *)
Lemma extract_ignoring score_default doc v :
  exists v', extract false score_default doc v = Ok v'.
Proof. destruct doc; cbn; eauto. Qed.

Lemma extract_new_flag errexit score_default doc v1 v :
  Jq.e_ok doc = true ->
  extract errexit score_default doc v1 = Ok v ->
  new_flag v = captured (Jq.get_r_or_empty "new" doc).
Proof.
  intros Hok. destruct doc; try discriminate Hok;
    destruct errexit; cbn; intros [= <-]; reflexivity.
Qed.

(** ** The entry builders *)

Lemma jq_n_rom_Some e game_id cover page core rom_path save v g :
  jq_n_rom e game_id cover page core rom_path save v = Some g ->
  Game.id g = game_id /\ Game.hide g = hide v /\ Game.added g = added v
  /\ Game.new_flag g = new_flag v
  /\ Game.core g = or_default core "null"
  /\ Game.announcement_message g = announcement_message v
  /\ Game.external g = None.
Proof.
  unfold jq_n_rom. intros H.
  destruct (jq_text e (enable_score v)) as [score|]; [|discriminate].
  destruct (jq_text e (controls_json v)) as [ctrl|]; [|discriminate].
  cbn in H. injection H as <-. cbn. repeat split; reflexivity.
Qed.

Lemma jq_n_rom_is_Some e game_id cover page core rom_path save v :
  is_Some (jq_n_rom e game_id cover page core rom_path save v) <->
  is_Some (jq_text e (enable_score v)) /\ is_Some (jq_text e (controls_json v)).
Proof.
  unfold jq_n_rom. rewrite !is_Some_alt.
  destruct (jq_text e (enable_score v)) as [score|];
    destruct (jq_text e (controls_json v)) as [ctrl|]; cbn; tauto.
Qed.

Lemma jq_n_external_is_Some e game_id cover page core x v :
  is_Some (jq_n_external e game_id cover page core x v) <->
  is_Some (jq_text e (enable_score v)) /\ is_Some (jq_text e (controls_json v)).
Proof.
  unfold jq_n_external. rewrite !is_Some_alt.
  destruct (jq_text e (enable_score v)) as [score|];
    destruct (jq_text e (controls_json v)) as [ctrl|]; cbn; tauto.
Qed.

Lemma visible_to_json g :
  visible (Game.to_json g) = negb (Game.hide g =? "yes")%string.
Proof. reflexivity. Qed.

(** ** The prediction overlay *)

Lemma overlay_not_shown result v :
  Str.starts "SHOW_GAME" result = false -> overlay result v = v.
Proof. unfold overlay. intros ->. reflexivity. Qed.

Lemma overlay_shown_hide result v :
  Str.starts "SHOW_GAME" result = true -> hide (overlay result v) = "no".
Proof.
  unfold overlay. intros ->.
  destruct (Str.contains "|" result); [|reflexivity].
  destruct (negb _); reflexivity.
Qed.

(** A result that carries a date: [SHOW_GAME|date]. *)
Lemma overlay_shown_added d v :
  d <> "" -> Str.has_char "|" d = false ->
  added (overlay ("SHOW_GAME|" +:+ d) v) = d.
Proof.
  intros Hd Hbar.
  change ("SHOW_GAME|" +:+ d)
    with (String "S" (String "H" (String "O" (String "W" (String "_"
           (String "G" (String "A" (String "M" (String "E"
              (String "|" d)))))))))).
  unfold overlay, Str.field2. cbn.
  rewrite (field1_no_delimiter _ _ Hbar).
  destruct d; [contradiction|]. reflexivity.
Qed.

Lemma overlay_idempotent result v :
  overlay result (overlay result v) = overlay result v.
Proof.
  unfold overlay. destruct (Str.starts _ _); [|reflexivity].
  destruct (Str.contains _ _); [|reflexivity].
  destruct (negb _); reflexivity.
Qed.

Lemma overlay_new_flag result v : new_flag (overlay result v) = new_flag v.
Proof.
  unfold overlay. destruct (Str.starts _ _); [|reflexivity].
  destruct (Str.contains _ _); [|reflexivity].
  destruct (negb _); reflexivity.
Qed.

Lemma seq_overlay_again_new_flag e game_id f v :
  new_flag (seq_overlay_again e game_id f v) = new_flag v.
Proof.
  unfold seq_overlay_again. destruct (_ && _); [reflexivity|].
  destruct (negb _); [apply overlay_new_flag|reflexivity].
Qed.

Lemma par_overlay_again_new_flag e game_id f v :
  new_flag (par_overlay_again e game_id f v) = new_flag v.
Proof.
  unfold par_overlay_again. destruct (_ && _); [reflexivity|].
  destruct (negb _); [apply overlay_new_flag|reflexivity].
Qed.

(** ** The recency test *)

Lemma is_new_by_date_true errexit e a n :
  is_new_by_date errexit e a = Ok n ->
  (n = "true" <-> recent e a) /\ (n = "true" \/ n = "").
Proof.
  unfold is_new_by_date, recent.
  destruct a as [|c a'] eqn:Ha; cbn [Str.is_empty negb andb].
  { intros [= <-]. split; [|auto]. split; [discriminate|]. tauto. }
  rewrite <- Ha.
  destruct (String.eqb_spec a "DATE_PLACEHOLDER") as [Hp|Hp]; cbn [negb].
  { intros [= <-]. split; [|auto]. split; [discriminate|]. tauto. }
  destruct (date_epoch e a) as [t|] eqn:Ht.
  - destruct (Z.ltb_spec (diff_days (now_epoch e) t) 7) as [Hlt|Hge];
      intros [= <-]; (split; [|auto]).
    + split; [intros _|reflexivity].
      repeat split; [congruence|exact Hp|]. exists t. auto.
    + split; [discriminate|]. intros (_ & _ & t' & [= <-] & Hlt). lia.
  - destruct errexit; [discriminate|]. intros [= <-]. split; [|auto].
    split; [discriminate|]. intros (_ & _ & t' & [=] & _).
Qed.

Lemma is_new_by_date_ok errexit e a :
  a = "" \/ a = "DATE_PLACEHOLDER" \/ is_Some (date_epoch e a) ->
  exists n, is_new_by_date errexit e a = Ok n.
Proof.
  unfold is_new_by_date. intros [->|[->|[t Ht]]].
  - eexists. reflexivity.
  - eexists. reflexivity.
  - rewrite Ht. destruct (_ && _); eexists; reflexivity.
Qed.

Lemma is_new_by_date_ignoring e a :
  exists n, is_new_by_date false e a = Ok n.
Proof.
  unfold is_new_by_date.
  destruct (_ && _); [destruct (date_epoch e a)|]; eauto.
Qed.

Lemma final_new_flag_true x n :
  (final_new_flag x n = "true" <-> x = "true" \/ n = "true")
  /\ (final_new_flag x n = "true" \/ final_new_flag x n = "").
Proof.
  unfold final_new_flag.
  destruct (String.eqb_spec x "true"), (String.eqb_spec n "true"); cbn;
    (split; [|auto]); split; auto; try discriminate; tauto.
Qed.

(** ** Inversion of the per-entry bodies *)

Lemma seq_rom_inv e v0 rom_entry v og :
  seq_rom e v0 rom_entry = Ok (v, og) ->
  let rom_subdir := (split_entry rom_entry).1 in
  let rom_filename := (split_entry rom_entry).2 in
  let game_id := game_id_of rom_filename in
  let game_dir := rom_game_dir game_id in
  let f := metadata_yaml e (rom_metadata_file game_id) in
  (rom_subdir = "bios" /\ v = v0 /\ og = None) \/
  (rom_subdir <> "bios" /\
   exists v2 is_new,
     seq_metadata e f (rom_defaults game_id v0) = Ok v2 /\
     let v3 := seq_overlay_again e game_id f v2 in
     is_new_by_date true e (added v3) = Ok is_new /\
     v = set_new_flag (final_new_flag (new_flag v3) is_new) v3 /\
     og = jq_n_rom e game_id
            (cover_art e (game_dir +:+ "cover.png") game_id)
            (LAUNCHER_PAGE +:+ "?game=" +:+ game_id)
            (get_core_from_dir rom_subdir)
            (rom_path_of e rom_subdir rom_filename)
            (save_state_of e (game_dir +:+ "save.state") game_id) v).
Proof.
  unfold seq_rom. destruct (split_entry rom_entry) as [sub fn]. cbn [fst snd].
  destruct (String.eqb_spec sub "bios") as [->|Hne].
  - intros [= <- <-]. left. auto.
  - intros H. right. split; [exact Hne|].
    destruct (seq_metadata e _ _) as [v2|] eqn:Hm;
      [|discriminate].
    cbn [sh_bind] in H.
    destruct (is_new_by_date true e _) as [is_new|] eqn:Hd; [|discriminate].
    cbn [sh_bind] in H. injection H as <- <-.
    exists v2, is_new. cbn zeta. repeat split; assumption.
Qed.

Lemma par_rom_inv e rom_entry path g :
  par_rom e rom_entry = Some (path, g) ->
  let rom_subdir := (split_entry rom_entry).1 in
  let rom_filename := (split_entry rom_entry).2 in
  let game_id := game_id_of rom_filename in
  let game_dir := rom_game_dir game_id in
  let f := metadata_yaml e (rom_metadata_file game_id) in
  Ere.grep re_reserved_name true rom_filename = false /\
  Ere.grep re_helper_ext true rom_filename = false /\
  rom_subdir <> "bios" /\
  path = game_file (TEMP_DIR e) game_id /\
  exists v2 is_new,
    par_metadata e game_id f (rom_defaults game_id unset_vars) = Ok v2 /\
    let v3 := par_overlay_again e game_id f v2 in
    is_new_by_date false e (added v3) = Ok is_new /\
    let v := set_new_flag (final_new_flag (new_flag v3) is_new) v3 in
    jq_n_rom e game_id
      (cover_art e (game_dir +:+ "cover.png") game_id)
      (LAUNCHER_PAGE +:+ "?game=" +:+ game_id)
      (get_core_from_dir rom_subdir)
      (rom_path_of e rom_subdir rom_filename)
      (save_state_of e (game_dir +:+ "save.state") game_id) v = Some g.
Proof.
  unfold par_rom, par_rom_sh.
  destruct (split_entry rom_entry) as [sub fn]. cbn [fst snd].
  destruct (Ere.grep re_reserved_name true fn); [discriminate|].
  destruct (Ere.grep re_helper_ext true fn); [discriminate|].
  destruct (String.eqb_spec sub "bios") as [->|Hne]; [discriminate|].
  destruct (par_metadata e (game_id_of fn) _ _) as [v2|] eqn:Hm;
    [|discriminate].
  cbn [sh_bind].
  destruct (is_new_by_date false e _) as [is_new|] eqn:Hd; [|discriminate].
  cbn [sh_bind].
  match goal with |- context [jq_n_rom ?a ?b ?c ?d ?x ?y ?z ?w] =>
    destruct (jq_n_rom a b c d x y z w) as [g'|] eqn:Hj end;
    [|discriminate].
  cbn. intros [= <- <-].
  repeat split; try assumption.
  exists v2, is_new. cbn zeta. auto.
Qed.

Lemma par_rom_sh_ok e rom_entry : exists w, par_rom_sh e rom_entry = Ok w.
Proof.
  unfold par_rom_sh. destruct (split_entry rom_entry) as [sub fn].
  destruct (Ere.grep re_reserved_name true fn); [eauto|].
  destruct (Ere.grep re_helper_ext true fn); [eauto|].
  destruct (sub =? "bios")%string; [eauto|].
  assert (Hm : exists v2,
            par_metadata e (game_id_of fn)
              (metadata_yaml e (rom_metadata_file (game_id_of fn)))
              (rom_defaults (game_id_of fn) unset_vars) = Ok v2).
  { unfold par_metadata.
    destruct (metadata_yaml e _) as [| |doc]; eauto.
    destruct (Jq.e_ok doc); eauto.
    destruct (extract_ignoring true doc
                (rom_defaults (game_id_of fn) unset_vars)) as [v ->].
    cbn [sh_bind]. eauto. }
  destruct Hm as [v2 ->]. cbn [sh_bind].
  match goal with |- context [is_new_by_date false e ?a] =>
    destruct (is_new_by_date_ignoring e a) as [n ->] end.
  cbn [sh_bind]. eauto.
Qed.

(** ** The specification scenarios *)

(** Scenarios A to D of the specification, in the sequential driver. *)
Example scenario_a :
  (map (fun g => (Game.id g, Game.core g, Game.hide g, Game.title g,
                  Game.coverArt g))
     <$> gamelist (generate_gamelist_sequential bare_world))
  = Some [("Mario", "nes", "yes", "Mario",
           "/assets/images/placeholder_thumb.png")].
Proof. by_running. Qed.

Example scenario_b_c :
  let e added :=
    world (ManifestPath ["SNES/Zelda.sfc"])
      (metadata_for "Zelda"
         (YqPrints (JObj [("title", JStr "Zelda"); ("added", JStr added);
                          ("hide", JStr "no")]))
         no_metadata)
      [] no_predictions [] in
  (map (fun g => (Game.new_flag g, Game.hide g))
     <$> gamelist (generate_gamelist_sequential (e "2025-01-24")))
  = Some [("", "no")]
  /\ (map (fun g => (Game.new_flag g, Game.hide g))
        <$> gamelist (generate_gamelist_sequential (e "2025-01-29")))
     = Some [("true", "no")].
Proof. split; by_running. Qed.

Example scenario_d :
  let e :=
    world (ManifestPath ["NES/mario.nes"])
      (metadata_for "mario"
         (YqPrints (JObj [("hide", JStr "yes"); ("added", JStr "2024-01-01")]))
         no_metadata)
      [] (predicted "mario" "SHOW_GAME|2025-01-27") [] in
  (map (fun g => (Game.hide g, Game.added g))
     <$> gamelist (generate_gamelist_parallel e))
  = Some [("no", "2025-01-27")].
Proof. by_running. Qed.

Example scenario_e :
  (map (fun g => (Game.id g, Game.core g, Game.pageUrl g))
     <$> gamelist (generate_gamelist_sequential scenario_e_world))
  = Some [("external-arcade1up", "external", "https://x")].
Proof. by_running. Qed.

(** ** The array file and the catalog *)

(** The size test that follows the validation of the array can never fail:
    the file holds the closing bracket at least. *)
Lemma size_nonzero_closed file : size_nonzero (file ++ [RBracket]) = true.
Proof. destruct file; reflexivity. Qed.

Lemma close_and_check_array file :
  close_and_check file = jq_array (file ++ [RBracket]).
Proof.
  unfold close_and_check. rewrite size_nonzero_closed.
  destruct (jq_array _); reflexivity.
Qed.

Lemma objects_snoc games g :
  objects (games ++ [g])
  = objects games ++ (if no_game games then [] else [Comma]) ++ [Object g].
Proof.
  induction games as [|g0 [|g1 gs] IH]; try reflexivity.
  change (objects ((g0 :: g1 :: gs) ++ [g]))
    with (Object g0 :: Comma :: objects ((g1 :: gs) ++ [g])).
  rewrite IH. reflexivity.
Qed.

Lemma holds_append first_game file games g :
  holds first_game file games ->
  holds false (append_game first_game file g) (games ++ [g]).
Proof.
  intros [-> ->]. split.
  - unfold append_game. rewrite objects_snoc. reflexivity.
  - destruct games; reflexivity.
Qed.

Lemma jq_items_objects acc games :
  jq_items acc
    ((if no_game games then [] else Comma :: objects games) ++ [RBracket])
  = Some (acc ++ games).
Proof.
  revert acc. induction games as [|g gs IH]; intros acc.
  - cbn. rewrite app_nil_r. reflexivity.
  - specialize (IH (acc ++ [g])). destruct gs as [|g' gs].
    + cbn in *. rewrite <- app_assoc in IH. exact IH.
    + cbn [no_game objects app jq_items] in *.
      rewrite IH, <- app_assoc. reflexivity.
Qed.

(** The array the drivers close always validates, and holds the games that
    were appended. *)
Lemma close_and_check_holds first_game file games :
  holds first_game file games -> close_and_check file = Some games.
Proof.
  intros [-> _]. rewrite close_and_check_array.
  destruct games as [|g gs]; [reflexivity|].
  cbn [objects]. destruct gs as [|g' gs]; [reflexivity|].
  cbn [app jq_array].
  exact (jq_items_objects [g] (g' :: gs)).
Qed.

(** ** The entries of a catalog

    Every game of a written catalog was built by the body of one of the
    loops, so what is proved of the entries the bodies build holds of the
    entries of the catalogs. *)

Lemma external_loop_holds e dirs :
  forall first_game file games first_game' file',
    holds first_game file games ->
    external_loop e dirs first_game file = Ok (first_game', file') ->
    exists built,
      holds first_game' file' (games ++ built)
      /\ Forall (fun g => exists game_dir,
                   In game_dir dirs /\ external_game e game_dir = Ok (Some g))
           built.
Proof.
  induction dirs as [|game_dir rest IH];
    intros first_game file games first_game' file' Hholds Hrun.
  - injection Hrun as <- <-. exists []. rewrite app_nil_r. split; [exact Hholds|constructor].
  - cbn [external_loop sh_bind] in Hrun.
    destruct (external_game e game_dir) as [[g|]|] eqn:Hgame;
      cbn [sh_bind] in Hrun; [| |discriminate Hrun].
    + apply (IH _ _ (games ++ [g])) in Hrun;
        [|apply holds_append; exact Hholds].
      destruct Hrun as (built & Hholds' & Hbuilt).
      exists (g :: built). rewrite <- app_assoc in Hholds'. split; [exact Hholds'|].
      constructor.
      * exists game_dir. split; [left; reflexivity|exact Hgame].
      * eapply Forall_impl; [exact Hbuilt|].
        intros g' (d & Hd & Hg'). exists d. split; [right; exact Hd|exact Hg'].
    + apply (IH _ _ games) in Hrun; [|exact Hholds].
      destruct Hrun as (built & Hholds' & Hbuilt).
      exists built. split; [exact Hholds'|].
      eapply Forall_impl; [exact Hbuilt|].
      intros g' (d & Hd & Hg'). exists d. split; [right; exact Hd|exact Hg'].
Qed.

Lemma seq_rom_loop_holds e lines :
  forall v first_game file games v' first_game' file',
    holds first_game file games ->
    seq_rom_loop e lines v first_game file = Ok (v', first_game', file') ->
    exists built,
      holds first_game' file' (games ++ built)
      /\ Forall (fun g => exists v0 rom_entry,
                   In rom_entry lines /\ seq_builds e v0 rom_entry g)
           built.
Proof.
  induction lines as [|rom_entry rest IH];
    intros v first_game file games v' first_game' file' Hholds Hrun.
  - injection Hrun as <- <- <-. exists []. rewrite app_nil_r.
    split; [exact Hholds|constructor].
  - assert (Hrest : forall built,
              Forall (fun g => exists v0 rom_entry0,
                        In rom_entry0 rest /\ seq_builds e v0 rom_entry0 g)
                built ->
              Forall (fun g => exists v0 rom_entry0,
                        In rom_entry0 (rom_entry :: rest)
                        /\ seq_builds e v0 rom_entry0 g)
                built).
    { intros built Hbuilt. eapply Forall_impl; [exact Hbuilt|].
      intros g' (v0 & l & Hl & Hg'). exists v0, l.
      split; [right; exact Hl|exact Hg']. }
    cbn [seq_rom_loop] in Hrun.
    destruct (Str.is_empty rom_entry).
    { apply (IH _ _ _ games) in Hrun; [|exact Hholds].
      destruct Hrun as (built & Hholds' & Hbuilt).
      exists built. split; [exact Hholds'|apply Hrest; exact Hbuilt]. }
    destruct (seq_rom e v rom_entry) as [[v1 [g|]]|] eqn:Hrom;
      cbn [sh_bind] in Hrun; [| |discriminate Hrun].
    + apply (IH _ _ _ (games ++ [g])) in Hrun;
        [|apply holds_append; exact Hholds].
      destruct Hrun as (built & Hholds' & Hbuilt).
      exists (g :: built). rewrite <- app_assoc in Hholds'.
      split; [exact Hholds'|]. constructor.
      * exists v, rom_entry. split; [left; reflexivity|].
        exists v1. exact Hrom.
      * apply Hrest. exact Hbuilt.
    + apply (IH _ _ _ games) in Hrun; [|exact Hholds].
      destruct Hrun as (built & Hholds' & Hbuilt).
      exists built. split; [exact Hholds'|apply Hrest; exact Hbuilt].
Qed.

Lemma merge_loop_holds (dir : tempdir) game_files :
  forall first_game file games first_game' file',
    holds first_game file games ->
    merge_loop dir game_files first_game file = (first_game', file') ->
    exists built,
      holds first_game' file' (games ++ built)
      /\ Forall (fun g => exists game_file, dir !! game_file = Some g) built.
Proof.
  induction game_files as [|game_file rest IH];
    intros first_game file games first_game' file' Hholds Hrun.
  - injection Hrun as <- <-. exists []. rewrite app_nil_r.
    split; [exact Hholds|constructor].
  - cbn [merge_loop] in Hrun.
    destruct (dir !! game_file) as [g|] eqn:Hfile.
    + apply (IH _ _ (games ++ [g])) in Hrun;
        [|apply holds_append; exact Hholds].
      destruct Hrun as (built & Hholds' & Hbuilt).
      exists (g :: built). rewrite <- app_assoc in Hholds'.
      split; [exact Hholds'|]. constructor; [|exact Hbuilt].
      exists game_file. exact Hfile.
    + apply (IH _ _ games) in Hrun; [|exact Hholds]. exact Hrun.
Qed.

(** What the workers leave in the temporary directory. *)
Section Workers.

Variable e : env.
Variable rom_files : list string.

Lemma worker_step_written rom_entry dir :
  In rom_entry rom_files -> all_written e rom_files dir ->
  all_written e rom_files (worker_step e rom_entry dir).
Proof.
  intros Hin Hdir. unfold worker_step.
  destruct (Str.is_empty rom_entry); [exact Hdir|].
  destruct (par_rom e rom_entry) as [[path g]|] eqn:Hrom; [|exact Hdir].
  intros game_file g' Hlookup.
  destruct (decide (path = game_file)) as [->|Hne].
  - rewrite lookup_insert_eq in Hlookup. injection Hlookup as <-.
    exists rom_entry. split; [exact Hin|]. exists game_file. exact Hrom.
  - rewrite lookup_insert_ne in Hlookup by exact Hne.
    exact (Hdir _ _ Hlookup).
Qed.

Lemma batch_written batch :
  forall dir,
    Forall (fun l => In l rom_files) batch -> all_written e rom_files dir ->
    all_written e rom_files
      (foldl (fun d' l => worker_step e l d') dir batch).
Proof.
  induction batch as [|l rest IH]; intros dir Hbatch Hdir; [exact Hdir|].
  inversion Hbatch as [|? ? Hl Hrest]; subst.
  cbn [foldl]. apply IH; [exact Hrest|].
  apply worker_step_written; [exact Hl|exact Hdir].
Qed.

Lemma batches_written batches :
  forall dir,
    from_rom_files rom_files batches -> all_written e rom_files dir ->
    all_written e rom_files
      (foldl (fun d batch => foldl (fun d' l => worker_step e l d') d batch)
         dir batches).
Proof.
  induction batches as [|batch rest IH]; intros dir Hbatches Hdir;
    [exact Hdir|].
  unfold from_rom_files in Hbatches.
  inversion Hbatches as [|? ? Hbatch Hrest]; subst.
  cbn [foldl]. apply IH; [exact Hrest|].
  apply batch_written; [exact Hbatch|exact Hdir].
Qed.

Lemma run_workers_written sched :
  forall batches dir,
    from_rom_files rom_files batches -> all_written e rom_files dir ->
    all_written e rom_files (run_workers e sched batches dir).
Proof.
  induction sched as [|w sched' IH]; intros batches dir Hbatches Hdir.
  - apply batches_written; [exact Hbatches|exact Hdir].
  - cbn [run_workers].
    destruct (batches !! w) as [[|rom_entry rest]|] eqn:Hw;
      try (apply IH; [exact Hbatches|exact Hdir]).
    pose proof (proj1 (Forall_lookup _ _) Hbatches _ _ Hw) as Hbatch.
    inversion Hbatch as [|? ? Hl Hrest]; subst.
    apply IH.
    + apply Forall_insert; [exact Hbatches|exact Hrest].
    + apply worker_step_written; [exact Hl|exact Hdir].
Qed.

Lemma distribute_from_rom_files num_workers lines :
  forall batch_num batches,
    Forall (fun l => In l rom_files) lines ->
    from_rom_files rom_files batches ->
    from_rom_files rom_files (distribute num_workers lines batch_num batches).
Proof.
  induction lines as [|l rest IH]; intros batch_num batches Hlines Hbatches;
    [exact Hbatches|].
  inversion Hlines as [|? ? Hl Hrest]; subst.
  cbn [distribute]. apply IH; [exact Hrest|].
  apply Forall_alter; [exact Hbatches|].
  intros batch _ Hbatch.
  apply Forall_app_2; [exact Hbatch|].
  constructor; [exact Hl|constructor].
Qed.

Lemma workers_written :
  all_written e rom_files (run_workers e (schedule e) (par_batches e rom_files) ∅).
Proof.
  apply run_workers_written.
  - unfold par_batches. apply distribute_from_rom_files.
    + apply List.Forall_forall. intros l Hl. exact Hl.
    + apply Forall_replicate. constructor.
  - intros game_file g Hlookup. rewrite lookup_empty in Hlookup.
    discriminate Hlookup.
Qed.

End Workers.

(** Every game of the catalog the sequential driver writes was built by
    the body of its ROM loop or of its external loop. *)
Theorem sequential_catalog_entries e games :
  gamelist (generate_gamelist_sequential e) = Some games ->
  Forall (fun g => seq_entry e g \/ external_entry e g) games.
Proof.
  unfold generate_gamelist_sequential.
  destruct (negb (have_tools e)); [discriminate|].
  destruct (seq_rom_files e) as [rom_files|] eqn:Hfiles; [|discriminate].
  destruct (seq_rom_loop e rom_files unset_vars true [LBracket])
    as [[[v first_game] file]|] eqn:Hroms; [|discriminate].
  destruct (external_loop e (external_dirs e) first_game file)
    as [[first_game' file']|] eqn:Hext; [|discriminate].
  apply (seq_rom_loop_holds _ _ _ _ _ []) in Hroms; [|split; reflexivity].
  destruct Hroms as (roms & Hholds & Hroms).
  apply (external_loop_holds _ _ _ _ _ _ _ Hholds) in Hext.
  destruct Hext as (exts & Hholds' & Hexts).
  rewrite (close_and_check_holds _ _ _ Hholds').
  intros Hgames.
  assert (games = roms ++ exts) as ->.
  { destruct (get_current_week_game_id e);
      [destruct (external_loop e _ _ _)|]; cbn in Hgames; congruence. }
  apply Forall_app_2.
  - eapply Forall_impl; [exact Hroms|].
    intros g (v0 & rom_entry & Hin & Hg). left.
    exists rom_files, v0, rom_entry. auto.
  - eapply Forall_impl; [exact Hexts|].
    intros g Hg. right. exact Hg.
Qed.

(** Every game of the catalog the parallel driver writes was written by a
    worker or built by the body of the external loop. *)
Theorem parallel_catalog_entries e games :
  gamelist (generate_gamelist_parallel e) = Some games ->
  Forall (fun g => par_entry e g \/ external_entry e g) games.
Proof.
  unfold generate_gamelist_parallel.
  destruct (negb (have_tools e)); [discriminate|].
  destruct (par_rom_files e) as [rom_files|] eqn:Hfiles; [|discriminate].
  pose proof (workers_written e rom_files) as Hdir.
  set (dir := run_workers e (schedule e) (par_batches e rom_files) ∅) in *.
  unfold par_assemble.
  destruct (merge_loop dir (Str.words (GAME_FILES dir)) true [LBracket])
    as [first_game file] eqn:Hmerge.
  destruct (external_loop e (external_dirs e) first_game file)
    as [[first_game' file']|] eqn:Hext; [|discriminate].
  apply (merge_loop_holds _ _ _ _ []) in Hmerge; [|split; reflexivity].
  destruct Hmerge as (roms & Hholds & Hroms).
  apply (external_loop_holds _ _ _ _ _ _ _ Hholds) in Hext.
  destruct Hext as (exts & Hholds' & Hexts).
  rewrite (close_and_check_holds _ _ _ Hholds').
  intros Hgames.
  assert (games = roms ++ exts) as ->.
  { destruct (get_current_week_game_id e); cbn in Hgames; congruence. }
  apply Forall_app_2.
  - eapply Forall_impl; [exact Hroms|].
    intros g (game_file & Hg). left.
    destruct (Hdir _ _ Hg) as (rom_entry & Hin & Hbuilt).
    exists rom_files, rom_entry. auto.
  - eapply Forall_impl; [exact Hexts|].
    intros g Hg. right. exact Hg.
Qed.

(** ** C1: the empty catalog *)

(** C1 at the failing input: with nothing to list, both drivers write a
    catalog without entries and end with status zero. *)
Theorem C1_empty_catalog_exits_zero :
  generate_gamelist_sequential empty_world
  = {| exit_zero := true; gamelist := Some [];
       current_game := Some "mario" |}
  /\ generate_gamelist_parallel empty_world
     = {| exit_zero := true; gamelist := Some [];
          current_game := Some "mario" |}.
Proof. split; by_running. Qed.

(** ** C2: the two drivers side by side *)

(** C2 at the failing input: the sequential driver lists the README, the
    parallel driver does not, so the two catalogs do not hold the same
    ids. *)
Theorem C2_drivers_differ :
  ids (generate_gamelist_sequential readme_world) = Some ["Mario"; "README"]
  /\ ids (generate_gamelist_parallel readme_world) = Some ["Mario"]
  /\ ~ (forall id, In id ["Mario"; "README"] <-> In id ["Mario"]).
Proof.
  split; [by_running|]. split; [by_running|].
  intros H. destruct (proj1 (H "README")) as [[=]|[]]. right. left.
  reflexivity.
Qed.

(** ** C3: the manifest filters *)

(** The extension filter asks for a backslash before the extension. *)
Example helper_ext_filter :
  Ere.grep re_helper_ext true "NES/notes.txt" = false
  /\ Ere.grep re_helper_ext true "NES/notes.md" = false
  /\ Ere.grep re_helper_ext true "NES/notes\.txt" = true.
Proof. vm_compute. auto. Qed.

(** What the filters on [bios] let through and what they stop. *)
Example bios_filters :
  let e := world (ManifestPath ["bios/a.bin"; "NES/bios/b.bin"; "NES/bios"])
             no_metadata [] no_predictions [] in
  ids (generate_gamelist_sequential e) = Some ["bios"]
  /\ ids (generate_gamelist_parallel e) = Some ["bios"].
Proof. split; by_running. Qed.

(** C3 at the failing input: a manifest line with a denylisted extension
    becomes an entry of the catalog, in both drivers. *)
Theorem C3_helper_extension_listed :
  ids (generate_gamelist_sequential notes_world) = Some ["notes"]
  /\ ids (generate_gamelist_parallel notes_world) = Some ["notes"].
Proof. split; by_running. Qed.

(** ** C4: recency *)

Lemma seq_metadata_new_flag e f v1 v2 :
  seq_metadata e f v1 = Ok v2 -> new_flag v2 = new_override f.
Proof.
  unfold seq_metadata, new_override.
  destruct f as [| |doc]; try (intros [= <-]; reflexivity).
  destruct (Jq.e_ok doc) eqn:Hok; [|intros [= <-]; reflexivity].
  destruct (extract true true doc v1) as [v|] eqn:Hx; [|discriminate].
  cbn [sh_bind]. intros [= <-].
  destruct (negb _); rewrite ?overlay_new_flag;
    eapply extract_new_flag; eauto.
Qed.

Lemma par_metadata_new_flag e game_id f v1 v2 :
  par_metadata e game_id f v1 = Ok v2 -> new_flag v2 = new_override f.
Proof.
  unfold par_metadata, new_override.
  destruct f as [| |doc]; try (intros [= <-]; reflexivity).
  destruct (Jq.e_ok doc) eqn:Hok; [|intros [= <-]; reflexivity].
  destruct (extract false true doc v1) as [v|] eqn:Hx; [|discriminate].
  cbn [sh_bind]. intros [= <-].
  destruct (negb _); rewrite ?overlay_new_flag;
    eapply extract_new_flag; eauto.
Qed.

(** The recency law, for every ROM entry either driver builds: the new flag
    is "true" exactly when the override is the text "true" or the added date
    of the entry is recent, and it is empty otherwise. *)
Lemma recency_law e v0 rom_entry g :
  seq_builds e v0 rom_entry g \/ par_builds e rom_entry g ->
  let f := metadata_yaml e
             (rom_metadata_file (game_id_of (split_entry rom_entry).2)) in
  (Game.new_flag g = "true"
   <-> new_override f = "true" \/ recent e (Game.added g))
  /\ (Game.new_flag g = "true" \/ Game.new_flag g = "").
Proof.
  intros [[v H]|[path H]] f; unfold f; clear f.
  - apply seq_rom_inv in H. cbn zeta in H.
    destruct H as [(_ & _ & [=])|(_ & v2 & n & Hm & Hd & -> & Hg)].
    symmetry in Hg. apply jq_n_rom_Some in Hg as (_ & _ & -> & -> & _).
    cbn [new_flag added set_new_flag].
    apply is_new_by_date_true in Hd as [Hd _].
    rewrite seq_overlay_again_new_flag, (seq_metadata_new_flag _ _ _ _ Hm).
    rewrite <- Hd.
    apply final_new_flag_true.
  - apply par_rom_inv in H. cbn zeta in H.
    destruct H as (_ & _ & _ & _ & v2 & n & Hm & Hd & Hg).
    apply jq_n_rom_Some in Hg as (_ & _ & -> & -> & _).
    cbn [new_flag added set_new_flag].
    apply is_new_by_date_true in Hd as [Hd _].
    rewrite par_overlay_again_new_flag, (par_metadata_new_flag _ _ _ _ _ Hm).
    rewrite <- Hd.
    apply final_new_flag_true.
Qed.

(** The recency law for the entries of external games. *)
Lemma external_recency_law e game_dir g :
  external_game e game_dir = Ok (Some g) ->
  let f := metadata_yaml e (external_metadata_file game_dir) in
  (Game.new_flag g = "true"
   <-> new_override f = "true" \/ recent e (Game.added g))
  /\ (Game.new_flag g = "true" \/ Game.new_flag g = "").
Proof.
  unfold external_game. destruct (is_dir e game_dir); [|discriminate].
  cbn [negb].
  destruct (metadata_yaml e (external_metadata_file game_dir)) as [| |doc];
    try discriminate.
  cbn zeta. unfold new_override.
  destruct (Jq.e_ok doc) eqn:Hok; [|discriminate].
  destruct doc as [|b|n|s|items|fields]; try discriminate.
  rewrite !(assign_object true (Jq.get_r _ _) fields _ eq_refl).
  rewrite extract_object. cbn [sh_bind]. cbn [hide title added new_flag].
  destruct (negb _); [discriminate|].
  destruct (_ || _); [discriminate|].
  destruct (is_new_by_date true e _) as [is_new|] eqn:Hd; [|discriminate].
  cbn [sh_bind]. unfold jq_n_external.
  cbn [enable_score controls_json set_new_flag].
  destruct (jq_text e (captured (Jq.get_r "enable_score" _ _)))
    as [score|]; [|cbn; discriminate].
  destruct (jq_text e (captured (Jq.get_c "controls" _ _)))
    as [ctrl|]; [|cbn; discriminate].
  cbn [mbind option_bind]. intros [= <-].
  cbn [Game.new_flag Game.added new_flag added set_new_flag].
  apply is_new_by_date_true in Hd as [Hd _]. rewrite <- Hd.
  apply final_new_flag_true.
Qed.

(** C4 at the failing input: the sequential driver ends at the assignment of
    [added_epoch], with a status that is not zero and without a catalog; the
    parallel driver builds the entry, not new. *)
Theorem C4_unreadable_date_aborts_sequential :
  date_epoch unreadable_date_world "soon" = None
  /\ generate_gamelist_sequential unreadable_date_world = failed
  /\ (map (fun g => (Game.id g, Game.added g, Game.new_flag g))
        <$> gamelist (generate_gamelist_parallel unreadable_date_world))
     = Some [("Mario", "soon", "")].
Proof. repeat split; by_running. Qed.

(** ** C5: prediction precedence *)

(** In the parallel driver the overlay is applied to every entry with an
    id, whatever its metadata. *)
Lemma par_overlay_applied e game_id f v1 v2 :
  game_id <> "" -> title v1 = game_id ->
  par_metadata e game_id f v1 = Ok v2 ->
  exists v,
    par_overlay_again e game_id f v2 = overlay (prediction_result e game_id) v.
Proof.
  intros Hid Ht. apply is_empty_false in Hid.
  unfold par_metadata, par_overlay_again. rewrite Hid. cbn [negb].
  destruct f as [| |doc].
  - intros [= <-]. eexists. reflexivity.
  - intros [= <-]. cbn [has_metadata_file andb title set_new_flag].
    rewrite Ht, String.eqb_refl, andb_false_r. eexists. reflexivity.
  - destruct (Jq.e_ok doc).
    + destruct (extract false true doc v1) as [v|]; [|discriminate].
      cbn [sh_bind]. intros [= <-].
      destruct (_ && _); [|rewrite overlay_idempotent]; eexists; reflexivity.
    + intros [= <-]. cbn [has_metadata_file andb title set_new_flag].
      rewrite Ht, String.eqb_refl, andb_false_r. eexists. reflexivity.
Qed.

(** What C5 asks for holds in the parallel driver. *)
Lemma par_prediction_precedence e rom_entry g :
  par_builds e rom_entry g ->
  let game_id := game_id_of (split_entry rom_entry).2 in
  game_id <> "" ->
  predicted_show e game_id = true ->
  Game.hide g = "no"
  /\ forall d,
       prediction_result e game_id = "SHOW_GAME|" +:+ d ->
       d <> "" -> Str.has_char "|" d = false -> Game.added g = d.
Proof.
  intros [path H] game_id. unfold game_id. clear game_id. intros Hid Hshow.
  apply par_rom_inv in H. cbn zeta in H.
  destruct H as (_ & _ & _ & _ & v2 & n & Hm & _ & Hg).
  apply jq_n_rom_Some in Hg as (_ & -> & -> & _).
  cbn [hide added set_new_flag].
  destruct (par_overlay_applied e _ _ (rom_defaults _ unset_vars) v2
              Hid eq_refl Hm) as [v ->].
  split.
  - apply overlay_shown_hide. exact Hshow.
  - intros d -> Hd Hbar. apply overlay_shown_added; assumption.
Qed.

(** C5 at the failing input: the sequential driver asks the prediction data
    about the title, and the flagged game stays hidden with its own added
    date; the parallel driver asks about the id. *)
Theorem C5_sequential_lookup_by_title :
  predicted_show retitled_world "mario" = true
  /\ (map (fun g => (Game.id g, Game.hide g, Game.added g))
        <$> gamelist (generate_gamelist_sequential retitled_world))
     = Some [("mario", "yes", "2024-01-01")]
  /\ (map (fun g => (Game.id g, Game.hide g, Game.added g))
        <$> gamelist (generate_gamelist_parallel retitled_world))
     = Some [("mario", "no", "2025-01-27")].
Proof. repeat split; by_running. Qed.

(** ** C6: unparsable metadata *)

Lemma seq_rom_unparsable e m v0 rom_entry f :
  unparsable f ->
  m (rom_metadata_file (game_id_of (split_entry rom_entry).2)) = f ->
  seq_rom (with_metadata e m) v0 rom_entry
  = seq_rom (with_metadata e (fun _ => NoFile)) v0 rom_entry.
Proof.
  intros Hf Hm. unfold seq_rom.
  destruct (split_entry rom_entry) as [sub fn]. cbn [fst snd] in Hm.
  destruct (sub =? "bios")%string; [reflexivity|].
  cbn [metadata_yaml with_metadata]. rewrite Hm.
  assert (Hmeta : forall v1,
            seq_metadata (with_metadata e m) f v1
            = Ok (set_new_flag "" v1)).
  { intros v1. destruct Hf as [->|(doc & -> & Hok)]; cbn; [|rewrite Hok];
      reflexivity. }
  rewrite Hmeta. cbn [seq_metadata sh_bind].
  assert (Hfile : has_metadata_file f = true)
    by (destruct Hf as [->|(doc & -> & _)]; reflexivity).
  unfold seq_overlay_again. rewrite Hfile.
  cbn [has_metadata_file andb title set_new_flag rom_defaults].
  rewrite String.eqb_refl, andb_false_r. reflexivity.
Qed.

Lemma par_rom_unparsable e m rom_entry f :
  unparsable f ->
  m (rom_metadata_file (game_id_of (split_entry rom_entry).2)) = f ->
  par_rom (with_metadata e m) rom_entry
  = par_rom (with_metadata e (fun _ => NoFile)) rom_entry.
Proof.
  intros Hf Hm. unfold par_rom, par_rom_sh.
  destruct (split_entry rom_entry) as [sub fn]. cbn [fst snd] in Hm.
  destruct (Ere.grep re_reserved_name true fn); [reflexivity|].
  destruct (Ere.grep re_helper_ext true fn); [reflexivity|].
  destruct (sub =? "bios")%string; [reflexivity|].
  cbn [metadata_yaml with_metadata]. rewrite Hm.
  assert (Hmeta : forall v1,
            par_metadata (with_metadata e m) (game_id_of fn) f v1
            = Ok (set_new_flag "" v1)).
  { intros v1. destruct Hf as [->|(doc & -> & Hok)]; cbn; [|rewrite Hok];
      reflexivity. }
  rewrite Hmeta. cbn [par_metadata sh_bind].
  assert (Hfile : has_metadata_file f = true)
    by (destruct Hf as [->|(doc & -> & _)]; reflexivity).
  unfold par_overlay_again. rewrite Hfile.
  cbn [has_metadata_file andb title set_new_flag rom_defaults].
  rewrite String.eqb_refl, andb_false_r. reflexivity.
Qed.

(** C6 at the failing input: in the sequential driver the entry of the
    second ROM carries the announcement message of the first, not the
    default; in the parallel driver it carries the default. *)
Theorem C6_announcement_message_kept :
  (map (fun g => (Game.id g, Game.announcement_message g))
     <$> gamelist (generate_gamelist_sequential announcement_world))
  = Some [("a", "Hello"); ("b", "Hello")]
  /\ (map (fun g => (Game.id g, Game.announcement_message g))
        <$> gamelist (generate_gamelist_parallel announcement_world))
     = Some [("a", "Hello"); ("b", "")].
Proof. split; by_running. Qed.

(** ** C7: external games *)

(** An external directory whose metadata is a mapping and whose added date,
    if any, is readable. *)
Lemma external_game_object e game_dir fields :
  is_dir e game_dir = true ->
  metadata_yaml e (external_metadata_file game_dir) = YqPrints (JObj fields) ->
  (let a := doc_text "added" (JObj fields) in
   a = "" \/ a = "DATE_PLACEHOLDER" \/ is_Some (date_epoch e a)) ->
  let doc := JObj fields in
  is_Some (mjoin (match external_game e game_dir with
                  | Ok og => Some og
                  | Errexit => None
                  end)) <->
  (doc_text "game_type" doc = "external"
   /\ doc_text "hide" doc <> "yes"
   /\ doc_text "title" doc <> ""
   /\ doc_text "external_url" doc <> "")
  /\ is_Some (jq_text e (captured (Jq.get_r "enable_score" (JBool false) doc)))
  /\ is_Some (jq_text e (captured (Jq.get_c "controls" JNull doc))).
Proof.
  intros Hdir Hmeta Hdate doc. unfold external_game.
  rewrite Hdir. cbn [negb]. fold (external_metadata_file game_dir).
  rewrite Hmeta. cbn [Jq.e_ok Jq.truthy].
  rewrite !(assign_object true (Jq.get_r _ _) fields _ eq_refl).
  rewrite extract_object. cbn [sh_bind]. cbn [hide title added new_flag].
  fold doc. fold (doc_text "game_type" doc) (doc_text "hide" doc)
    (doc_text "title" doc) (doc_text "external_url" doc)
    (doc_text "added" doc).
  destruct (String.eqb_spec (doc_text "game_type" doc) "external")
    as [Hgt|Hgt]; cbn [negb].
  2:{ cbn [mjoin option_join]. rewrite is_Some_alt. tauto. }
  destruct (String.eqb_spec (doc_text "hide" doc) "yes") as [Hh|Hh];
    cbn [orb].
  { cbn [mjoin option_join]. rewrite is_Some_alt. tauto. }
  destruct (Str.is_empty (doc_text "title" doc)) eqn:Ht; cbn [orb].
  { apply is_empty_true in Ht.
    cbn [mjoin option_join]. rewrite is_Some_alt. tauto. }
  destruct (Str.is_empty (doc_text "external_url" doc)) eqn:Hu; cbn [orb].
  { apply is_empty_true in Hu.
    cbn [mjoin option_join]. rewrite is_Some_alt. tauto. }
  apply is_empty_false in Ht, Hu. cbn zeta in Hdate. fold doc in Hdate.
  destruct (is_new_by_date_ok true e _ Hdate) as [n ->]. cbn [sh_bind mjoin
    option_join].
  rewrite jq_n_external_is_Some. cbn [enable_score controls_json set_new_flag].
  tauto.
Qed.

(** A metadata document that parses and is not a mapping: the first
    assignment of the loop body fails. *)
Lemma external_game_not_mapping e game_dir doc :
  is_dir e game_dir = true ->
  metadata_yaml e (external_metadata_file game_dir) = YqPrints doc ->
  Jq.e_ok doc = true ->
  (forall fields, doc <> JObj fields) ->
  external_game e game_dir = Errexit /\ doc_text "game_type" doc = "".
Proof.
  intros Hdir Hmeta Hok Hshape. unfold external_game.
  rewrite Hdir, Hmeta, Hok. cbn [negb].
  destruct doc as [|b|n|s|items|fields]; try discriminate Hok;
    try (split; reflexivity).
  contradiction (Hshape fields). reflexivity.
Qed.

(** C7, as amended.  For an external directory whose added date is absent,
    the placeholder or readable: the external loop appends an entry for it
    if and only if the five conditions hold and the entry serializes, that
    is, jq reads the enable_score text and the controls text as JSON. *)
Theorem C7_external_eligibility (e : env) (game_dir : string)
    (Hdir : is_dir e game_dir = true)
    (Hdate :
       forall doc,
         metadata_yaml e (external_metadata_file game_dir) = YqPrints doc ->
         doc_text "added" doc = ""
         \/ doc_text "added" doc = "DATE_PLACEHOLDER"
         \/ is_Some (date_epoch e (doc_text "added" doc))) :
  external_builds e game_dir <->
  external_eligible e game_dir /\ external_serializes e game_dir.
Proof.
  unfold external_builds, external_eligible, external_serializes.
  destruct (metadata_yaml e (external_metadata_file game_dir)) as [| |doc]
    eqn:Hmeta.
  - unfold external_game. rewrite Hdir, Hmeta. cbn.
    split; [intros [g [=]]|intros [(doc & [=] & _) _]].
  - unfold external_game. rewrite Hdir, Hmeta. cbn.
    split; [intros [g [=]]|intros [(doc & [=] & _) _]].
  - destruct (Jq.e_ok doc) eqn:Hok.
    + assert (Hshape : (exists fields, doc = JObj fields)
                       \/ forall fields, doc <> JObj fields).
      { destruct doc; try (right; discriminate). left. eauto. }
      destruct Hshape as [[fields ->]|Hshape].
      * pose proof (external_game_object e game_dir fields Hdir Hmeta
                      (Hdate _ eq_refl)) as H.
        cbn zeta in H. split.
        -- intros [g Hg]. rewrite Hg in H. cbn in H.
           destruct (proj1 H) as (Hc & Hs1 & Hs2); [eexists; reflexivity|].
           split; eexists; (split; [reflexivity|]); tauto.
        -- intros [(doc & [= <-] & _ & Hc) (doc' & [= <-] & Hs)].
           destruct (proj2 H (conj Hc Hs)) as [g Hg].
           destruct (external_game e game_dir) as [[g'|]|]; try discriminate.
           exists g'. reflexivity.
      * destruct (external_game_not_mapping e game_dir doc Hdir Hmeta Hok
                    Hshape) as [Habort Htype].
        rewrite Habort. split; [intros [g [=]]|].
        intros [(doc' & [= <-] & _ & Hgt & _) _]. rewrite Htype in Hgt.
        discriminate.
    + unfold external_game. rewrite Hdir, Hmeta, Hok. cbn.
      split; [intros [g [=]]|intros [(doc' & [= <-] & Hok' & _) _]].
      congruence.
Qed.

(** C7 as stated fails: the five conditions hold for the directory and no
    entry is built for it. *)
Lemma C7_counterexample :
  ~ (external_builds unreadable_score_world demo_dir
     <-> external_eligible unreadable_score_world demo_dir).
Proof.
  intros [_ H].
  destruct H as [g Hg].
  - eexists. split; [vm_compute; reflexivity|].
    vm_compute. repeat split; discriminate.
  - vm_compute in Hg. discriminate.
Qed.

(** Scenario E meets the conditions of C7 as amended: the directory is
    there, its metadata gives no added date, and the entry is built. *)
Lemma C7_external_eligibility_witness :
  is_dir scenario_e_world arcade1up_dir = true
  /\ external_builds scenario_e_world arcade1up_dir.
Proof.
  split; [reflexivity|].
  apply C7_external_eligibility.
  - reflexivity.
  - intros doc H. vm_compute in H. injection H as <-.
    left. reflexivity.
  - split.
    + eexists. split; [vm_compute; reflexivity|].
      vm_compute. repeat split; discriminate.
    + eexists. split; [vm_compute; reflexivity|].
      vm_compute. split; eexists; reflexivity.
Defined.

(** ** C8: one entry per ROM *)

Lemma two_marios_step_nes sched (dir : tempdir) :
  worker_step (two_marios sched) "NES/Mario.nes" dir
  = <[mario_file := mario_of "nes" "NES/Mario.nes"]> dir.
Proof.
  unfold worker_step.
  replace (par_rom (two_marios sched) "NES/Mario.nes")
    with (Some (mario_file, mario_of "nes" "NES/Mario.nes"))
    by (vm_compute; reflexivity).
  reflexivity.
Qed.

Lemma two_marios_step_snes sched (dir : tempdir) :
  worker_step (two_marios sched) "SNES/Mario.sfc" dir
  = <[mario_file := mario_of "snes" "SNES/Mario.sfc"]> dir.
Proof.
  unfold worker_step.
  replace (par_rom (two_marios sched) "SNES/Mario.sfc")
    with (Some (mario_file, mario_of "snes" "SNES/Mario.sfc"))
    by (vm_compute; reflexivity).
  reflexivity.
Qed.

Lemma two_marios_run s sched :
  let e := two_marios s in
  let nes := mario_of "nes" "NES/Mario.nes" in
  let snes := mario_of "snes" "SNES/Mario.sfc" in
  one_mario (run_workers e sched [["NES/Mario.nes"]; ["SNES/Mario.sfc"]; []] ∅)
  /\ one_mario (run_workers e sched [[]; ["SNES/Mario.sfc"]; []]
                  {[mario_file := nes]})
  /\ one_mario (run_workers e sched [["NES/Mario.nes"]; []; []]
                  {[mario_file := snes]})
  /\ one_mario (run_workers e sched [[]; []; []] {[mario_file := nes]})
  /\ one_mario (run_workers e sched [[]; []; []] {[mario_file := snes]}).
Proof.
  intros e nes snes.
  induction sched as [|w sched (IH0 & IH1 & IH2 & IH3 & IH4)].
  - cbn [run_workers foldl]. unfold e.
    rewrite ?two_marios_step_nes, ?two_marios_step_snes.
    rewrite ?insert_insert_eq, ?insert_empty.
    unfold one_mario, nes, snes. auto 10.
  - destruct w as [|[|[|w]]]; cbn [run_workers lookup list_lookup insert
      list_insert]; unfold e;
      rewrite ?two_marios_step_nes, ?two_marios_step_snes;
      rewrite ?insert_insert_eq, ?insert_empty;
      fold e nes snes; auto 10.
Qed.

(** An id with a blank: the sequential driver lists the ROM, the merge loop
    of the parallel driver splits the path of its game file in two words and
    skips both. *)
Example blank_in_id :
  let e := world (ManifestPath ["NES/Super Mario.nes"]) no_metadata []
             no_predictions [] in
  ids (generate_gamelist_sequential e) = Some ["Super Mario"]
  /\ ids (generate_gamelist_parallel e) = Some [].
Proof. split; by_running. Qed.

(** C8 at the failing input, for every order in which the workers run: the
    sequential driver lists both ROMs, the parallel driver one of them, as
    both workers write the same game file. *)
Theorem C8_same_id_collapses (sched : list nat) :
  ids (generate_gamelist_sequential (two_marios sched))
  = Some ["Mario"; "Mario"]
  /\ ids (generate_gamelist_parallel (two_marios sched)) = Some ["Mario"].
Proof.
  split; [vm_compute; reflexivity|].
  unfold generate_gamelist_parallel.
  replace (par_rom_files (two_marios sched))
    with (Some ["NES/Mario.nes"; "SNES/Mario.sfc"])
    by (vm_compute; reflexivity).
  replace (par_batches (two_marios sched) ["NES/Mario.nes"; "SNES/Mario.sfc"])
    with [["NES/Mario.nes"]; ["SNES/Mario.sfc"]; @nil string]
    by (vm_compute; reflexivity).
  cbn [have_tools two_marios world negb schedule].
  destruct (two_marios_run sched sched) as [[-> | ->] _];
    vm_compute; reflexivity.
Qed.

(** ** C9: the core of an entry *)

Lemma get_core_from_dir_table system :
  get_core_from_dir system = default "" (table_core core_table system).
Proof.
  unfold get_core_from_dir, core_table, table_core.
  case_folders system.
Qed.

Lemma seq_builds_core e v0 rom_entry g :
  seq_builds e v0 rom_entry g ->
  Game.core g = or_default (get_core_from_dir (split_entry rom_entry).1) "null".
Proof.
  intros [v H]. apply seq_rom_inv in H. cbn zeta in H.
  destruct H as [(_ & _ & [=])|(_ & v2 & n & _ & _ & _ & H)].
  symmetry in H. apply jq_n_rom_Some in H. tauto.
Qed.

Lemma par_builds_core e rom_entry g :
  par_builds e rom_entry g ->
  Game.core g = or_default (get_core_from_dir (split_entry rom_entry).1) "null".
Proof.
  intros [path H].
  apply par_rom_inv in H. cbn zeta in H.
  destruct H as (_ & _ & _ & _ & v2 & n & _ & _ & H).
  apply jq_n_rom_Some in H. tauto.
Qed.

(** Whether an entry is built does not depend on the folder the file is in,
    as long as it is not [bios]. *)
Lemma seq_builds_any_folder e v0 rom_entry rom_entry' g :
  (split_entry rom_entry').2 = (split_entry rom_entry).2 ->
  (split_entry rom_entry').1 <> "bios" ->
  seq_builds e v0 rom_entry g -> exists g', seq_builds e v0 rom_entry' g'.
Proof.
  unfold seq_builds, seq_rom.
  destruct (split_entry rom_entry) as [sub fn],
           (split_entry rom_entry') as [sub' fn'].
  cbn [fst snd]. intros -> Hne [v H].
  destruct (String.eqb_spec sub' "bios") as [?|_]; [contradiction|].
  destruct (String.eqb_spec sub "bios") as [?|_]; [discriminate|].
  destruct (seq_metadata e _ _) as [v2|]; [|discriminate].
  cbn [sh_bind] in *.
  destruct (is_new_by_date true e _) as [is_new|]; [|discriminate].
  cbn [sh_bind] in *. injection H as <- H.
  assert (Hs : is_Some (Some g)) by (eexists; reflexivity).
  rewrite <- H in Hs. apply jq_n_rom_is_Some in Hs.
  match goal with |- context [jq_n_rom ?a ?b ?c ?d ?x ?y ?z ?w] =>
    destruct (proj2 (jq_n_rom_is_Some a b c d x y z w) Hs) as [g' Hg'] end.
  exists g'. eexists. rewrite Hg'. reflexivity.
Qed.

Lemma par_builds_any_folder e rom_entry rom_entry' g :
  (split_entry rom_entry').2 = (split_entry rom_entry).2 ->
  (split_entry rom_entry').1 <> "bios" ->
  par_builds e rom_entry g -> exists g', par_builds e rom_entry' g'.
Proof.
  unfold par_builds, par_rom, par_rom_sh.
  destruct (split_entry rom_entry) as [sub fn],
           (split_entry rom_entry') as [sub' fn'].
  cbn [fst snd]. intros -> Hne [path H].
  destruct (Ere.grep re_reserved_name true fn); [discriminate|].
  destruct (Ere.grep re_helper_ext true fn); [discriminate|].
  destruct (String.eqb_spec sub' "bios") as [?|_]; [contradiction|].
  destruct (String.eqb_spec sub "bios") as [?|_]; [discriminate|].
  destruct (par_metadata e (game_id_of fn) _ _) as [v2|]; [|discriminate].
  cbn [sh_bind] in *.
  destruct (is_new_by_date false e _) as [is_new|]; [|discriminate].
  cbn [sh_bind] in *.
  match type of H with context [jq_n_rom ?a ?b ?c ?d ?x ?y ?z ?w] =>
    destruct (jq_n_rom a b c d x y z w) as [g0|] eqn:H0 end;
    [|discriminate].
  assert (Hs : is_Some (Some g0)) by (eexists; reflexivity).
  rewrite <- H0 in Hs. apply jq_n_rom_is_Some in Hs.
  match goal with |- context [jq_n_rom ?a ?b ?c ?d ?x ?y ?z ?w] =>
    destruct (proj2 (jq_n_rom_is_Some a b c d x y z w) Hs) as [g' Hg'] end.
  exists g'. eexists. rewrite Hg'. reflexivity.
Qed.

(** C9, as amended.  For an entry either driver builds from a manifest
    line, the mapping from the system folder to the core is the table of the
    specification; the core field is the mapped core, and for a folder that
    is not in the table it is the string "null", which the builder puts in
    place of the empty core; and the same file in any other folder but
    [bios], in the table or not, is built into an entry as well. *)
Theorem C9_core_field (e : env) (v0 : vars) (rom_entry : string) (g : Game.t)
    (Hbuilt : seq_builds e v0 rom_entry g \/ par_builds e rom_entry g) :
  let system := (split_entry rom_entry).1 in
  get_core_from_dir system = default "" (table_core core_table system)
  /\ Game.core g = default "null" (table_core core_table system)
  /\ forall rom_entry',
       (split_entry rom_entry').2 = (split_entry rom_entry).2 ->
       (split_entry rom_entry').1 <> "bios" ->
       (seq_builds e v0 rom_entry g -> exists g', seq_builds e v0 rom_entry' g')
       /\ (par_builds e rom_entry g -> exists g', par_builds e rom_entry' g').
Proof.
  intros system. split; [apply get_core_from_dir_table|]. split.
  - assert (Game.core g = or_default (get_core_from_dir system) "null") as ->.
    { destruct Hbuilt; [eapply seq_builds_core|eapply par_builds_core]; eauto. }
    rewrite get_core_from_dir_table.
    unfold core_table, table_core.
    case_folders system.
  - intros rom_entry' Hfile Hfolder. split; intros H.
    + eapply seq_builds_any_folder; eauto.
    + eapply par_builds_any_folder; eauto.
Qed.

(** C9 as stated fails: the entry built for [FOO/game.bin] does not have the
    empty core the table gives for the folder [FOO]. *)
Lemma C9_counterexample :
  ~ (forall g, seq_builds unmapped_world unset_vars "FOO/game.bin" g ->
               Game.core g
               = default "" (table_core core_table
                               (split_entry "FOO/game.bin").1)).
Proof.
  intros H.
  assert (Hb : exists g, seq_builds unmapped_world unset_vars "FOO/game.bin" g
                         /\ Game.core g = "null").
  { eexists. split; [eexists; vm_compute; reflexivity|reflexivity]. }
  destruct Hb as (g & Hb & Hc). specialize (H g Hb).
  rewrite Hc in H. vm_compute in H. discriminate.
Qed.

(** The ROM in the folder [FOO]: it is built with the core "null", and the
    same file in the folder [NES] is built as well. *)
Lemma C9_core_field_witness :
  exists g,
    (seq_builds unmapped_world unset_vars "FOO/game.bin" g
     \/ par_builds unmapped_world "FOO/game.bin" g)
    /\ Game.core g = "null"
    /\ exists g', seq_builds unmapped_world unset_vars "NES/game.bin" g'.
Proof.
  eexists. 
  assert (Hb : seq_builds unmapped_world unset_vars "FOO/game.bin" _)
    by (eexists; vm_compute; reflexivity).
  split; [left; exact Hb|].
  pose proof (C9_core_field unmapped_world unset_vars "FOO/game.bin" _
                (or_introl Hb)) as (_ & Hcore & Hany).
  split; [exact Hcore|].
  apply (Hany "NES/game.bin"); [reflexivity|discriminate|exact Hb].
Defined.

(** ** C10: the default of hide *)

Lemma seq_hide_default e v0 rom_entry g :
  seq_builds e v0 rom_entry g ->
  let game_id := game_id_of (split_entry rom_entry).2 in
  let f := metadata_yaml e (rom_metadata_file game_id) in
  not_predicted e game_id f ->
  (f = NoFile -> Game.hide g = "yes")
  /\ (forall fields, f = YqPrints (JObj fields) ->
        Jq.field "hide" fields = JNull -> Game.hide g = "").
Proof.
  intros [v H] game_id f [Hid Htitle]. apply seq_rom_inv in H.
  cbn zeta in H.
  destruct H as [(_ & _ & [=])|(_ & v2 & n & Hm & _ & -> & Hg)].
  symmetry in Hg. apply jq_n_rom_Some in Hg as (_ & -> & _).
  fold game_id in Hm |- *. fold f in Hm |- *. cbn [hide set_new_flag].
  unfold predicted_show in Hid, Htitle. split.
  - intros Hf. rewrite Hf in *. cbn in Hm. injection Hm as <-.
    unfold seq_overlay_again. cbn [has_metadata_file andb title set_new_flag
      rom_defaults].
    destruct (Str.is_empty game_id) eqn:Hempty; cbn [negb]; [reflexivity|].
    apply is_empty_false in Hempty.
    rewrite overlay_not_shown by exact (Hid Hempty). reflexivity.
  - intros fields Hf Hhide. rewrite Hf in *. cbn [seq_metadata Jq.e_ok
      Jq.truthy] in Hm. rewrite extract_object in Hm.
    cbn [sh_bind] in Hm. rewrite (captured_omitted _ _ Hhide) in Hm.
    specialize (Htitle _ eq_refl). unfold doc_text in Htitle.
    cbn [title] in Hm.
    destruct (Str.is_empty _) eqn:Ht in Hm; cbn [negb] in Hm.
    + injection Hm as <-. unfold seq_overlay_again. cbn [title].
      rewrite Ht. cbn [negb]. rewrite andb_false_r. reflexivity.
    + pose proof (proj1 (is_empty_false _) Ht) as Hne.
      rewrite overlay_not_shown in Hm by exact (Htitle Hne).
      injection Hm as <-.
      unfold seq_overlay_again. cbn [title].
      destruct (_ && _); [reflexivity|]. rewrite Ht. cbn [negb].
      rewrite overlay_not_shown by exact (Htitle Hne). reflexivity.
Qed.

Lemma par_hide_default e rom_entry g :
  par_builds e rom_entry g ->
  let game_id := game_id_of (split_entry rom_entry).2 in
  let f := metadata_yaml e (rom_metadata_file game_id) in
  not_predicted e game_id f ->
  (f = NoFile -> Game.hide g = "yes")
  /\ (forall fields, f = YqPrints (JObj fields) ->
        Jq.field "hide" fields = JNull -> Game.hide g = "").
Proof.
  intros [path H] game_id f [Hid _]. apply par_rom_inv in H. cbn zeta in H.
  destruct H as (_ & _ & _ & _ & v2 & n & Hm & _ & Hg).
  apply jq_n_rom_Some in Hg as (_ & -> & _).
  fold game_id in Hm |- *. fold f in Hm |- *. cbn [hide set_new_flag].
  unfold predicted_show in Hid.
  assert (Hover : forall v,
            (if negb (Str.is_empty game_id)
             then overlay (prediction_result e game_id) v else v) = v).
  { intros v. destruct (Str.is_empty game_id) eqn:Hempty; cbn [negb];
      [reflexivity|].
    apply is_empty_false in Hempty. apply overlay_not_shown, Hid, Hempty. }
  split.
  - intros Hf. rewrite Hf in *. cbn in Hm. injection Hm as <-.
    unfold par_overlay_again. cbn [has_metadata_file andb].
    rewrite Hover. reflexivity.
  - intros fields Hf Hhide. rewrite Hf in *. cbn [par_metadata Jq.e_ok
      Jq.truthy] in Hm. rewrite extract_object in Hm.
    cbn [sh_bind] in Hm. rewrite (captured_omitted _ _ Hhide) in Hm.
    rewrite Hover in Hm. injection Hm as <-.
    unfold par_overlay_again. rewrite Hover.
    destruct (_ && _); reflexivity.
Qed.

(** C10.  For a ROM entry that the prediction data does not flag, the hide
    field of the entry either driver builds depends on the presence of a
    metadata file alone: without one it is "yes" and the front end hides the
    game; with one that parses to a mapping without a hide field (an empty
    mapping too) it is the empty string and the front end shows the game. *)
Theorem C10_hide_default (e : env) (v0 : vars) (rom_entry : string)
    (g : Game.t)
    (Hbuilt : seq_builds e v0 rom_entry g \/ par_builds e rom_entry g)
    (Hnot_predicted :
       not_predicted e (game_id_of (split_entry rom_entry).2)
         (metadata_yaml e
            (rom_metadata_file (game_id_of (split_entry rom_entry).2)))) :
  let f := metadata_yaml e
             (rom_metadata_file (game_id_of (split_entry rom_entry).2)) in
  (f = NoFile ->
   Game.hide g = "yes" /\ visible (Game.to_json g) = false)
  /\ (forall fields, f = YqPrints (JObj fields) ->
        Jq.field "hide" fields = JNull ->
        Game.hide g = "" /\ visible (Game.to_json g) = true).
Proof.
  intros f.
  assert ((f = NoFile -> Game.hide g = "yes")
          /\ (forall fields, f = YqPrints (JObj fields) ->
                Jq.field "hide" fields = JNull -> Game.hide g = ""))
    as [Hno Hdoc].
  { destruct Hbuilt as [H|H].
    - exact (seq_hide_default e v0 rom_entry g H Hnot_predicted).
    - exact (par_hide_default e rom_entry g H Hnot_predicted). }
  rewrite visible_to_json. split.
  - intros Hf. rewrite (Hno Hf). split; reflexivity.
  - intros fields Hf Hh. rewrite (Hdoc fields Hf Hh). split; reflexivity.
Qed.

(** Scenario A, hidden, and the same ROM with an empty mapping as metadata,
    visible. *)
Lemma C10_hide_default_witness :
  (exists g,
     seq_builds bare_world unset_vars "NES/Mario.nes" g
     /\ Game.hide g = "yes" /\ visible (Game.to_json g) = false)
  /\ (exists g,
        par_builds empty_metadata_world "NES/Mario.nes" g
        /\ Game.hide g = "" /\ visible (Game.to_json g) = true).
Proof.
  split.
  - eexists.
    assert (Hb : seq_builds bare_world unset_vars "NES/Mario.nes" _)
      by (eexists; vm_compute; reflexivity).
    split; [exact Hb|].
    apply (C10_hide_default bare_world unset_vars "NES/Mario.nes" _
             (or_introl Hb)).
    + split; [reflexivity|]. intros doc Hdoc. vm_compute in Hdoc.
      discriminate.
    + vm_compute. reflexivity.
  - eexists.
    assert (Hb : par_builds empty_metadata_world "NES/Mario.nes" _)
      by (eexists; vm_compute; reflexivity).
    split; [exact Hb|].
    apply (C10_hide_default empty_metadata_world unset_vars "NES/Mario.nes" _
             (or_intror Hb)) with (fields := []).
    + split; [reflexivity|]. intros doc Hdoc. vm_compute in Hdoc.
      injection Hdoc as <-. intros Hne. contradiction Hne. reflexivity.
    + vm_compute. reflexivity.
    + reflexivity.
Defined.

(** ** The catalogs as a whole

    What holds of every entry a loop body builds holds of every entry of a
    written catalog. *)

Lemma external_game_core e game_dir g :
  external_game e game_dir = Ok (Some g) -> Game.core g = "external".
Proof.
  unfold external_game. destruct (is_dir e game_dir); [|discriminate].
  cbn [negb].
  destruct (metadata_yaml e (external_metadata_file game_dir)) as [| |doc];
    try discriminate.
  cbn zeta.
  destruct (Jq.e_ok doc) eqn:Hok; [|discriminate].
  destruct doc as [|b|n|s|items|fields]; try discriminate.
  rewrite !(assign_object true (Jq.get_r _ _) fields _ eq_refl).
  rewrite extract_object. cbn [sh_bind].
  destruct (negb _); [discriminate|].
  destruct (_ || _); [discriminate|].
  destruct (is_new_by_date true e _) as [is_new|]; [|discriminate].
  cbn [sh_bind]. unfold jq_n_external.
  cbn [enable_score controls_json set_new_flag].
  destruct (jq_text e (captured (Jq.get_r "enable_score" _ _)))
    as [score|]; [|cbn; discriminate].
  destruct (jq_text e (captured (Jq.get_c "controls" _ _)))
    as [ctrl|]; [|cbn; discriminate].
  cbn [mbind option_bind]. intros [= <-]. reflexivity.
Qed.

Lemma or_default_null x : or_default x "null" <> "".
Proof.
  unfold or_default. destruct x; [discriminate|].
  cbn. discriminate.
Qed.

(** No entry of a written catalog has an empty core field, whichever driver
    wrote it. *)
Corollary catalog_core_not_empty e games :
  gamelist (generate_gamelist_sequential e) = Some games
  \/ gamelist (generate_gamelist_parallel e) = Some games ->
  Forall (fun g => Game.core g <> "") games.
Proof.
  intros [H|H].
  - apply sequential_catalog_entries in H.
    eapply Forall_impl; [exact H|].
    intros g [(rom_files & v0 & rom_entry & _ & _ & Hg)|(game_dir & _ & Hg)].
    + rewrite (seq_builds_core _ _ _ _ Hg). apply or_default_null.
    + rewrite (external_game_core _ _ _ Hg). discriminate.
  - apply parallel_catalog_entries in H.
    eapply Forall_impl; [exact H|].
    intros g [(rom_files & rom_entry & _ & _ & Hg)|(game_dir & _ & Hg)].
    + rewrite (par_builds_core _ _ _ Hg). apply or_default_null.
    + rewrite (external_game_core _ _ _ Hg). discriminate.
Qed.

(** In a written catalog the new flag of an entry is "true" or absent, and
    it is "true" only where a metadata file says so or the added date of
    the entry is recent. *)
Corollary catalog_new_flag e games :
  gamelist (generate_gamelist_sequential e) = Some games
  \/ gamelist (generate_gamelist_parallel e) = Some games ->
  Forall (fun g =>
            (Game.new_flag g = "true" \/ Game.new_flag g = "")
            /\ (Game.new_flag g = "true" ->
                (exists metadata_file,
                   new_override (metadata_yaml e metadata_file) = "true")
                \/ recent e (Game.added g)))
    games.
Proof.
  assert (Hrom : forall v0 rom_entry g,
             seq_builds e v0 rom_entry g \/ par_builds e rom_entry g ->
             (Game.new_flag g = "true" \/ Game.new_flag g = "")
             /\ (Game.new_flag g = "true" ->
                 (exists metadata_file,
                    new_override (metadata_yaml e metadata_file) = "true")
                 \/ recent e (Game.added g))).
  { intros v0 rom_entry g Hg. apply recency_law in Hg. cbn zeta in Hg.
    destruct Hg as [Hiff Hflag]. split; [exact Hflag|].
    intros Htrue. apply Hiff in Htrue as [Hover|Hrecent];
      [left; eexists; exact Hover|right; exact Hrecent]. }
  assert (Hext : forall game_dir g,
             external_game e game_dir = Ok (Some g) ->
             (Game.new_flag g = "true" \/ Game.new_flag g = "")
             /\ (Game.new_flag g = "true" ->
                 (exists metadata_file,
                    new_override (metadata_yaml e metadata_file) = "true")
                 \/ recent e (Game.added g))).
  { intros game_dir g Hg. apply external_recency_law in Hg. cbn zeta in Hg.
    destruct Hg as [Hiff Hflag]. split; [exact Hflag|].
    intros Htrue. apply Hiff in Htrue as [Hover|Hrecent];
      [left; eexists; exact Hover|right; exact Hrecent]. }
  intros [H|H].
  - apply sequential_catalog_entries in H.
    eapply Forall_impl; [exact H|].
    intros g [(rom_files & v0 & rom_entry & _ & _ & Hg)|(game_dir & _ & Hg)].
    + apply (Hrom v0 rom_entry). left. exact Hg.
    + apply (Hext game_dir). exact Hg.
  - apply parallel_catalog_entries in H.
    eapply Forall_impl; [exact H|].
    intros g [(rom_files & rom_entry & _ & _ & Hg)|(game_dir & _ & Hg)].
    + apply (Hrom unset_vars rom_entry). right. exact Hg.
    + apply (Hext game_dir). exact Hg.
Qed.

(** * Properties of the rest of the build scripts and of the front end

    ** The batches of the parallel driver *)

Lemma NUM_WORKERS_at_least_two e : 2 <= NUM_WORKERS e.
Proof.
  unfold NUM_WORKERS. cbv zeta.
  destruct (Z.ltb_spec (Z.quot (wrap64 (NUM_CORES e * 3)) 4) 2); lia.
Qed.

Lemma BATCH_WORKERS_at_least_two e : 2 <= BATCH_WORKERS e.
Proof.
  unfold BATCH_WORKERS. pose proof (NUM_WORKERS_at_least_two e).
  destruct (negb (CI e)); lia.
Qed.

Lemma length_distribute num_workers lines :
  forall batch_num batches,
    length (distribute num_workers lines batch_num batches) = length batches.
Proof.
  induction lines as [|l rest IH]; intros batch_num batches; [reflexivity|].
  cbn [distribute]. rewrite IH. apply length_alter.
Qed.

Lemma concat_alter_snoc (l : string) batch_num :
  forall batches : list (list string),
    (batch_num < length batches)%nat ->
    concat (alter (fun b => b ++ [l]) batch_num batches)
    ≡ₚ concat batches ++ [l].
Proof.
  induction batch_num as [|k IH]; intros [|b batches] Hk;
    cbn [length] in Hk; try lia.
  - cbn. rewrite <- !app_assoc. apply Permutation_app_head.
    apply Permutation_app_comm.
  - cbn [alter list_alter concat]. change (list_alter ?f k batches)
      with (alter f k batches).
    rewrite IH by lia. rewrite app_assoc. reflexivity.
Qed.

Lemma concat_distribute num_workers lines :
  forall batch_num batches,
    length batches = num_workers -> (batch_num < num_workers)%nat ->
    concat (distribute num_workers lines batch_num batches)
    ≡ₚ concat batches ++ lines.
Proof.
  induction lines as [|l rest IH]; intros batch_num batches Hlen Hk.
  - cbn. rewrite app_nil_r. reflexivity.
  - cbn [distribute]. rewrite IH.
    + rewrite concat_alter_snoc by lia. rewrite <- app_assoc. reflexivity.
    + rewrite length_alter. exact Hlen.
    + apply Nat.mod_upper_bound. lia.
Qed.

Lemma concat_replicate_nil {A} n : concat (replicate n (@nil A)) = [].
Proof. induction n as [|n IH]; [reflexivity|exact IH]. Qed.

Lemma length_par_batches e rom_files :
  length (par_batches e rom_files) = Z.to_nat (BATCH_WORKERS e).
Proof.
  unfold par_batches. cbv zeta.
  rewrite length_distribute. apply length_replicate.
Qed.

Lemma concat_par_batches e rom_files :
  concat (par_batches e rom_files) ≡ₚ rom_files.
Proof.
  pose proof (BATCH_WORKERS_at_least_two e) as Hw.
  unfold par_batches. cbv zeta. rewrite concat_distribute.
  - rewrite concat_replicate_nil. reflexivity.
  - apply length_replicate.
  - lia.
Qed.

(** X1.  Distributing [ROM_FILES] across the batches loses no line and
    repeats none: there are [BATCH_WORKERS] batches, and together they hold
    the lines of [ROM_FILES], each as often as it is listed. *)
Theorem batches_keep_every_line e rom_files :
  length (par_batches e rom_files) = Z.to_nat (BATCH_WORKERS e)
  /\ concat (par_batches e rom_files) ≡ₚ rom_files.
Proof.
  split; [apply length_par_batches|apply concat_par_batches].
Qed.

Lemma round_robin_step num_workers batch_num q batches (l : string) :
  round_robin num_workers batch_num q batches ->
  exists q',
    round_robin num_workers (S batch_num mod num_workers) q'
      (alter (fun b => b ++ [l]) batch_num batches).
Proof.
  intros (Hlen & Hk & Hsizes).
  destruct (decide (S batch_num = num_workers)) as [Hlast|Hnot_last].
  - exists (S q). split; [rewrite length_alter; exact Hlen|].
    rewrite Hlast, Nat.Div0.mod_same. split; [lia|].
    intros i b Hi. cbn [Nat.ltb Nat.leb].
    destruct (decide (i = batch_num)) as [->|Hne].
    + rewrite list_lookup_alter_eq in Hi.
      destruct (batches !! batch_num) as [b0|] eqn:Hb0; [|discriminate].
      injection Hi as <-. rewrite length_app. cbn [length].
      rewrite (Hsizes _ _ Hb0), Nat.ltb_irrefl. lia.
    + rewrite list_lookup_alter_ne in Hi by congruence.
      rewrite (Hsizes _ _ Hi).
      assert (i < length batches)%nat by (eapply lookup_lt_Some; exact Hi).
      destruct (Nat.ltb_spec i batch_num); [reflexivity|lia].
  - exists q. rewrite Nat.mod_small by lia.
    split; [rewrite length_alter; exact Hlen|]. split; [lia|].
    intros i b Hi.
    destruct (decide (i = batch_num)) as [->|Hne].
    + rewrite list_lookup_alter_eq in Hi.
      destruct (batches !! batch_num) as [b0|] eqn:Hb0; [|discriminate].
      injection Hi as <-. rewrite length_app. cbn [length].
      rewrite (Hsizes _ _ Hb0), Nat.ltb_irrefl.
      destruct (Nat.ltb_spec batch_num (S batch_num)); lia.
    + rewrite list_lookup_alter_ne in Hi by congruence.
      rewrite (Hsizes _ _ Hi).
      destruct (Nat.ltb_spec i batch_num), (Nat.ltb_spec i (S batch_num));
        lia.
Qed.

Lemma round_robin_distribute num_workers lines :
  forall batch_num q batches,
    round_robin num_workers batch_num q batches ->
    exists batch_num' q',
      round_robin num_workers batch_num' q'
        (distribute num_workers lines batch_num batches).
Proof.
  induction lines as [|l rest IH]; intros batch_num q batches Hrr.
  - exists batch_num, q. exact Hrr.
  - cbn [distribute].
    destruct (round_robin_step _ _ _ _ l Hrr) as (q' & Hrr').
    exact (IH _ _ _ Hrr').
Qed.

(** X2.  The batches are balanced: for some [q], every batch holds [q] or
    [q + 1] lines. *)
Theorem batches_balanced e rom_files :
  exists q,
    Forall (fun b => length b = q \/ length b = S q)
      (par_batches e rom_files).
Proof.
  pose proof (BATCH_WORKERS_at_least_two e) as Hw.
  unfold par_batches. cbv zeta.
  set (num_workers := Z.to_nat (BATCH_WORKERS e)).
  destruct (round_robin_distribute num_workers rom_files 0 0
              (replicate num_workers []))
    as (k & q & _ & _ & Hsizes).
  { split; [apply length_replicate|]. split; [lia|].
    intros i b Hi. apply lookup_replicate in Hi as [-> _]. reflexivity. }
  exists q. apply Forall_lookup. intros i b Hi.
  rewrite (Hsizes _ _ Hi). destruct (i <? k)%nat; auto.
Qed.

(** ** The workers under any schedule *)

Lemma steps_batches e batches :
  forall dir,
    foldl (fun d batch => foldl (fun d' l => worker_step e l d') d batch)
      dir batches
    = steps e dir (concat batches).
Proof.
  unfold steps.
  induction batches as [|batch rest IH]; intros dir; [reflexivity|].
  cbn [foldl concat]. rewrite IH, foldl_app. reflexivity.
Qed.

Lemma concat_insert_tail (l : string) rest w :
  forall batches : list (list string),
    batches !! w = Some (l :: rest) ->
    l :: concat (<[w := rest]> batches) ≡ₚ concat batches.
Proof.
  induction w as [|w IH]; intros [|b batches] Hw; try discriminate.
  - injection Hw as ->. reflexivity.
  - cbn [insert list_insert concat]. change (list_insert w rest batches)
      with (<[w := rest]> batches).
    rewrite <- (IH _ Hw). apply Permutation_middle.
Qed.

(** Whatever the schedule, the workers take the lines of the batches, each
    once, in some order. *)
Lemma run_workers_steps e sched :
  forall batches dir,
    exists lines,
      lines ≡ₚ concat batches
      /\ run_workers e sched batches dir = steps e dir lines.
Proof.
  induction sched as [|w sched' IH]; intros batches dir.
  - exists (concat batches). split; [reflexivity|apply steps_batches].
  - cbn [run_workers].
    destruct (batches !! w) as [[|rom_entry rest]|] eqn:Hw; try apply IH.
    destruct (IH (<[w := rest]> batches) (worker_step e rom_entry dir))
      as (lines & Hperm & Hrun).
    exists (rom_entry :: lines). split; [|exact Hrun].
    rewrite Hperm. apply concat_insert_tail. exact Hw.
Qed.

Lemma worker_step_commute e l1 l2 dir :
  (forall path g1 g2,
     par_rom e l1 = Some (path, g1) -> par_rom e l2 = Some (path, g2) ->
     g1 = g2) ->
  worker_step e l1 (worker_step e l2 dir)
  = worker_step e l2 (worker_step e l1 dir).
Proof.
  intros Hagree. unfold worker_step.
  destruct (Str.is_empty l1), (Str.is_empty l2); try reflexivity.
  destruct (par_rom e l1) as [[p1 g1]|] eqn:H1,
           (par_rom e l2) as [[p2 g2]|] eqn:H2; try reflexivity.
  destruct (decide (p1 = p2)) as [->|Hne].
  - rewrite (Hagree p2 g1 g2 eq_refl eq_refl). reflexivity.
  - apply insert_insert_ne. exact Hne.
Qed.

Lemma steps_permutation e lines1 lines2 :
  lines1 ≡ₚ lines2 ->
  (forall l1 l2 path g1 g2,
     In l1 lines1 -> In l2 lines1 ->
     par_rom e l1 = Some (path, g1) -> par_rom e l2 = Some (path, g2) ->
     g1 = g2) ->
  forall dir, steps e dir lines1 = steps e dir lines2.
Proof.
  unfold steps.
  induction 1 as [|x l l' Hperm IH|x y l|l l' l'' Hperm1 IH1 Hperm2 IH2];
    intros Hagree dir.
  - reflexivity.
  - cbn [foldl]. apply IH. intros l1 l2 path g1 g2 H1 H2.
    apply Hagree; right; assumption.
  - cbn [foldl]. f_equal. apply worker_step_commute.
    intros path g1 g2. apply Hagree; cbn; auto.
  - rewrite IH1 by exact Hagree. apply IH2.
    intros l1 l2 path g1 g2 H1 H2. apply Hagree.
    + apply (Permutation_in _ (Permutation_sym Hperm1) H1).
    + apply (Permutation_in _ (Permutation_sym Hperm1) H2).
Qed.

Lemma run_workers_any_schedule e rom_files sched1 sched2 :
  writes_agree e rom_files ->
  run_workers e sched1 (par_batches e rom_files) ∅
  = run_workers e sched2 (par_batches e rom_files) ∅.
Proof.
  intros Hagree.
  destruct (run_workers_steps e sched1 (par_batches e rom_files) ∅)
    as (lines1 & Hperm1 & ->).
  destruct (run_workers_steps e sched2 (par_batches e rom_files) ∅)
    as (lines2 & Hperm2 & ->).
  apply steps_permutation; [rewrite Hperm1, Hperm2; reflexivity|].
  assert (Hin : forall l, In l lines1 -> In l rom_files).
  { intros l Hl. apply (Permutation_in _ (concat_par_batches e rom_files)).
    apply (Permutation_in _ Hperm1 Hl). }
  intros l1 l2 path g1 g2 H1 H2. apply Hagree; auto.
Qed.

Lemma external_loop_with_schedule e sched dirs :
  forall first_game file,
    external_loop (with_schedule e sched) dirs first_game file
    = external_loop e dirs first_game file.
Proof.
  induction dirs as [|game_dir rest IH]; intros first_game file;
    [reflexivity|].
  cbn [external_loop].
  change (external_game (with_schedule e sched) game_dir)
    with (external_game e game_dir).
  destruct (external_game e game_dir) as [[g|]|]; cbn [sh_bind];
    [apply IH|apply IH|reflexivity].
Qed.

Lemma run_workers_with_schedule e sched' sched :
  forall batches dir,
    run_workers (with_schedule e sched') sched batches dir
    = run_workers e sched batches dir.
Proof.
  induction sched as [|w sched IH]; intros batches dir.
  - reflexivity.
  - cbn [run_workers].
    destruct (batches !! w) as [[|rom_entry rest]|]; apply IH.
Qed.

(** X3.  When no two lines of [ROM_FILES] make the workers write different
    entries to one game file, the parallel driver leaves the same catalog,
    exit status and current-game file whatever the order in which the
    workers take their steps. *)
Theorem parallel_catalog_any_schedule e rom_files sched :
  par_rom_files e = Some rom_files ->
  writes_agree e rom_files ->
  generate_gamelist_parallel (with_schedule e sched)
  = generate_gamelist_parallel e.
Proof.
  intros Hfiles Hagree. unfold generate_gamelist_parallel.
  change (have_tools (with_schedule e sched)) with (have_tools e).
  change (par_rom_files (with_schedule e sched)) with (par_rom_files e).
  destruct (negb (have_tools e)); [reflexivity|]. rewrite Hfiles.
  change (schedule (with_schedule e sched)) with sched.
  change (par_batches (with_schedule e sched) rom_files)
    with (par_batches e rom_files).
  rewrite run_workers_with_schedule.
  rewrite (run_workers_any_schedule e rom_files sched (schedule e) Hagree).
  unfold par_assemble.
  destruct (merge_loop _ _ true [LBracket]) as [first_game file].
  change (external_dirs (with_schedule e sched)) with (external_dirs e).
  rewrite external_loop_with_schedule. reflexivity.
Qed.

Lemma parallel_catalog_any_schedule_witness :
  generate_gamelist_parallel (with_schedule (two_games []) [1; 0]%nat)
  = generate_gamelist_parallel (two_games []).
Proof.
  apply (parallel_catalog_any_schedule (two_games [])
           ["NES/Mario.nes"; "SNES/Zelda.sfc"]).
  - reflexivity.
  - intros l1 l2 path g1 g2 [<-|[<-|[]]] [<-|[<-|[]]]; vm_compute;
      congruence.
Defined.

(** ** The recency threshold in seconds *)

Lemma wrap64_in_range z : - 2 ^ 63 <= z < 2 ^ 63 -> wrap64 z = z.
Proof.
  intros Hz. unfold wrap64. rewrite Z.mod_small; lia.
Qed.

Lemma diff_days_lt_7 now added_epoch :
  - 2 ^ 63 <= now - added_epoch < 2 ^ 63 ->
  (diff_days now added_epoch <? 7) = (now - added_epoch <? 604800).
Proof.
  intros Hz. unfold diff_days. rewrite wrap64_in_range by exact Hz.
  destruct (Z.ltb_spec (now - added_epoch) 604800) as [Hlt|Hge].
  - apply Z.ltb_lt.
    destruct (Z.lt_ge_cases (now - added_epoch) 0) as [Hneg|Hpos].
    + pose proof (Z.quot_opp_l (-(now - added_epoch)) 86400 ltac:(lia)) as H.
      rewrite Z.opp_involutive in H. rewrite H.
      pose proof (Z.quot_pos (-(now - added_epoch)) 86400
                    ltac:(lia) ltac:(lia)).
      lia.
    + apply Z.quot_lt_upper_bound; lia.
  - apply Z.ltb_ge. apply Z.quot_le_lower_bound; lia.
Qed.

(** X4.  An added date that [date] reads makes the entry new exactly while
    fewer than 604800 seconds lie between the epoch of the date and the
    time of the build; a date in the future always does.  (Both epochs are
    taken within the range of the shell's 64-bit arithmetic.) *)
Theorem new_for_seven_days errexit e added added_epoch :
  added <> "" -> added <> "DATE_PLACEHOLDER" ->
  date_epoch e added = Some added_epoch ->
  - 2 ^ 63 <= now_epoch e - added_epoch < 2 ^ 63 ->
  is_new_by_date errexit e added
  = Ok (if now_epoch e - added_epoch <? 604800 then "true" else "")
  /\ (now_epoch e <= added_epoch ->
      is_new_by_date errexit e added = Ok "true").
Proof.
  intros Hempty Hplaceholder Hdate Hrange.
  assert (H : is_new_by_date errexit e added
              = Ok (if now_epoch e - added_epoch <? 604800
                    then "true" else "")).
  { unfold is_new_by_date.
    apply is_empty_false in Hempty. rewrite Hempty.
    apply String.eqb_neq in Hplaceholder. rewrite Hplaceholder.
    cbn [negb andb]. rewrite Hdate, diff_days_lt_7 by exact Hrange.
    reflexivity. }
  split; [exact H|]. intros Hfuture. rewrite H.
  destruct (Z.ltb_spec (now_epoch e - added_epoch) 604800); [reflexivity|lia].
Qed.

Lemma new_for_seven_days_witness :
  is_new_by_date true empty_world "2025-01-26" = Ok "true"
  /\ is_new_by_date true empty_world "2025-01-25" = Ok "".
Proof.
  split.
  - refine (proj1 (new_for_seven_days true empty_world "2025-01-26"
                     1737849600 _ _ _ _));
      [discriminate|discriminate|reflexivity|
       vm_compute; split; [discriminate|reflexivity]].
  - refine (proj1 (new_for_seven_days true empty_world "2025-01-25"
                     1737763200 _ _ _ _));
      [discriminate|discriminate|reflexivity|
       vm_compute; split; [discriminate|reflexivity]].
Defined.

(** ** The order and the fields of the entries of a catalog *)

Lemma sequential_catalog_split e games :
  gamelist (generate_gamelist_sequential e) = Some games ->
  exists roms exts,
    games = roms ++ exts
    /\ Forall (seq_entry e) roms /\ Forall (external_entry e) exts.
Proof.
  unfold generate_gamelist_sequential.
  destruct (negb (have_tools e)); [discriminate|].
  destruct (seq_rom_files e) as [rom_files|] eqn:Hfiles; [|discriminate].
  destruct (seq_rom_loop e rom_files unset_vars true [LBracket])
    as [[[v first_game] file]|] eqn:Hroms; [|discriminate].
  destruct (external_loop e (external_dirs e) first_game file)
    as [[first_game' file']|] eqn:Hext; [|discriminate].
  apply (seq_rom_loop_holds _ _ _ _ _ []) in Hroms; [|split; reflexivity].
  destruct Hroms as (roms & Hholds & Hroms).
  apply (external_loop_holds _ _ _ _ _ _ _ Hholds) in Hext.
  destruct Hext as (exts & Hholds' & Hexts).
  rewrite (close_and_check_holds _ _ _ Hholds').
  intros Hgames. exists roms, exts. split; [|split].
  - destruct (get_current_week_game_id e);
      [destruct (external_loop e _ _ _)|]; cbn in Hgames; congruence.
  - eapply Forall_impl; [exact Hroms|].
    intros g (v0 & rom_entry & Hin & Hg).
    exists rom_files, v0, rom_entry. auto.
  - exact Hexts.
Qed.

Lemma parallel_catalog_split e games :
  gamelist (generate_gamelist_parallel e) = Some games ->
  exists roms exts,
    games = roms ++ exts
    /\ Forall (par_entry e) roms /\ Forall (external_entry e) exts.
Proof.
  unfold generate_gamelist_parallel.
  destruct (negb (have_tools e)); [discriminate|].
  destruct (par_rom_files e) as [rom_files|] eqn:Hfiles; [|discriminate].
  pose proof (workers_written e rom_files) as Hdir.
  set (dir := run_workers e (schedule e) (par_batches e rom_files) ∅) in *.
  unfold par_assemble.
  destruct (merge_loop dir (Str.words (GAME_FILES dir)) true [LBracket])
    as [first_game file] eqn:Hmerge.
  destruct (external_loop e (external_dirs e) first_game file)
    as [[first_game' file']|] eqn:Hext; [|discriminate].
  apply (merge_loop_holds _ _ _ _ []) in Hmerge; [|split; reflexivity].
  destruct Hmerge as (roms & Hholds & Hroms).
  apply (external_loop_holds _ _ _ _ _ _ _ Hholds) in Hext.
  destruct Hext as (exts & Hholds' & Hexts).
  rewrite (close_and_check_holds _ _ _ Hholds').
  intros Hgames. exists roms, exts. split; [|split].
  - destruct (get_current_week_game_id e); cbn in Hgames; congruence.
  - eapply Forall_impl; [exact Hroms|].
    intros g (game_file & Hg).
    destruct (Hdir _ _ Hg) as (rom_entry & Hin & Hbuilt).
    exists rom_files, rom_entry. auto.
  - exact Hexts.
Qed.

Lemma get_core_from_dir_not_external system :
  or_default (get_core_from_dir system) "null" <> "external".
Proof.
  unfold get_core_from_dir.
  repeat match goal with
  | |- context [String.eqb system ?k] =>
      destruct (String.eqb system k); cbn; [discriminate|]
  end.
  discriminate.
Qed.

(** What a ROM entry is made of. *)
Lemma jq_n_rom_fields e game_id cover page core rom_path save v g :
  jq_n_rom e game_id cover page core rom_path save v = Some g ->
  Game.id g = game_id
  /\ Game.title g = or_default (title v) game_id
  /\ Game.pageUrl g = page
  /\ Game.coverArt g = cover
  /\ Game.core g = or_default core "null"
  /\ Game.romPath g = or_default rom_path "null"
  /\ Game.external g = None.
Proof.
  unfold jq_n_rom. intros H.
  destruct (jq_text e (enable_score v)) as [score|]; [|discriminate].
  destruct (jq_text e (controls_json v)) as [ctrl|]; [|discriminate].
  cbn in H. injection H as <-. cbn. repeat split; reflexivity.
Qed.

Lemma rom_entry_fields e v0 rom_entry g :
  seq_builds e v0 rom_entry g \/ par_builds e rom_entry g ->
  let game_id := game_id_of (split_entry rom_entry).2 in
  Game.id g = game_id
  /\ Game.pageUrl g = LAUNCHER_PAGE +:+ "?game=" +:+ game_id
  /\ Game.coverArt g
     = cover_art e (rom_game_dir game_id +:+ "cover.png") game_id
  /\ Game.core g <> "external"
  /\ Game.external g = None.
Proof.
  intros [[v H]|[path H]]; cbn zeta.
  - apply seq_rom_inv in H. cbn zeta in H.
    destruct H as [(_ & _ & [=])|(_ & v2 & n & _ & _ & _ & H)].
    symmetry in H. apply jq_n_rom_fields in H.
    destruct H as (Hid & _ & Hpage & Hcover & Hcore & _ & Hext).
    rewrite Hcore. repeat split; try assumption.
    apply get_core_from_dir_not_external.
  - apply par_rom_inv in H. cbn zeta in H.
    destruct H as (_ & _ & _ & _ & v2 & n & _ & _ & H).
    apply jq_n_rom_fields in H.
    destruct H as (Hid & _ & Hpage & Hcover & Hcore & _ & Hext).
    rewrite Hcore. repeat split; try assumption.
    apply get_core_from_dir_not_external.
Qed.

(** What an external entry is made of. *)
Lemma external_game_fields e game_dir g :
  external_game e game_dir = Ok (Some g) ->
  Game.id g = Str.last_field "/" game_dir
  /\ Game.core g = "external"
  /\ Game.hide g <> "yes"
  /\ Game.title g <> ""
  /\ Game.pageUrl g <> ""
  /\ Game.coverArt g
     = (if is_file e (game_dir +:+ "/cover.png")
        then "/games/" +:+ Str.last_field "/" game_dir +:+ "/cover.png"
        else "/" +:+ DEFAULT_COVER)
  /\ exists x, Game.external g = Some x /\ Game.game_type x = "external".
Proof.
  unfold external_game. destruct (is_dir e game_dir); [|discriminate].
  cbn [negb].
  destruct (metadata_yaml e (external_metadata_file game_dir)) as [| |doc];
    try discriminate.
  cbn zeta.
  destruct (Jq.e_ok doc) eqn:Hok; [|discriminate].
  destruct doc as [|b|n|s|items|fields]; try discriminate.
  rewrite !(assign_object true (Jq.get_r _ _) fields _ eq_refl).
  rewrite extract_object. cbn [sh_bind]. cbn [hide title added new_flag].
  destruct (String.eqb_spec
              (captured (Jq.get_r "game_type" (JStr "") (JObj fields)))
              "external") as [Htype|Htype]; [|discriminate].
  cbn [negb].
  destruct (String.eqb_spec
              (captured (Jq.get_r "hide" (JStr "") (JObj fields))) "yes")
    as [Hhide|Hhide]; [discriminate|].
  destruct (Str.is_empty (captured (Jq.get_r "title" (JStr "") (JObj fields))))
    eqn:Htitle; [discriminate|].
  destruct (Str.is_empty
              (captured (Jq.get_r "external_url" (JStr "") (JObj fields))))
    eqn:Hurl; [discriminate|].
  cbn [orb].
  destruct (is_new_by_date true e _) as [is_new|]; [|discriminate].
  cbn [sh_bind]. unfold jq_n_external.
  cbn [enable_score controls_json set_new_flag].
  destruct (jq_text e (captured (Jq.get_r "enable_score" _ _)))
    as [score|]; [|cbn; discriminate].
  destruct (jq_text e (captured (Jq.get_c "controls" _ _)))
    as [ctrl|]; [|cbn; discriminate].
  cbn [mbind option_bind]. intros [= <-].
  cbn [Game.id Game.core Game.hide Game.title Game.pageUrl Game.coverArt
       Game.external hide title].
  repeat split; try assumption; try reflexivity.
  - unfold or_default. rewrite Htitle. apply is_empty_false. exact Htitle.
  - destruct (negb (Str.is_empty _) && _) eqn:Hlaunch.
    + apply andb_prop in Hlaunch as [Hlaunch _].
      apply negb_true_iff in Hlaunch. apply is_empty_false. exact Hlaunch.
    + apply is_empty_false. exact Hurl.
  - eexists. split; [reflexivity|]. cbn. exact Htype.
Qed.

(** X5.  In a catalog either driver writes, the ROM entries come first and
    the external entries after them, and the core field tells them apart:
    it is "external" for the external entries and never for a ROM entry. *)
Theorem catalog_roms_then_externals e games :
  gamelist (generate_gamelist_sequential e) = Some games
  \/ gamelist (generate_gamelist_parallel e) = Some games ->
  exists roms exts,
    games = roms ++ exts
    /\ Forall (fun g => Game.core g <> "external" /\ Game.external g = None)
         roms
    /\ Forall (fun g => Game.core g = "external"
                        /\ is_Some (Game.external g)) exts.
Proof.
  assert (Hexternal : forall exts,
            Forall (external_entry e) exts ->
            Forall (fun g => Game.core g = "external"
                             /\ is_Some (Game.external g)) exts).
  { intros exts H. eapply Forall_impl; [exact H|].
    intros g (game_dir & _ & Hg). apply external_game_fields in Hg.
    destruct Hg as (_ & Hcore & _ & _ & _ & _ & x & Hx & _).
    split; [exact Hcore|]. exists x. exact Hx. }
  intros [H|H].
  - apply sequential_catalog_split in H.
    destruct H as (roms & exts & -> & Hroms & Hexts).
    exists roms, exts. split; [reflexivity|]. split; [|auto].
    eapply Forall_impl; [exact Hroms|].
    intros g (rom_files & v0 & rom_entry & _ & _ & Hg).
    pose proof (rom_entry_fields e v0 rom_entry g (or_introl Hg)) as Hf.
    cbn zeta in Hf. tauto.
  - apply parallel_catalog_split in H.
    destruct H as (roms & exts & -> & Hroms & Hexts).
    exists roms, exts. split; [reflexivity|]. split; [|auto].
    eapply Forall_impl; [exact Hroms|].
    intros g (rom_files & rom_entry & _ & _ & Hg).
    pose proof (rom_entry_fields e unset_vars rom_entry g (or_intror Hg))
      as Hf.
    cbn zeta in Hf. tauto.
Qed.

Lemma catalog_roms_then_externals_witness :
  exists roms exts,
    gamelist (generate_gamelist_sequential mixed_world) = Some (roms ++ exts)
    /\ Forall (fun g => Game.core g <> "external" /\ Game.external g = None)
         roms
    /\ Forall (fun g => Game.core g = "external"
                        /\ is_Some (Game.external g)) exts.
Proof.
  destruct (gamelist (generate_gamelist_sequential mixed_world))
    as [games|] eqn:Hgames; [|vm_compute in Hgames; discriminate].
  destruct (catalog_roms_then_externals mixed_world games (or_introl Hgames))
    as (roms & exts & -> & Hroms & Hexts).
  exists roms, exts. auto.
Defined.

(** X6.  Every entry of a written catalog has a page URL, so the front end
    never falls back to the link "#"; an external entry moreover is never
    hidden and always has a title. *)
Theorem catalog_entries_linked e games :
  gamelist (generate_gamelist_sequential e) = Some games
  \/ gamelist (generate_gamelist_parallel e) = Some games ->
  Forall (fun g =>
            Game.pageUrl g <> ""
            /\ (Game.core g = "external" ->
                Game.hide g <> "yes" /\ Game.title g <> ""))
    games.
Proof.
  assert (Hrom : forall v0 rom_entry g,
            seq_builds e v0 rom_entry g \/ par_builds e rom_entry g ->
            Game.pageUrl g <> ""
            /\ (Game.core g = "external" ->
                Game.hide g <> "yes" /\ Game.title g <> "")).
  { intros v0 rom_entry g Hg. apply rom_entry_fields in Hg.
    cbn zeta in Hg. destruct Hg as (_ & Hpage & _ & Hcore & _).
    split; [rewrite Hpage; discriminate|]. intros Hext. contradiction. }
  assert (Hext : forall game_dir g,
            external_game e game_dir = Ok (Some g) ->
            Game.pageUrl g <> ""
            /\ (Game.core g = "external" ->
                Game.hide g <> "yes" /\ Game.title g <> "")).
  { intros game_dir g Hg. apply external_game_fields in Hg. tauto. }
  intros [H|H].
  - apply sequential_catalog_entries in H.
    eapply Forall_impl; [exact H|].
    intros g [(rom_files & v0 & rom_entry & _ & _ & Hg)|(game_dir & _ & Hg)].
    + apply (Hrom v0 rom_entry). left. exact Hg.
    + apply (Hext game_dir). exact Hg.
  - apply parallel_catalog_entries in H.
    eapply Forall_impl; [exact H|].
    intros g [(rom_files & rom_entry & _ & _ & Hg)|(game_dir & _ & Hg)].
    + apply (Hrom unset_vars rom_entry). right. exact Hg.
    + apply (Hext game_dir). exact Hg.
Qed.

Lemma catalog_entries_linked_witness :
  exists games,
    gamelist (generate_gamelist_parallel mixed_world) = Some games
    /\ Forall (fun g =>
                 Game.pageUrl g <> ""
                 /\ (Game.core g = "external" ->
                     Game.hide g <> "yes" /\ Game.title g <> ""))
         games.
Proof.
  destruct (gamelist (generate_gamelist_parallel mixed_world))
    as [games|] eqn:Hgames; [|vm_compute in Hgames; discriminate].
  exists games. split; [reflexivity|].
  apply (catalog_entries_linked mixed_world games (or_intror Hgames)).
Defined.

(** ** Where the two drivers agree *)

Lemma is_new_by_date_errexit e a n :
  is_new_by_date true e a = Ok n -> is_new_by_date false e a = Ok n.
Proof.
  unfold is_new_by_date.
  destruct (_ && _); [|auto]. destruct (date_epoch e a); [auto|discriminate].
Qed.

Lemma is_new_by_date_no_errexit e a n :
  is_new_by_date false e a = Ok n ->
  is_new_by_date true e a = Ok n \/ is_new_by_date true e a = Errexit.
Proof.
  unfold is_new_by_date.
  destruct (_ && _); [|auto]. destruct (date_epoch e a); auto.
Qed.

(** Without a metadata file both bodies start from the same variables, but
    for the announcement message the sequential loop may have kept. *)
Lemma defaults_without_metadata e game_id v0 :
  announcement_message v0 = "" ->
  seq_overlay_again e game_id NoFile
    (set_new_flag "" (rom_defaults game_id v0))
  = par_overlay_again e game_id NoFile
      (set_new_flag "" (rom_defaults game_id unset_vars)).
Proof.
  intros Hmsg. unfold seq_overlay_again, par_overlay_again.
  cbn [has_metadata_file andb title set_new_flag rom_defaults].
  unfold set_new_flag, rom_defaults.
  cbn [title developer year genre recommended added hide enable_score
       to_start problem controls_json new_flag announcement_message
       unset_vars].
  rewrite Hmsg. reflexivity.
Qed.

(** X7.  For a ROM that has no metadata file the two drivers build the same
    entry: what the sequential driver builds (with no announcement message
    left over from an earlier entry) the parallel driver builds too, unless
    it filters the file name; and what the parallel driver builds the
    sequential driver builds too, unless it stops on the entry. *)
Theorem drivers_agree_without_metadata e v0 rom_entry g :
  metadata_yaml e
    (rom_metadata_file (game_id_of (split_entry rom_entry).2)) = NoFile ->
  announcement_message v0 = "" ->
  (seq_builds e v0 rom_entry g ->
   Ere.grep re_reserved_name true (split_entry rom_entry).2 = false ->
   Ere.grep re_helper_ext true (split_entry rom_entry).2 = false ->
   par_builds e rom_entry g)
  /\ (par_builds e rom_entry g ->
      seq_builds e v0 rom_entry g \/ seq_rom e v0 rom_entry = Errexit).
Proof.
  intros Hmeta Hmsg. split.
  - intros [v H] Hname Hext. apply seq_rom_inv in H. cbn zeta in H.
    destruct H as [(_ & _ & [=])|(Hbios & v2 & n & Hm & Hd & -> & Hg)].
    rewrite Hmeta in Hm, Hd, Hg. injection Hm as <-.
    rewrite (defaults_without_metadata e _ v0 Hmsg) in Hd, Hg.
    apply is_new_by_date_errexit in Hd.
    exists (game_file (TEMP_DIR e)
              (game_id_of (split_entry rom_entry).2)).
    unfold par_rom, par_rom_sh.
    destruct (split_entry rom_entry) as [sub fn]. cbn [fst snd] in *.
    rewrite Hname, Hext.
    apply String.eqb_neq in Hbios. rewrite Hbios.
    rewrite Hmeta. cbn [par_metadata sh_bind]. rewrite Hd. cbn [sh_bind].
    rewrite <- Hg. reflexivity.
  - intros [path H]. apply par_rom_inv in H. cbn zeta in H.
    destruct H as (_ & _ & Hbios & _ & v2 & n & Hm & Hd & Hg).
    rewrite Hmeta in Hm, Hd, Hg. injection Hm as <-.
    rewrite <- (defaults_without_metadata e _ v0 Hmsg) in Hd, Hg.
    unfold seq_builds, seq_rom.
    destruct (split_entry rom_entry) as [sub fn]. cbn [fst snd] in *.
    apply String.eqb_neq in Hbios. rewrite Hbios.
    rewrite Hmeta. cbn [seq_metadata sh_bind].
    destruct (is_new_by_date_no_errexit _ _ _ Hd) as [Hd'|Hd'];
      rewrite Hd'; cbn [sh_bind]; [left|right; reflexivity].
    eexists. rewrite Hg. reflexivity.
Qed.

Lemma drivers_agree_without_metadata_witness :
  exists g,
    seq_builds bare_world unset_vars "NES/Mario.nes" g
    /\ par_builds bare_world "NES/Mario.nes" g.
Proof.
  eexists.
  assert (Hb : seq_builds bare_world unset_vars "NES/Mario.nes" _)
    by (eexists; vm_compute; reflexivity).
  split; [exact Hb|].
  apply (proj1 (drivers_agree_without_metadata bare_world unset_vars
                  "NES/Mario.nes" _ eq_refl eq_refl) Hb);
    reflexivity.
Defined.

(** ** Text *)

Lemma append_cons c s t : String c s +:+ t = String c (s +:+ t).
Proof. reflexivity. Qed.

Lemma append_nil_l s : "" +:+ s = s.
Proof. reflexivity. Qed.


Lemma append_assoc s t u : (s +:+ t) +:+ u = s +:+ (t +:+ u).
Proof.
  induction s as [|c s IH]; [reflexivity|].
  rewrite !append_cons, IH. reflexivity.
Qed.

Lemma is_empty_append s t :
  Str.is_empty (s +:+ t) = Str.is_empty s && Str.is_empty t.
Proof. destruct s; reflexivity. Qed.

Lemma has_char_append c s t :
  Str.has_char c (s +:+ t) = Str.has_char c s || Str.has_char c t.
Proof.
  induction s as [|d s IH]; [reflexivity|].
  rewrite append_cons. cbn [Str.has_char]. rewrite IH, orb_assoc.
  reflexivity.
Qed.

Lemma chomp_no_newline s : Str.has_char "010" s = false -> Str.chomp s = s.
Proof.
  induction s as [|c s IH]; [reflexivity|]. cbn [Str.has_char Str.chomp].
  intros H. apply orb_false_elim in H as [Hc Hs]. rewrite (IH Hs).
  rewrite Ascii.eqb_sym, Hc, andb_false_r. reflexivity.
Qed.

(** ** The progress tracker *)

Lemma quot_div_nonneg a b : 0 <= a -> 0 < b -> Z.quot a b = a / b.
Proof. intros Ha Hb. apply Z.quot_div_nonneg; lia. Qed.

Lemma calculate_percentage_div processed total :
  0 <= processed < 2 ^ 56 -> 0 < total ->
  Tracker.calculate_percentage processed total = processed * 100 / total.
Proof.
  intros Hp Ht. unfold Tracker.calculate_percentage.
  destruct (Z.gtb_spec total 0); [|lia].
  rewrite wrap64_in_range by lia. apply quot_div_nonneg; lia.
Qed.







(** X10.  The overall percentage the monitor shows lies between the
    percentages of the two runs. *)
Theorem overall_between_the_two GAMELIST_LOG THUMBNAILS_LOG
    gamelist_processed thumbnails_processed total_roms :
  0 <= gamelist_processed < 2 ^ 55 ->
  0 <= thumbnails_processed < 2 ^ 55 ->
  0 <= total_roms < 2 ^ 55 ->
  let shown :=
    Tracker.display_progress GAMELIST_LOG THUMBNAILS_LOG gamelist_processed
      thumbnails_processed total_roms in
  Z.min (Tracker.gamelist_percentage shown)
    (Tracker.thumbnails_percentage shown)
  <= Tracker.overall_percentage shown
  <= Z.max (Tracker.gamelist_percentage shown)
       (Tracker.thumbnails_percentage shown).
Proof.
  intros Hg Ht Hn. cbv zeta. unfold Tracker.display_progress.
  cbn [Tracker.gamelist_percentage Tracker.thumbnails_percentage
       Tracker.overall_percentage].
  rewrite !wrap64_in_range by lia.
  destruct (Z.eq_dec total_roms 0) as [->|Hpos].
  - unfold Tracker.calculate_percentage.
    change (0 * 2 >? 0) with false. change (0 >? 0) with false.
    cbv iota.
    destruct (Z.gtb_spec gamelist_processed 0),
             (Z.gtb_spec thumbnails_processed 0),
             (Z.gtb_spec (gamelist_processed + thumbnails_processed) 0);
      cbv iota; lia.
  - rewrite !calculate_percentage_div by lia.
    assert (Hdouble : forall x,
              (x * 2) * 100 / (total_roms * 2) = x * 100 / total_roms).
    { intros x. replace (x * 2 * 100) with (x * 100 * 2) by lia.
      apply Z.div_mul_cancel_r; lia. }
    split.
    + destruct (Z.le_ge_cases gamelist_processed thumbnails_processed).
      * rewrite Z.min_l by (apply Z.div_le_mono; lia).
        rewrite <- (Hdouble gamelist_processed).
        apply Z.div_le_mono; lia.
      * rewrite Z.min_r by (apply Z.div_le_mono; lia).
        rewrite <- (Hdouble thumbnails_processed).
        apply Z.div_le_mono; lia.
    + destruct (Z.le_ge_cases gamelist_processed thumbnails_processed).
      * rewrite Z.max_r by (apply Z.div_le_mono; lia).
        rewrite <- (Hdouble thumbnails_processed).
        apply Z.div_le_mono; lia.
      * rewrite Z.max_l by (apply Z.div_le_mono; lia).
        rewrite <- (Hdouble gamelist_processed).
        apply Z.div_le_mono; lia.
Qed.

Lemma overall_between_the_two_witness :
  Z.min (Tracker.gamelist_percentage
           (Tracker.display_progress None None 7 12 20))
    (Tracker.thumbnails_percentage
       (Tracker.display_progress None None 7 12 20))
  <= Tracker.overall_percentage (Tracker.display_progress None None 7 12 20)
  <= Z.max (Tracker.gamelist_percentage
              (Tracker.display_progress None None 7 12 20))
       (Tracker.thumbnails_percentage
          (Tracker.display_progress None None 7 12 20)).
Proof. apply (overall_between_the_two None None 7 12 20); lia. Defined.

(** ** The log files *)

Lemma wc_l_append s t : Text.wc_l (s +:+ t) = Text.wc_l s + Text.wc_l t.
Proof.
  induction s as [|c s IH]; [reflexivity|].
  rewrite append_cons. cbn [Text.wc_l]. rewrite IH. lia.
Qed.

Lemma wc_l_no_newline s : Str.has_char "010" s = false -> Text.wc_l s = 0.
Proof.
  induction s as [|c s IH]; [reflexivity|]. cbn [Str.has_char Text.wc_l].
  intros H. apply orb_false_elim in H as [Hc Hs].
  rewrite Ascii.eqb_sym, Hc, (IH Hs). reflexivity.
Qed.

Lemma without_final_newline_line s line :
  Tracker.without_final_newline (s +:+ line +:+ String "010" "")
  = s +:+ line.
Proof.
  rewrite <- append_assoc. generalize (s +:+ line). clear s line.
  induction s as [|c s IH]; [reflexivity|].
  rewrite append_cons. cbn [Tracker.without_final_newline].
  rewrite IH, is_empty_append, andb_false_r. reflexivity.
Qed.

Lemma last_field_after_newline t line :
  Str.has_char "010" line = false ->
  Str.last_field "010" (t +:+ String "010" line) = line.
Proof.
  intros Hline. induction t as [|c t IH].
  - cbn [String.append Str.last_field]. rewrite append_nil_l.
    cbn [Str.last_field]. rewrite Hline. reflexivity.
  - rewrite append_cons. cbn [Str.last_field].
    rewrite has_char_append. cbn [Str.has_char].
    rewrite Ascii.eqb_refl, orb_true_r. exact IH.
Qed.

Lemma last_field_no_delimiter c s :
  Str.has_char c s = false -> Str.last_field c s = s.
Proof.
  destruct s as [|d s]; [reflexivity|]. cbn [Str.has_char Str.last_field].
  intros H. apply orb_false_elim in H as [Hd Hs]. rewrite Hs, Hd.
  reflexivity.
Qed.

Lemma tail_n1_line text line :
  ended text -> Str.has_char "010" line = false ->
  Tracker.tail_n1 (text +:+ line +:+ String "010" "") = line.
Proof.
  intros Hended Hline. unfold Tracker.tail_n1.
  rewrite without_final_newline_line.
  destruct Hended as [->|[t ->]].
  - rewrite append_nil_l. apply last_field_no_delimiter. exact Hline.
  - rewrite append_assoc. change (String "010" "" +:+ line)
      with (String "010" line).
    apply last_field_after_newline. exact Hline.
Qed.

Lemma appended_ended lines :
  forall text,
    ended text ->
    exists text',
      Tracker.appended lines (Some text) = Some text' /\ ended text'.
Proof.
  induction lines as [|line rest IH]; intros text Hended.
  - exists text. split; [reflexivity|exact Hended].
  - cbn [Tracker.appended foldl]. apply IH. right.
    exists (text +:+ line). cbn [default from_option id].
    rewrite append_assoc. reflexivity.
Qed.

Lemma count_appended lines :
  Forall (fun line => Str.has_char "010" line = false) lines ->
  forall l,
    Tracker.count_processed_files (Tracker.appended lines l)
    = Tracker.count_processed_files l + Z.of_nat (length lines).
Proof.
  induction 1 as [|line rest Hline _ IH]; intros l.
  - cbn. lia.
  - change (Tracker.appended (line :: rest) l)
      with (Tracker.appended rest (Tracker.echo_append line l)).
    rewrite IH. cbn [length].
    unfold Tracker.echo_append, Tracker.count_processed_files.
    rewrite !wc_l_append, (wc_l_no_newline _ Hline).
    destruct l; cbn; lia.
Qed.

(** X11.  A log that the runs append one line per file to, starting from no
    file, counts the files and remembers the last one: after [n] lines
    without newlines [count_processed_files] gives [n], and
    [get_last_processed] gives the last line (or "None" when there is
    none). *)
Theorem log_counts_every_line lines :
  Forall (fun line => Str.has_char "010" line = false) lines ->
  Tracker.count_processed_files (Tracker.appended lines None)
  = Z.of_nat (length lines)
  /\ Tracker.get_last_processed (Tracker.appended lines None)
     = List.last lines "None".
Proof.
  intros Hlines. split; [rewrite count_appended by exact Hlines; reflexivity|].
  induction lines as [|line front _] using rev_ind; [reflexivity|].
  - apply Forall_app in Hlines as [_ Hline].
    apply Forall_inv in Hline.
    rewrite last_last. unfold Tracker.appended. rewrite foldl_app.
    cbn [foldl]. fold (Tracker.appended front None).
    assert (Hfront : exists text,
              default "" (Tracker.appended front None) = text /\ ended text).
    { destruct front as [|l0 front]; [exists ""; split; [reflexivity|left; reflexivity]|].
      cbn [Tracker.appended foldl].
      destruct (appended_ended front (l0 +:+ String "010" ""))
        as (text' & Heq & Hended); [right; exists l0; reflexivity|].
      exists text'. fold (Tracker.appended front
                            (Tracker.echo_append l0 None)).
      unfold Tracker.echo_append at 1. cbn [default from_option id].
      rewrite append_nil_l, Heq. split; [reflexivity|exact Hended]. }
    destruct Hfront as (text & Htext & Hended).
    unfold Tracker.echo_append, Tracker.get_last_processed. rewrite Htext.
    rewrite !is_empty_append, !andb_false_r. cbn [negb].
    rewrite tail_n1_line by assumption.
    apply chomp_no_newline. exact Hline.
Qed.

Lemma log_counts_every_line_witness :
  Tracker.count_processed_files
    (Tracker.appended ["/tmp/test_roms/game_1.nes"; "/tmp/test_roms/game_2.nes"]
       None) = 2
  /\ Tracker.get_last_processed
       (Tracker.appended
          ["/tmp/test_roms/game_1.nes"; "/tmp/test_roms/game_2.nes"] None)
     = "/tmp/test_roms/game_2.nes".
Proof.
  apply (log_counts_every_line
           ["/tmp/test_roms/game_1.nes"; "/tmp/test_roms/game_2.nes"]).
  repeat constructor.
Defined.

Lemma wc_l_nonneg text : 0 <= Text.wc_l text.
Proof.
  induction text as [|c text IH]; cbn [Text.wc_l]; [lia|].
  destruct (Ascii.eqb c "010"); lia.
Qed.

(** X23.  The monitor shows one round for every observation of the logs up
    to the first at which both hold at least [TOTAL_ROMS] lines, and stops
    on that round: never before it, and not at all while there is no such
    observation.  With nothing to count ([TOTAL_ROMS] is 0) it stops on its
    first round. *)
Theorem monitor_stops_when_both_finish TOTAL_ROMS observations :
  match Tracker.main TOTAL_ROMS observations with
  | (rounds, true) =>
      exists before at_last later,
        observations = before ++ at_last :: later
        /\ Forall (fun o => finished TOTAL_ROMS o = false) before
        /\ finished TOTAL_ROMS at_last = true
        /\ length rounds = S (length before)
  | (rounds, false) =>
      Forall (fun o => finished TOTAL_ROMS o = false) observations
      /\ length rounds = length observations
  end
  /\ (TOTAL_ROMS <= 0 ->
      forall first later,
        observations = first :: later ->
        exists round, Tracker.main TOTAL_ROMS observations = ([round], true)).
Proof.
  split.
  - induction observations as [|[g t] later IH]; [split; constructor|].
    cbn [Tracker.main].
    destruct ((Tracker.count_processed_files g >=? TOTAL_ROMS)
              && (Tracker.count_processed_files t >=? TOTAL_ROMS))
      eqn:Hdone.
    + exists [], (g, t), later. repeat split; [constructor|exact Hdone].
    + destruct (Tracker.main TOTAL_ROMS later) as [rounds [|]].
      * destruct IH as (before & at_last & later' & -> & Hbefore & Hat & Hlen).
        exists ((g, t) :: before), at_last, later'.
        repeat split; [constructor; [exact Hdone|exact Hbefore]|exact Hat|].
        cbn [length]. rewrite Hlen. reflexivity.
      * destruct IH as [Hall Hlen]. split.
        -- constructor; [exact Hdone|exact Hall].
        -- cbn [length]. rewrite Hlen. reflexivity.
  - intros Hnone [g t] later ->. cbn [Tracker.main].
    assert (Hg : (Tracker.count_processed_files g >=? TOTAL_ROMS) = true).
    { apply Z.geb_le. destruct g as [text|]; cbn;
        [pose proof (wc_l_nonneg text)|]; lia. }
    assert (Ht : (Tracker.count_processed_files t >=? TOTAL_ROMS) = true).
    { apply Z.geb_le. destruct t as [text|]; cbn;
        [pose proof (wc_l_nonneg text)|]; lia. }
    rewrite Hg, Ht. eexists. reflexivity.
Qed.

(** ** Paths *)

Lemma starts_append p s : Str.starts p (p +:+ s) = true.
Proof.
  induction p as [|c p IH]; [reflexivity|].
  rewrite append_cons. cbn [Str.starts]. rewrite Ascii.eqb_refl. exact IH.
Qed.

Lemma last_field_after_delimiter c t x :
  Str.has_char c x = false ->
  Str.last_field c (t +:+ String c x) = x.
Proof.
  intros Hx. induction t as [|d t IH].
  - rewrite append_nil_l. cbn [Str.last_field].
    rewrite Hx, Ascii.eqb_refl. reflexivity.
  - rewrite append_cons. cbn [Str.last_field].
    rewrite has_char_append. cbn [Str.has_char].
    rewrite Ascii.eqb_refl, orb_true_r. exact IH.
Qed.

Lemma before_last_slash_append s t :
  Str.has_char "/" t = false ->
  Text.before_last_slash (s +:+ String "/" t) = s.
Proof.
  intros Ht. induction s as [|c s IH].
  - rewrite append_nil_l. cbn [Text.before_last_slash]. rewrite Ht.
    reflexivity.
  - rewrite append_cons. cbn [Text.before_last_slash].
    rewrite has_char_append. cbn [Str.has_char].
    rewrite orb_true_r, IH. reflexivity.
Qed.

Lemma strip_trailing_slashes_append s t :
  t <> "" -> Text.strip_trailing_slashes t = t ->
  Text.strip_trailing_slashes (s +:+ t) = s +:+ t.
Proof.
  intros Hne Ht. induction s as [|c s IH]; [exact Ht|].
  rewrite append_cons. cbn [Text.strip_trailing_slashes]. rewrite IH.
  rewrite is_empty_append.
  apply is_empty_false in Hne. rewrite Hne, andb_false_r. reflexivity.
Qed.

Lemma strip_trailing_slashes_no_slash s :
  Str.has_char "/" s = false -> Text.strip_trailing_slashes s = s.
Proof.
  induction s as [|c s IH]; [reflexivity|]. cbn [Str.has_char].
  intros H. apply orb_false_elim in H as [Hc Hs].
  cbn [Text.strip_trailing_slashes]. rewrite (IH Hs).
  rewrite Ascii.eqb_sym, Hc, andb_false_r. reflexivity.
Qed.

Lemma insert_thumb_extension p x :
  Str.has_char "." x = false ->
  insert_thumb (p +:+ String "." x) = p +:+ "_thumb." +:+ x.
Proof.
  intros Hx. induction p as [|c p IH].
  - rewrite !append_nil_l. cbn [insert_thumb]. rewrite Hx. reflexivity.
  - rewrite !append_cons. cbn [insert_thumb].
    rewrite has_char_append. cbn [Str.has_char].
    rewrite orb_true_r, IH. reflexivity.
Qed.

(** [basename] and [dirname] on a table of paths. *)
Example basename_dirname_table :
  map (fun path => (Text.basename path, Text.dirname path))
    [""; "/"; "//"; "a"; "a/"; "a/b"; "/a"; "a//b"; "a/b/"; "/a/b"; "//a";
     "public/"; "public/games/x/cover.png"]
  = [("", "."); ("/", "/"); ("/", "/"); ("a", "."); ("a", "."); ("b", "a");
     ("a", "/"); ("b", "a"); ("b", "a"); ("b", "/a"); ("a", "/");
     ("public", "."); ("cover.png", "public/games/x")].
Proof. vm_compute. reflexivity. Qed.

(** ** The thumbnail generator *)

Lemma full_image_path_public p :
  Thumbnails.full_image_path ("public/" +:+ p) = "public/" +:+ p.
Proof.
  unfold Thumbnails.full_image_path.
  change ("public/" +:+ p) with (String "p" ("ublic/" +:+ p)) at 1.
  cbv iota. change (String "p" ("ublic/" +:+ p)) with ("public/" +:+ p).
  rewrite starts_append. reflexivity.
Qed.

(** X12.  The path the thumbnail script tests and converts always starts
    with "public/"; putting a path in this form twice changes nothing, and
    the form from the web root, with its leading slash, gives the same
    path as the form without it. *)
Theorem full_image_path_under_public relative_path :
  Str.starts "public/" (Thumbnails.full_image_path relative_path) = true
  /\ Thumbnails.full_image_path (Thumbnails.full_image_path relative_path)
     = Thumbnails.full_image_path relative_path
  /\ (Str.starts "/" relative_path = false ->
      Thumbnails.full_image_path (String "/" relative_path)
      = Thumbnails.full_image_path relative_path).
Proof.
  assert (Hform : exists p,
            Thumbnails.full_image_path relative_path = "public/" +:+ p).
  { unfold Thumbnails.full_image_path.
    set (stripped := match relative_path with
                     | String "/" rest => rest
                     | _ => relative_path
                     end).
    destruct (Str.starts "public/" stripped) eqn:Hstarts; cbn [negb].
    - exists (Str.skip 7 stripped).
      do 7 (destruct stripped as [|? stripped]; [discriminate Hstarts|];
            cbn [Str.starts] in Hstarts;
            apply andb_prop in Hstarts as [Hc Hstarts];
            apply Ascii.eqb_eq in Hc; subst).
      reflexivity.
    - exists stripped. reflexivity. }
  destruct Hform as [p Hp]. rewrite Hp. split; [apply starts_append|].
  split; [apply full_image_path_public|].
  intros Hslash. rewrite <- Hp. unfold Thumbnails.full_image_path.
  destruct relative_path as [|c rest]; [reflexivity|].
  cbn [Str.starts] in Hslash. rewrite andb_true_r in Hslash.
  destruct (Ascii.eqb_spec "/" c) as [->|Hne]; [discriminate|].
  destruct c as [[] [] [] [] [] [] [] []]; try reflexivity.
  contradiction Hne. reflexivity.
Qed.

Lemma cover_file_text game_id :
  rom_game_dir game_id +:+ "cover.png"
  = ("public/games/" +:+ game_id) +:+ String "/" "cover.png".
Proof.
  unfold rom_game_dir, GAMES_DIR. rewrite !append_assoc. reflexivity.
Qed.

Lemma thumbnail_path_cover game_id :
  game_id <> "" -> Str.has_char "/" game_id = false ->
  Thumbnails.thumbnail_path (rom_game_dir game_id +:+ "cover.png")
  = "public/games/" +:+ game_id +:+ "/cover_thumb.png".
Proof.
  intros Hne Hslash. rewrite cover_file_text.
  set (dir := "public/games/" +:+ game_id).
  assert (Hdir : Text.strip_trailing_slashes dir = dir).
  { apply strip_trailing_slashes_append; [exact Hne|].
    apply strip_trailing_slashes_no_slash. exact Hslash. }
  assert (Hdir_ne : Str.is_empty dir = false) by reflexivity.
  assert (Hpath : Text.strip_trailing_slashes (dir +:+ String "/" "cover.png")
                  = dir +:+ String "/" "cover.png")
    by (apply strip_trailing_slashes_append; [discriminate|reflexivity]).
  unfold Thumbnails.thumbnail_path, Text.basename, Text.dirname.
  cbv zeta. rewrite Hpath.
  rewrite is_empty_append, andb_false_r.
  rewrite last_field_after_delimiter by reflexivity.
  rewrite has_char_append. cbn [Str.has_char].
  rewrite orb_true_r.
  rewrite before_last_slash_append by reflexivity.
  rewrite Hdir, Hdir_ne.
  unfold dir. rewrite !append_assoc. reflexivity.
Qed.

(** The thumbnail of the cover of a game, as the front end asks for it and
    as the script writes it. *)
Lemma thumbnail_of_cover game_id :
  game_id <> "" -> Str.has_char "/" game_id = false ->
  "public" +:+ grid_cover_src ("/games/" +:+ game_id +:+ "/cover.png")
  = Thumbnails.thumbnail_path
      (Thumbnails.full_image_path (rom_game_dir game_id +:+ "cover.png")).
Proof.
  intros Hne Hslash.
  rewrite (cover_file_text game_id).
  change (("public/games/" +:+ game_id) +:+ String "/" "cover.png")
    with ("public/" +:+ (("games/" +:+ game_id) +:+ String "/" "cover.png")).
  rewrite full_image_path_public.
  change ("public/" +:+ (("games/" +:+ game_id) +:+ String "/" "cover.png"))
    with (("public/games/" +:+ game_id) +:+ String "/" "cover.png").
  rewrite <- cover_file_text.
  rewrite thumbnail_path_cover by assumption.
  unfold grid_cover_src.
  change ("/games/" +:+ game_id +:+ "/cover.png")
    with (String "/" (String "g" ("ames/" +:+ game_id +:+ "/cover.png"))).
  cbn [Str.is_empty negb String.eqb Ascii.eqb Bool.eqb andb].
  replace (String "/" (String "g" ("ames/" +:+ game_id +:+ "/cover.png")))
    with (("/games/" +:+ game_id +:+ "/cover") +:+ String "." "png")
    by (rewrite !append_assoc; reflexivity).
  rewrite insert_thumb_extension by reflexivity.
  rewrite !append_assoc. reflexivity.
Qed.

Lemma last_field_no_slash s : Str.has_char "/" (Str.last_field "/" s) = false.
Proof.
  induction s as [|c s IH]; [reflexivity|]. cbn [Str.last_field].
  destruct (Str.has_char "/" s) eqn:Hs; [exact IH|].
  destruct (Ascii.eqb "/" c) eqn:Hc; [exact Hs|].
  cbn [Str.has_char]. rewrite Hs, Hc. reflexivity.
Qed.

Lemma strip_ext_no_slash s :
  Str.has_char "/" s = false -> Str.has_char "/" (Str.strip_ext s) = false.
Proof.
  induction s as [|c s IH]; [reflexivity|]. cbn [Str.has_char Str.strip_ext].
  intros H. apply orb_false_elim in H as [Hc Hs].
  destruct (Str.has_char "." s).
  - cbn [Str.has_char]. rewrite Hc, (IH Hs). reflexivity.
  - destruct (Ascii.eqb "." c) eqn:Hdot; [reflexivity|].
    cbn [Str.has_char]. rewrite Hc, Hs. reflexivity.
Qed.

(** The id of a ROM is the name of a file without its extension: it has no
    slash. *)
Lemma game_id_no_slash rom_entry :
  Str.has_char "/" (game_id_of (split_entry rom_entry).2) = false.
Proof.
  unfold game_id_of, split_entry. apply strip_ext_no_slash.
  destruct (Str.has_char "/" rom_entry) eqn:Hslash; cbn [snd];
    [apply last_field_no_slash|exact Hslash].
Qed.

(** X13.  The thumbnail the grid of the front end asks for is the file the
    thumbnail script writes.  For every entry of a catalog either driver
    wrote whose id is not empty, ROM or external game: either the entry has
    the placeholder for its cover, or the [src] of its image in the grid, taken under [public/], is
    the path the script gives the thumbnail of [cover.png] in the directory
    of that id under [public/games]. *)
Theorem grid_asks_for_the_thumbnail_written e games :
  gamelist (generate_gamelist_sequential e) = Some games
  \/ gamelist (generate_gamelist_parallel e) = Some games ->
  Forall (fun g =>
            Game.id g <> "" ->
            Game.coverArt g = "/" +:+ DEFAULT_COVER
            \/ "public" +:+ grid_cover_src (Game.coverArt g)
               = Thumbnails.thumbnail_path
                   (Thumbnails.full_image_path
                      (rom_game_dir (Game.id g) +:+ "cover.png")))
    games.
Proof.
  intros Hgames.
  assert (Hrom : forall v0 rom_entry g,
            seq_builds e v0 rom_entry g \/ par_builds e rom_entry g ->
            Game.id g <> "" ->
            Game.coverArt g = "/" +:+ DEFAULT_COVER
            \/ "public" +:+ grid_cover_src (Game.coverArt g)
               = Thumbnails.thumbnail_path
                   (Thumbnails.full_image_path
                      (rom_game_dir (Game.id g) +:+ "cover.png"))).
  { intros v0 rom_entry g Hg Hne. apply rom_entry_fields in Hg.
    cbn zeta in Hg. destruct Hg as (Hid & _ & Hcover & _).
    rewrite Hcover. unfold cover_art.
    destruct (is_file e _); [right|left; reflexivity].
    rewrite Hid. rewrite Hid in Hne.
    apply thumbnail_of_cover; [exact Hne|apply game_id_no_slash]. }
  assert (Hext : forall game_dir g,
            In game_dir (external_dirs e) ->
            external_game e game_dir = Ok (Some g) ->
            Game.id g <> "" ->
            Game.coverArt g = "/" +:+ DEFAULT_COVER
            \/ "public" +:+ grid_cover_src (Game.coverArt g)
               = Thumbnails.thumbnail_path
                   (Thumbnails.full_image_path
                      (rom_game_dir (Game.id g) +:+ "cover.png"))).
  { intros game_dir g Hin Hg Hne. apply external_game_fields in Hg.
    destruct Hg as (Hid & _ & _ & _ & _ & Hcover & _).
    rewrite Hcover.
    destruct (is_file e _); [right|left; reflexivity].
    rewrite Hid. rewrite Hid in Hne.
    apply thumbnail_of_cover; [exact Hne|apply last_field_no_slash]. }
  destruct Hgames as [H|H].
  - apply sequential_catalog_entries in H.
    eapply Forall_impl; [exact H|].
    intros g [(rom_files & v0 & rom_entry & _ & _ & Hg)|(game_dir & Hin & Hg)].
    + apply (Hrom v0 rom_entry). left. exact Hg.
    + apply (Hext game_dir); assumption.
  - apply parallel_catalog_entries in H.
    eapply Forall_impl; [exact H|].
    intros g [(rom_files & rom_entry & _ & _ & Hg)|(game_dir & Hin & Hg)].
    + apply (Hrom unset_vars rom_entry). right. exact Hg.
    + apply (Hext game_dir); assumption.
Qed.

Lemma length_lines_from acc text :
  Z.of_nat (length (Text.lines_from acc text)) = Text.wc_l text + 1.
Proof.
  revert acc. induction text as [|c text IH]; intros acc; [reflexivity|].
  cbn [Text.lines_from Text.wc_l].
  destruct (Ascii.eqb c "010"); [cbn [length]|]; rewrite ?Nat2Z.inj_succ, IH;
    lia.
Qed.

Lemma TOTAL_IMAGES_lines e :
  Thumbnails.TOTAL_IMAGES e
  = Z.of_nat (length (Text.lines (Thumbnails.IMAGE_PATHS e))).
Proof.
  unfold Thumbnails.TOTAL_IMAGES, Text.lines.
  rewrite length_lines_from, wc_l_append. reflexivity.
Qed.

Lemma update_progress_shown current total :
  0 <= current <= total -> 0 < total < 2 ^ 56 ->
  exists bar percentage,
    Thumbnails.update_progress current total = Some (bar, percentage)
    /\ 0 <= percentage <= 100.
Proof.
  intros Hc Ht. unfold Thumbnails.update_progress. cbv zeta.
  destruct (Z.eqb_spec total 0); [lia|].
  eexists _, _. split; [reflexivity|].
  rewrite wrap64_in_range by lia. rewrite quot_div_nonneg by lia.
  split; [apply Z.div_pos; lia|apply Z.div_le_upper_bound; nia].
Qed.

Lemma step_accounted e total k s relative_path :
  accounted k s -> k + 1 <= total -> total < 2 ^ 56 ->
  accounted (k + 1) (Thumbnails.step e total s relative_path).
Proof.
  intros (Hk & Hsum & Hfailed & Hprocessed & Hshown) Hroom Htotal.
  unfold Thumbnails.step. cbv zeta.
  destruct (negb (Thumbnails.there s _));
    [|destruct (Thumbnails.magick e _ _)];
    unfold accounted;
    cbn [Thumbnails.PROCESSED_COUNT Thumbnails.FAILED_COUNT
         Thumbnails.FAILED_FILES Thumbnails.thumbnails Thumbnails.progress];
    rewrite ?length_app; cbn [length];
    rewrite ?wrap64_in_range by lia;
    (repeat split; try lia);
    (apply Forall_app_2; [exact Hshown|]);
    (constructor; [|constructor]);
    apply update_progress_shown; lia.
Qed.

Lemma loop_accounted e total lines :
  forall k s,
    accounted k s -> k + Z.of_nat (length lines) <= total ->
    total < 2 ^ 56 ->
    accounted (k + Z.of_nat (length lines))
      (foldl (Thumbnails.step e total) s lines).
Proof.
  induction lines as [|line rest IH]; intros k s Hs Hroom Htotal.
  - cbn [length foldl]. rewrite Z.add_0_r. exact Hs.
  - cbn [length foldl] in *. rewrite Nat2Z.inj_succ in *.
    replace (k + Z.succ (Z.of_nat (length rest)))
      with ((k + 1) + Z.of_nat (length rest)) by lia.
    apply IH; [|lia|exact Htotal].
    apply step_accounted; [exact Hs|lia|exact Htotal].
Qed.

(** X14.  A run of the thumbnail script that reaches its loop reads
    [TOTAL_IMAGES] lines, at least one.  Every line ends as a thumbnail
    written or as an entry of [FAILED_FILES], [FAILED_COUNT] is the number
    of these entries, and the exit status is zero exactly when a thumbnail
    was written for every line.  [update_progress] never divides by zero
    and never shows more than 100 percent, while "Processed" counts the
    missing files with the thumbnails written. *)
Theorem thumbnails_accounted e code s :
  Thumbnails.generate_thumbnails e = (code, Some s) ->
  Thumbnails.TOTAL_IMAGES e < 2 ^ 56 ->
  1 <= Thumbnails.TOTAL_IMAGES e
  /\ accounted (Thumbnails.TOTAL_IMAGES e) s
  /\ (code = 0
      <-> Z.of_nat (length (Thumbnails.thumbnails s))
          = Thumbnails.TOTAL_IMAGES e).
Proof.
  unfold Thumbnails.generate_thumbnails.
  destruct (negb (Thumbnails.have_magick e)); [discriminate|].
  destruct (Str.is_empty (Thumbnails.IMAGE_PATHS e)); [discriminate|].
  intros [= <- <-] Htotal.
  pose proof (TOTAL_IMAGES_lines e) as Hlines.
  assert (Hone : 1 <= Thumbnails.TOTAL_IMAGES e).
  { unfold Thumbnails.TOTAL_IMAGES. rewrite wc_l_append.
    assert (forall text, 0 <= Text.wc_l text).
    { induction text as [|c text IH]; cbn [Text.wc_l]; [lia|].
      destruct (Ascii.eqb c "010"); lia. }
    specialize (H (Thumbnails.IMAGE_PATHS e)).
    change (Text.wc_l (String "010" "")) with 1. lia. }
  split; [exact Hone|].
  assert (Hloop := loop_accounted e (Thumbnails.TOTAL_IMAGES e)
                     (Text.lines (Thumbnails.IMAGE_PATHS e)) 0
                     {| Thumbnails.PROCESSED_COUNT := 0;
                        Thumbnails.FAILED_COUNT := 0;
                        Thumbnails.FAILED_FILES := [];
                        Thumbnails.thumbnails := [];
                        Thumbnails.progress := [];
                        Thumbnails.there := Thumbnails.is_file e |}).
  rewrite Z.add_0_l, <- Hlines in Hloop.
  specialize (Hloop ltac:(repeat split; cbn; try lia; constructor)
                    ltac:(lia) Htotal).
  set (s := foldl (Thumbnails.step e (Thumbnails.TOTAL_IMAGES e)) _ _) in *.
  split; [exact Hloop|].
  destruct Hloop as (_ & Hsum & Hfailed & _ & _).
  destruct (Z.gtb_spec (Thumbnails.FAILED_COUNT s) 0); split; intros; lia.
Qed.

Lemma thumbnails_accounted_witness :
  1 <= Thumbnails.TOTAL_IMAGES two_covers
  /\ (exists s,
        Thumbnails.generate_thumbnails two_covers = (0, Some s)
        /\ accounted (Thumbnails.TOTAL_IMAGES two_covers) s
        /\ (0 = 0
            <-> Z.of_nat (length (Thumbnails.thumbnails s))
                = Thumbnails.TOTAL_IMAGES two_covers)).
Proof.
  destruct (Thumbnails.generate_thumbnails two_covers) as [code [s|]] eqn:Hrun;
    [|vm_compute in Hrun; discriminate].
  assert (Hcode : code = 0) by (vm_compute in Hrun; congruence).
  subst code.
  destruct (thumbnails_accounted two_covers 0 s Hrun)
    as (Hone & Hacc & Hzero); [vm_compute; reflexivity|].
  split; [exact Hone|]. exists s. auto.
Defined.

(** X15.  When the games directory holds no cover (or is not there) and the
    placeholder is, the list of images starts with an empty line: the script
    looks for the file "public/", reports it as not found, and ends with
    status 1, whether or not it converts the placeholder. *)
Theorem no_cover_fails e :
  Thumbnails.have_magick e = true ->
  Thumbnails.covers e = None \/ Thumbnails.covers e = Some [] ->
  Thumbnails.is_file e Thumbnails.DEFAULT_COVER = true ->
  Thumbnails.is_file e "public/" = false ->
  exists s later,
    Thumbnails.generate_thumbnails e = (1, Some s)
    /\ Thumbnails.FAILED_FILES s = "public/ (file not found)" :: later.
Proof.
  intros Hmagick Hcovers Hdefault Hpublic.
  assert (Hpaths : Thumbnails.IMAGE_PATHS e
                   = String "010" Thumbnails.DEFAULT_COVER).
  { unfold Thumbnails.IMAGE_PATHS. rewrite Hdefault.
    destruct Hcovers as [->| ->]; reflexivity. }
  unfold Thumbnails.generate_thumbnails, Thumbnails.TOTAL_IMAGES.
  rewrite Hmagick, Hpaths. cbn [negb].
  change (Str.is_empty (String "010" Thumbnails.DEFAULT_COVER)) with false.
  cbv iota.
  change (Text.lines (String "010" Thumbnails.DEFAULT_COVER))
    with [""; Thumbnails.DEFAULT_COVER].
  set (total := Text.wc_l _).
  set (s0 := {| Thumbnails.PROCESSED_COUNT := 0;
                Thumbnails.FAILED_COUNT := 0;
                Thumbnails.FAILED_FILES := [];
                Thumbnails.thumbnails := [];
                Thumbnails.progress := [];
                Thumbnails.there := Thumbnails.is_file e |}).
  assert (Hfirst : Thumbnails.step e total s0 ""
                   = {| Thumbnails.PROCESSED_COUNT := 1;
                        Thumbnails.FAILED_COUNT := 1;
                        Thumbnails.FAILED_FILES :=
                          ["public/ (file not found)"];
                        Thumbnails.thumbnails := [];
                        Thumbnails.progress :=
                          [Thumbnails.update_progress 1 total];
                        Thumbnails.there := Thumbnails.is_file e |}).
  { unfold Thumbnails.step. cbv zeta. cbn [Thumbnails.there s0].
    change (Thumbnails.full_image_path "") with "public/".
    rewrite Hpublic. reflexivity. }
  cbn [foldl]. rewrite Hfirst. unfold Thumbnails.step. cbv zeta.
  cbn [Thumbnails.there Thumbnails.PROCESSED_COUNT Thumbnails.FAILED_COUNT
       Thumbnails.FAILED_FILES Thumbnails.thumbnails Thumbnails.progress].
  change (Thumbnails.full_image_path Thumbnails.DEFAULT_COVER)
    with Thumbnails.DEFAULT_COVER.
  rewrite Hdefault. cbn [negb].
  destruct (Thumbnails.magick e _ _); eexists _, _; split; reflexivity.
Qed.

Lemma no_cover_fails_witness :
  exists s later,
    Thumbnails.generate_thumbnails no_cover = (1, Some s)
    /\ Thumbnails.FAILED_FILES s = "public/ (file not found)" :: later.
Proof.
  apply (no_cover_fails no_cover);
    [reflexivity|right; reflexivity|reflexivity|reflexivity].
Defined.

Lemma grid_asks_for_the_thumbnail_written_witness :
  exists games,
    gamelist (generate_gamelist_sequential cover_world) = Some games
    /\ games <> []
    /\ Forall (fun g =>
                 Game.id g <> "" ->
                 Game.coverArt g = "/" +:+ DEFAULT_COVER
                 \/ "public" +:+ grid_cover_src (Game.coverArt g)
                    = Thumbnails.thumbnail_path
                        (Thumbnails.full_image_path
                           (rom_game_dir (Game.id g) +:+ "cover.png")))
         games.
Proof.
  destruct (gamelist (generate_gamelist_sequential cover_world))
    as [games|] eqn:Hgames; [|vm_compute in Hgames; discriminate].
  exists games. split; [reflexivity|]. split.
  - intros ->. vm_compute in Hgames. discriminate.
  - apply (grid_asks_for_the_thumbnail_written cover_world games
             (or_introl Hgames)).
Defined.

(** ** The front end: system names *)

Lemma table_core_values system core :
  table_core core_table system = Some core ->
  In core ["arcade"; "mame2003_plus"; "atari2600"; "gb"; "gba"; "segaMD";
           "segaGG"; "jaguar"; "n64"; "nes"; "pce"; "psx"; "sega32x";
           "segaMS"; "snes"; "vb"; "ws"].
Proof.
  unfold core_table, table_core.
  repeat match goal with
  | |- context [String.eqb system ?k] =>
      destruct (String.eqb system k);
      [intros [= <-]; cbn; tauto|]
  end.
  discriminate.
Qed.

(** X16.  Every core id of the generator's folder table is a key of the
    front end's [systemMap]: for a ROM entry from a folder of the table the
    tooltip shows the name the map gives its core, never the bare id; for
    an entry from any other folder it shows "null", the text the builder
    puts for the missing core. *)
Theorem every_core_has_a_system_name e v0 rom_entry g :
  seq_builds e v0 rom_entry g \/ par_builds e rom_entry g ->
  match table_core core_table (split_entry rom_entry).1 with
  | Some core =>
      exists name,
        own systemMap core = Some name
        /\ getSystemName (Game.core g) = Text name
        /\ name <> core
  | None => getSystemName (Game.core g) = Text "null"
  end.
Proof.
  intros Hg.
  assert (Hcore : Game.core g
                  = or_default (get_core_from_dir (split_entry rom_entry).1)
                      "null").
  { destruct Hg as [Hg|Hg];
      [exact (seq_builds_core _ _ _ _ Hg)|exact (par_builds_core _ _ _ Hg)]. }
  rewrite Hcore, get_core_from_dir_table.
  destruct (table_core core_table (split_entry rom_entry).1) as [core|] eqn:Ht;
    [|reflexivity].
  apply table_core_values in Ht. cbn [default from_option id].
  cbn [In] in Ht.
  repeat (destruct Ht as [<-|Ht];
          [eexists; split; [reflexivity|split; [reflexivity|discriminate]]|]).
  contradiction.
Qed.

Lemma every_core_has_a_system_name_witness :
  exists g,
    seq_builds bare_world unset_vars "NES/Mario.nes" g
    /\ match table_core core_table (split_entry "NES/Mario.nes").1 with
       | Some core =>
           exists name,
             own systemMap core = Some name
             /\ getSystemName (Game.core g) = Text name
             /\ name <> core
       | None => getSystemName (Game.core g) = Text "null"
       end.
Proof.
  eexists.
  assert (Hb : seq_builds bare_world unset_vars "NES/Mario.nes" _)
    by (eexists; vm_compute; reflexivity).
  split; [exact Hb|].
  exact (every_core_has_a_system_name bare_world unset_vars
           "NES/Mario.nes" _ (or_introl Hb)).
Defined.

(** ** The front end: keyboard navigation *)

Lemma spaces_nonneg s : 0 <= spaces s.
Proof.
  induction s as [|c s IH]; cbn [spaces]; [lia|].
  destruct (Ascii.eqb c " "); lia.
Qed.

Lemma gridCols_positive grid : 1 <= gridCols grid.
Proof.
  destruct grid as [colStr|]; cbn [gridCols]; [|lia].
  pose proof (spaces_nonneg colStr). lia.
Qed.

(** X17.  With at least one game in the grid, a navigation key never moves
    the current index out of the range from 0 (the featured game) to the
    number of games, whatever the width of the grid; so, the featured
    section being there, the index always designates something to
    highlight and to select. *)
Theorem navigation_stays_in_range k grid items currentIndex :
  1 <= items -> 0 <= currentIndex <= items ->
  0 <= navigate k grid items currentIndex <= items
  /\ current true items (navigate k grid items currentIndex) <> Nothing.
Proof.
  intros Hitems Hrange.
  assert (Hin : 0 <= navigate k grid items currentIndex <= items).
  { unfold navigate. pose proof (gridCols_positive grid) as Hcols.
    set (cols := gridCols grid) in *.
    destruct k as [| | | |[]|].
    - destruct (Z.eqb_spec currentIndex 0); lia.
    - destruct (Z.leb_spec currentIndex cols); lia.
    - destruct (Z.gtb_spec currentIndex 0); lia.
    - destruct (Z.ltb_spec currentIndex items); lia.
    - pose proof (Z.rem_bound_pos (currentIndex - 1 + items + 1) (items + 1)
                    ltac:(lia) ltac:(lia)). lia.
    - pose proof (Z.rem_bound_pos (currentIndex + 1) (items + 1)
                    ltac:(lia) ltac:(lia)). lia.
    - lia. }
  split; [exact Hin|].
  set (index := navigate k grid items currentIndex) in *.
  unfold current.
  destruct (Z.eqb_spec index 0); [discriminate|]. cbn [andb].
  destruct (Z.gtb_spec index 0); [|lia].
  destruct (Z.ltb_spec (index - 1) items); [discriminate|lia].
Qed.

Lemma navigation_stays_in_range_witness :
  0 <= navigate ArrowDown (Some "200px 200px 200px") 7 5 <= 7
  /\ current true 7 (navigate ArrowDown (Some "200px 200px 200px") 7 5)
     <> Nothing.
Proof.
  apply (navigation_stays_in_range ArrowDown (Some "200px 200px 200px") 7 5);
    lia.
Defined.

(** X18.  Tab and Shift+Tab undo each other at every index of the range,
    wrapping around between the last game and the featured game; the left
    and right arrows undo each other wherever the first of the two moves. *)
Theorem tab_and_arrows_undo grid items currentIndex :
  0 <= currentIndex <= items ->
  navigate (Tab true) grid items (navigate (Tab false) grid items currentIndex)
  = currentIndex
  /\ navigate (Tab false) grid items
       (navigate (Tab true) grid items currentIndex)
     = currentIndex
  /\ (currentIndex < items ->
      navigate ArrowLeft grid items
        (navigate ArrowRight grid items currentIndex) = currentIndex)
  /\ (0 < currentIndex ->
      navigate ArrowRight grid items
        (navigate ArrowLeft grid items currentIndex) = currentIndex).
Proof.
  intros Hrange. unfold navigate.
  assert (Hnext : Z.rem (currentIndex + 1) (items + 1)
                  = if currentIndex =? items then 0 else currentIndex + 1).
  { destruct (Z.eqb_spec currentIndex items) as [->|Hne].
    - apply Z.rem_same. lia.
    - apply Z.rem_small. lia. }
  assert (Hprev : Z.rem (currentIndex - 1 + items + 1) (items + 1)
                  = if currentIndex =? 0 then items else currentIndex - 1).
  { destruct (Z.eqb_spec currentIndex 0) as [->|Hne].
    - replace (0 - 1 + items + 1) with items by lia.
      apply Z.rem_small. lia.
    - replace (currentIndex - 1 + items + 1)
        with (currentIndex - 1 + 1 * (items + 1)) by lia.
      rewrite Z.rem_add by (try lia; nia). apply Z.rem_small. lia. }
  rewrite Hnext, Hprev. repeat split.
  - destruct (Z.eqb_spec currentIndex items) as [->|Hne].
    + replace (0 - 1 + items + 1) with items by lia.
      apply Z.rem_small. lia.
    + replace (currentIndex + 1 - 1 + items + 1)
        with (currentIndex + 1 * (items + 1)) by lia.
      rewrite Z.rem_add by (try lia; nia). apply Z.rem_small. lia.
  - destruct (Z.eqb_spec currentIndex 0) as [->|Hne].
    + apply Z.rem_same. lia.
    + replace (currentIndex - 1 + 1) with currentIndex by lia.
      apply Z.rem_small. lia.
  - intros Hlt. destruct (Z.ltb_spec currentIndex items); [|lia].
    rewrite Z.min_r by lia.
    destruct (Z.gtb_spec (currentIndex + 1) 0); lia.
  - intros Hgt. destruct (Z.gtb_spec currentIndex 0); [|lia].
    rewrite Z.max_r by lia.
    destruct (Z.ltb_spec (currentIndex - 1) items); lia.
Qed.

Lemma tab_and_arrows_undo_witness :
  navigate (Tab true) None 7 (navigate (Tab false) None 7 7) = 7
  /\ navigate (Tab false) None 7 (navigate (Tab true) None 7 7) = 7
  /\ (7 < 7 ->
      navigate ArrowLeft None 7 (navigate ArrowRight None 7 7) = 7)
  /\ (0 < 7 ->
      navigate ArrowRight None 7 (navigate ArrowLeft None 7 7) = 7).
Proof. apply (tab_and_arrows_undo None 7 7). lia. Defined.

(** ** The front end: the random button *)

Lemma filter_length_permutation {A} (f : A -> bool) l1 l2 :
  l1 ≡ₚ l2 -> length (List.filter f l1) = length (List.filter f l2).
Proof.
  induction 1 as [|x l l' _ IH|x y l|l l' l'' _ IH1 _ IH2]; cbn [List.filter].
  - reflexivity.
  - destruct (f x); cbn [length]; congruence.
  - destruct (f x), (f y); reflexivity.
  - congruence.
Qed.

Lemma filter_all {A} (f : A -> bool) l :
  Forall (fun x => f x = true) l -> List.filter f l = l.
Proof.
  induction 1 as [|x l Hx _ IH]; [reflexivity|].
  cbn [List.filter]. rewrite Hx, IH. reflexivity.
Qed.

Lemma filter_none {A} (f : A -> bool) l :
  Forall (fun x => f x = false) l -> List.filter f l = [].
Proof.
  induction 1 as [|x l Hx _ IH]; [reflexivity|].
  cbn [List.filter]. rewrite Hx, IH. reflexivity.
Qed.

Lemma visible_game_hide g :
  visible_game g = negb (Game.hide g =? "yes")%string.
Proof. unfold visible_game. apply visible_to_json. Qed.

(** X19.  With no text in the search box, the number shown under the random
    button counts the external games, which the button never picks: for a
    catalog either driver wrote, shown in any order, it is the number of
    games the button picks from plus the number of external games of the
    catalog. *)
Theorem random_button_counts_externals e games allGames :
  gamelist (generate_gamelist_sequential e) = Some games
  \/ gamelist (generate_gamelist_parallel e) = Some games ->
  allGames ≡ₚ games ->
  random_info_count allGames
  = (length (gamesToRandomizeFrom allGames)
     + length (List.filter (fun g => (Game.core g =? "external")%string)
                 games))%nat
  /\ Forall (fun g => Game.core g <> "external" /\ Game.hide g <> "yes")
       (gamesToRandomizeFrom allGames).
Proof.
  intros Hgames Hperm. split.
  - assert (Hsplit : exists roms exts,
              games = roms ++ exts
              /\ Forall (fun g => (Game.core g =? "external")%string = false)
                   roms
              /\ Forall (fun g => (Game.core g =? "external")%string = true
                                  /\ visible_game g = true) exts).
    { assert (Hexts : forall exts,
                Forall (external_entry e) exts ->
                Forall (fun g => (Game.core g =? "external")%string = true
                                 /\ visible_game g = true) exts).
      { intros exts H. eapply Forall_impl; [exact H|].
        intros g (game_dir & _ & Hg). apply external_game_fields in Hg.
        destruct Hg as (_ & Hcore & Hhide & _).
        rewrite visible_game_hide. split; [apply String.eqb_eq, Hcore|].
        apply negb_true_iff, String.eqb_neq, Hhide. }
      destruct Hgames as [H|H].
      - apply sequential_catalog_split in H.
        destruct H as (roms & exts & -> & Hroms & Hexts0).
        exists roms, exts. split; [reflexivity|]. split; [|auto].
        eapply Forall_impl; [exact Hroms|].
        intros g (rom_files & v0 & rom_entry & _ & _ & Hg).
        pose proof (rom_entry_fields e v0 rom_entry g (or_introl Hg)) as Hf.
        cbn zeta in Hf. apply String.eqb_neq. tauto.
      - apply parallel_catalog_split in H.
        destruct H as (roms & exts & -> & Hroms & Hexts0).
        exists roms, exts. split; [reflexivity|]. split; [|auto].
        eapply Forall_impl; [exact Hroms|].
        intros g (rom_files & rom_entry & _ & _ & Hg).
        pose proof (rom_entry_fields e unset_vars rom_entry g (or_intror Hg))
          as Hf.
        cbn zeta in Hf. apply String.eqb_neq. tauto. }
    destruct Hsplit as (roms & exts & -> & Hroms & Hexts).
    unfold random_info_count, gamesToRandomizeFrom, visibleGames.
    rewrite (filter_length_permutation visible_game _ _ Hperm).
    assert (Hpool : length
                      (List.filter
                         (fun g => negb (Game.core g =? "external")%string)
                         (List.filter visible_game allGames))
                    = length
                        (List.filter
                           (fun g => negb (Game.core g =? "external")%string)
                           (List.filter visible_game (roms ++ exts)))).
    { assert (Hswap : forall l : list Game.t,
                List.filter
                  (fun g => negb (Game.core g =? "external")%string)
                  (List.filter visible_game l)
                = List.filter
                    (fun g => visible_game g
                              && negb (Game.core g =? "external")%string) l).
      { induction l as [|g l IH]; [reflexivity|]. cbn [List.filter].
        destruct (visible_game g); cbn [List.filter andb]; rewrite IH;
          reflexivity. }
      rewrite !Hswap. apply filter_length_permutation. exact Hperm. }
    rewrite Hpool.
    assert (Hv_exts : List.filter visible_game exts = exts).
    { apply filter_all. eapply Forall_impl; [exact Hexts|].
      intros g [_ Hv]. exact Hv. }
    assert (Hn_exts : List.filter
                        (fun g => negb (Game.core g =? "external")%string)
                        exts = []).
    { apply filter_none. eapply Forall_impl; [exact Hexts|].
      intros g [Hc _]. cbv beta. rewrite Hc. reflexivity. }
    assert (He_exts : List.filter
                        (fun g => (Game.core g =? "external")%string) exts
                      = exts).
    { apply filter_all. eapply Forall_impl; [exact Hexts|].
      intros g [Hc _]. exact Hc. }
    assert (He_roms : List.filter
                        (fun g => (Game.core g =? "external")%string) roms
                      = []).
    { apply filter_none. exact Hroms. }
    assert (Hn_roms : List.filter
                        (fun g => negb (Game.core g =? "external")%string)
                        (List.filter visible_game roms)
                      = List.filter visible_game roms).
    { apply filter_all. apply List.Forall_forall. intros g Hg.
      apply List.filter_In in Hg as [Hg _].
      rewrite List.Forall_forall in Hroms. cbv beta.
      rewrite (Hroms g Hg). reflexivity. }
    rewrite !List.filter_app, !Hv_exts.
    rewrite Hn_exts, Hn_roms, He_exts, He_roms, !length_app.
    cbn [length]. lia.
  - apply List.Forall_forall. intros g Hg.
    unfold gamesToRandomizeFrom, visibleGames in Hg.
    apply List.filter_In in Hg as [Hg Hcore].
    apply List.filter_In in Hg as [_ Hvisible].
    rewrite visible_game_hide in Hvisible.
    split.
    + apply String.eqb_neq, negb_true_iff, Hcore.
    + apply String.eqb_neq, negb_true_iff, Hvisible.
Qed.

Lemma random_button_counts_externals_witness :
  exists games,
    gamelist (generate_gamelist_sequential mixed_world) = Some games
    /\ random_info_count (rev games)
       = (length (gamesToRandomizeFrom (rev games))
          + length (List.filter
                      (fun g => (Game.core g =? "external")%string) games))%nat
    /\ Forall (fun g => Game.core g <> "external" /\ Game.hide g <> "yes")
         (gamesToRandomizeFrom (rev games)).
Proof.
  destruct (gamelist (generate_gamelist_sequential mixed_world))
    as [games|] eqn:Hgames; [|vm_compute in Hgames; discriminate].
  exists games. split; [reflexivity|].
  apply (random_button_counts_externals mixed_world games (rev games)
           (or_introl Hgames)).
  symmetry. apply Permutation_rev.
Defined.

(** ** The front end: the game of the week *)

















(** ** The typing test *)

Lemma same_at_bounds {A : Type} `{EqDecision A} (l1 l2 : list A) :
  0 <= Wpm.same_at l1 l2
  <= Z.min (Z.of_nat (length l1)) (Z.of_nat (length l2)).
Proof.
  revert l2. induction l1 as [|x l1 IH]; intros [|y l2];
    cbn [Wpm.same_at length]; try lia.
  specialize (IH l2). destruct (decide (x = y)); lia.
Qed.

Lemma classes_past_the_end quote :
  forall i typedCharacters,
    typedCharacters < i ->
    of_class Wpm.correct (Wpm.classes_from i typedCharacters [] quote) = 0
    /\ of_class Wpm.current (Wpm.classes_from i typedCharacters [] quote) = 0.
Proof.
  induction quote as [|char quote IH]; intros i typedCharacters Hpast;
    [split; reflexivity|].
  cbn [Wpm.classes_from tail].
  destruct (Z.ltb_spec i typedCharacters); [lia|].
  destruct (Z.eqb_spec i typedCharacters); [lia|].
  destruct (IH (i + 1) typedCharacters ltac:(lia)) as [Hc Hn].
  unfold of_class in *. cbn [List.filter]. auto.
Qed.

Lemma classes_counted quote :
  forall i typedCharacters typed,
    typedCharacters = i + Z.of_nat (length typed) ->
    of_class Wpm.correct (Wpm.classes_from i typedCharacters typed quote)
    = Wpm.same_at typed quote
    /\ of_class Wpm.current (Wpm.classes_from i typedCharacters typed quote)
       = if Z.of_nat (length typed) <? Z.of_nat (length quote)
         then 1 else 0.
Proof.
  induction quote as [|char quote IH]; intros i typedCharacters typed Htyped.
  - destruct typed; cbn [Wpm.classes_from Wpm.same_at length].
    + split; reflexivity.
    + split; [reflexivity|].
      destruct (Z.ltb_spec (Z.of_nat (S (length typed))) (Z.of_nat 0));
        [lia|reflexivity].
  - destruct typed as [|u typed]; cbn [Wpm.classes_from tail length] in *.
    + destruct (Z.ltb_spec i typedCharacters); [lia|].
      destruct (Z.eqb_spec i typedCharacters); [|lia].
      destruct (classes_past_the_end quote (i + 1) typedCharacters
                  ltac:(lia)) as [Hc Hn].
      unfold of_class in *. cbn [List.filter length Wpm.same_at].
      split; [exact Hc|].
      rewrite Nat2Z.inj_succ, Hn.
      destruct (Z.ltb_spec (Z.of_nat 0)
                  (Z.of_nat (S (length quote)))); lia.
    + destruct (Z.ltb_spec i typedCharacters); [|lia].
      destruct (IH (i + 1) typedCharacters typed ltac:(lia)) as [Hc Hn].
      unfold of_class in *. cbn [Wpm.same_at].
      destruct (decide (u = char)); cbn [List.filter length];
        rewrite ?Nat2Z.inj_succ, ?Hc, ?Hn;
        (split; [lia|]);
        destruct (Z.ltb_spec (Z.of_nat (length typed))
                    (Z.of_nat (length quote))),
                 (Z.ltb_spec (Z.succ (Z.of_nat (length typed)))
                    (Z.succ (Z.of_nat (length quote)))); lia.
Qed.

(** X21.  After an [input] event on a running test, or a first keystroke,
    the test has counted what the text box holds: [typedCharacters] is its
    length, [correctCharacters] is the number of characters the rendering
    marks correct, at most the shorter of the two lengths, and the rendering
    marks one character as the current one exactly while the text is
    shorter than the quote.  A test that was not complete is complete
    afterwards exactly when the text is as long as the quote, right or
    wrong. *)
Theorem typing_is_accounted now inputValue t :
  Wpm.isTestActive t = true \/ inputValue <> [] ->
  let t' := Wpm.handleInput now inputValue t in
  let rendering := Wpm.renderQuoteWithProgress t' in
  Wpm.typedCharacters t' = Z.of_nat (length inputValue)
  /\ Wpm.correctCharacters t' = of_class Wpm.correct rendering
  /\ 0 <= Wpm.correctCharacters t'
       <= Z.min (Z.of_nat (length inputValue))
            (Z.of_nat (length (Wpm.currentQuote t)))
  /\ of_class Wpm.current rendering
     = (if Z.of_nat (length inputValue)
           <? Z.of_nat (length (Wpm.currentQuote t))
        then 1 else 0)
  /\ (Wpm.isTestComplete t = false ->
      (Wpm.isTestComplete t' = true
       <-> length inputValue = length (Wpm.currentQuote t))).
Proof.
  intros Hactive. cbv zeta.
  assert (Hfields :
            let t' := Wpm.handleInput now inputValue t in
            Wpm.typedCharacters t' = Z.of_nat (length inputValue)
            /\ Wpm.correctCharacters t'
               = Wpm.same_at inputValue (Wpm.currentQuote t)
            /\ Wpm.value t' = inputValue
            /\ Wpm.currentQuote t' = Wpm.currentQuote t
            /\ (Wpm.isTestComplete t = false ->
                (Wpm.isTestComplete t' = true
                 <-> length inputValue = length (Wpm.currentQuote t)))).
  { cbv zeta. unfold Wpm.handleInput. cbv zeta.
    cbn [Wpm.isTestActive Wpm.currentQuote].
    assert (Hcomplete :
              forall b,
                (b = true <-> length inputValue = length (Wpm.currentQuote t))
                <-> b = (Z.of_nat (length inputValue)
                         =? Z.of_nat (length (Wpm.currentQuote t)))).
    { intros b.
      destruct (Z.eqb_spec (Z.of_nat (length inputValue))
                  (Z.of_nat (length (Wpm.currentQuote t))));
        destruct b; split; try reflexivity; try discriminate;
        try (intros [H1 H2]); try (intros _; split; intros; lia);
        try (specialize (H1 eq_refl); lia);
        try (specialize (H2 ltac:(lia)); discriminate). }
    destruct (Wpm.isTestActive t) eqn:Hrunning; cbn [negb andb].
    - cbn [Wpm.isTestActive negb Wpm.currentQuote].
      destruct (Z.eqb_spec (Z.of_nat (length inputValue))
                  (Z.of_nat (length (Wpm.currentQuote t))));
        cbn; repeat split; intros; try lia; try congruence.
    - destruct Hactive as [Hactive|Hinput]; [discriminate|].
      destruct (Z.ltb_spec 0 (Z.of_nat (length inputValue)));
        [|destruct inputValue; [contradiction Hinput; reflexivity|
                                cbn [length] in *; lia]].
      unfold Wpm.startTest.
      cbn [Wpm.isTestActive negb Wpm.currentQuote].
      destruct (Z.eqb_spec (Z.of_nat (length inputValue))
                  (Z.of_nat (length (Wpm.currentQuote t))));
        cbn; repeat split; intros; try lia; try congruence. }
  cbv zeta in Hfields.
  destruct Hfields as (Htyped & Hcorrect & Hvalue & Hquote & Hcomplete).
  unfold Wpm.renderQuoteWithProgress. rewrite Htyped, Hvalue, Hquote.
  destruct (classes_counted (Wpm.currentQuote t) 0
              (Z.of_nat (length inputValue)) inputValue ltac:(lia))
    as [Hc Hn].
  rewrite Hc, Hn, Hcorrect.
  pose proof (same_at_bounds inputValue (Wpm.currentQuote t)).
  repeat split; try lia; try assumption; apply Hcomplete; assumption.
Qed.

Lemma typing_is_accounted_witness :
  let t' := Wpm.handleInput 1000 [116; 111; 32; 120]%N fresh_test in
  let rendering := Wpm.renderQuoteWithProgress t' in
  Wpm.typedCharacters t' = Z.of_nat (length [116; 111; 32; 120]%N)
  /\ Wpm.correctCharacters t' = of_class Wpm.correct rendering
  /\ 0 <= Wpm.correctCharacters t'
       <= Z.min (Z.of_nat (length [116; 111; 32; 120]%N))
            (Z.of_nat (length (Wpm.currentQuote fresh_test)))
  /\ of_class Wpm.current rendering
     = (if Z.of_nat (length [116; 111; 32; 120]%N)
           <? Z.of_nat (length (Wpm.currentQuote fresh_test))
        then 1 else 0)
  /\ (Wpm.isTestComplete fresh_test = false ->
      (Wpm.isTestComplete t' = true
       <-> length [116; 111; 32; 120]%N
           = length (Wpm.currentQuote fresh_test))).
Proof.
  apply (typing_is_accounted 1000 [116; 111; 32; 120]%N fresh_test).
  right. discriminate.
Defined.

Lemma split_from_not_empty in_space piece s :
  (1 <= length (Wpm.split_from in_space piece s))%nat.
Proof.
  revert in_space piece. induction s as [|u s IH]; intros in_space piece;
    cbn [Wpm.split_from]; [cbn; lia|].
  destruct (Wpm.is_space u); [destruct in_space|];
    cbn [length]; try apply IH.
  lia.
Qed.

Lemma trimStart_blank s :
  forallb Wpm.is_space s = true -> Wpm.trimStart s = [].
Proof.
  induction s as [|u s IH]; [reflexivity|]. cbn [forallb Wpm.trimStart].
  intros H. apply andb_prop in H as [Hu Hs]. rewrite Hu. exact (IH Hs).
Qed.

(** X22.  [split(/\s+/)] always gives at least one piece, so
    [getTypedWords] is never zero: it is one for a text box that is empty
    or holds white space only, and the case [typedWords === 0] of
    [calculateAccuracy] never applies.  The correct words are never more
    than the typed words. *)
Theorem words_are_counted t :
  1 <= Wpm.getTypedWords t
  /\ 0 <= Wpm.getCorrectWords t <= Wpm.getTypedWords t
  /\ (forallb Wpm.is_space (Wpm.value t) = true -> Wpm.getTypedWords t = 1).
Proof.
  unfold Wpm.getTypedWords, Wpm.getCorrectWords, Wpm.split.
  pose proof (split_from_not_empty false [] (Wpm.trim (Wpm.value t))).
  pose proof (same_at_bounds
                (Wpm.split_from false [] (Wpm.trim (Wpm.value t)))
                (Wpm.split_from false [] (Wpm.trim (Wpm.currentQuote t)))).
  repeat split; try lia.
  intros Hblank. unfold Wpm.trim. rewrite (trimStart_blank _ Hblank).
  reflexivity.
Qed.

(** ** The front end: titles *)

Ltac each_byte c := destruct c as [[] [] [] [] [] [] [] []].

Lemma space1_lower c : Js.space1 (Str.lower c) = Js.space1 c.
Proof. each_byte c; reflexivity. Qed.

Lemma space2_lower c1 c2 :
  Js.space2 (Str.lower c1) (Str.lower c2) = Js.space2 c1 c2.
Proof.
  each_byte c1; try reflexivity. each_byte c2; reflexivity.
Qed.

Lemma space3_lower c1 c2 c3 :
  Js.space3 (Str.lower c1) (Str.lower c2) (Str.lower c3) = Js.space3 c1 c2 c3.
Proof.
  each_byte c1; try reflexivity;
    each_byte c2; try reflexivity;
    each_byte c3; reflexivity.
Qed.

Lemma all_space_lowered_bounded n :
  forall s,
    (String.length s <= n)%nat ->
    Js.all_space (lowered s) = Js.all_space s.
Proof.
  induction n as [|n IH]; intros s Hn.
  - destruct s; [reflexivity|cbn in Hn; lia].
  - destruct s as [|c1 t1]; [reflexivity|].
    cbn [String.length] in Hn. cbn [lowered Js.all_space].
    rewrite space1_lower.
    destruct (Js.space1 c1); [apply IH; lia|].
    destruct t1 as [|c2 t2]; [reflexivity|].
    cbn [String.length] in Hn. cbn [lowered]. rewrite space2_lower.
    destruct (Js.space2 c1 c2); [apply IH; lia|].
    destruct t2 as [|c3 t3]; [reflexivity|].
    cbn [String.length] in Hn. cbn [lowered]. rewrite space3_lower.
    destruct (Js.space3 c1 c2 c3); [apply IH; lia|reflexivity].
Qed.

Lemma all_space_lowered s : Js.all_space (lowered s) = Js.all_space s.
Proof. apply (all_space_lowered_bounded (String.length s)). lia. Qed.

Lemma lowered_append s t : lowered (s +:+ t) = lowered s +:+ lowered t.
Proof.
  induction s as [|c s IH]; [reflexivity|].
  rewrite append_cons. cbn [lowered]. rewrite IH. reflexivity.
Qed.

Lemma trimEnd_cons c t :
  Js.trimEnd (String c t)
  = if Js.all_space (String c t) then "" else String c (Js.trimEnd t).
Proof. reflexivity. Qed.

(** The letters that are lowered to a given small letter. *)
Lemma lower_letter c small :
  (97 <=? nat_of_ascii small)%nat && (nat_of_ascii small <=? 122)%nat = true ->
  Str.lower c = small ->
  c = small \/ nat_of_ascii c = (nat_of_ascii small - 32)%nat.
Proof.
  intros Hsmall <-. revert Hsmall.
  each_byte c; cbn; intros H; try discriminate H; auto.
Qed.

Lemma the_article article :
  lowered article = "the" ->
  exists a1 a2 a3,
    article = String a1 (String a2 (String a3 ""))
    /\ (a1 = "t" \/ a1 = "T")%char /\ (a2 = "h" \/ a2 = "H")%char
    /\ (a3 = "e" \/ a3 = "E")%char.
Proof.
  destruct article as [|a1 [|a2 [|a3 [|a4 rest]]]]; try discriminate.
  cbn [lowered]. intros [= H1 H2 H3]. exists a1, a2, a3.
  split; [reflexivity|].
  apply lower_letter in H1, H2, H3; try reflexivity.
  repeat split.
  - destruct H1 as [->|H1]; [auto|right].
    apply (f_equal ascii_of_nat) in H1. rewrite ascii_nat_embedding in H1.
    exact H1.
  - destruct H2 as [->|H2]; [auto|right].
    apply (f_equal ascii_of_nat) in H2. rewrite ascii_nat_embedding in H2.
    exact H2.
  - destruct H3 as [->|H3]; [auto|right].
    apply (f_equal ascii_of_nat) in H3. rewrite ascii_nat_embedding in H3.
    exact H3.
Qed.

(** X24.  A title that starts with the article "the", in small or capital
    letters, and a space, and goes on with something that is not white
    space only, is given with the article at its end, always written
    ", The"; the text after the space is kept as it is. *)
Theorem article_moves_to_the_end article rest :
  lowered article = "the" -> Js.all_space rest = false ->
  normalizeTitleForSorting (article +:+ " " +:+ rest)
  = Some (rest +:+ ", The").
Proof.
  intros Harticle Hrest.
  destruct (the_article article Harticle)
    as (a1 & a2 & a3 & -> & H1 & H2 & H3).
  assert (Hlow : lowered (String a1 (String a2 (String a3 "")) +:+ " "
                          +:+ rest)
                 = "the " +:+ lowered rest).
  { rewrite !lowered_append. rewrite Harticle. reflexivity. }
  assert (Htrim : Str.starts "the " (Js.trim ("the " +:+ lowered rest))
                  = true).
  { unfold Js.trim.
    change (Js.trimStart ("the " +:+ lowered rest))
      with ("the " +:+ lowered rest).
    change ("the " +:+ lowered rest)
      with (String "t" (String "h" (String "e" (String " " (lowered rest))))).
    assert (Hspace : Js.all_space (String " " (lowered rest)) = false)
      by (cbn [Js.all_space]; change (Js.space1 " ") with true; cbv iota;
          rewrite all_space_lowered; exact Hrest).
    assert (He : Js.all_space (String "e" (String " " (lowered rest)))
                 = false)
      by (destruct (lowered rest); reflexivity).
    assert (Hh : Js.all_space
                   (String "h" (String "e" (String " " (lowered rest))))
                 = false) by reflexivity.
    assert (Ht : Js.all_space
                   (String "t"
                      (String "h" (String "e" (String " " (lowered rest)))))
                 = false) by reflexivity.
    rewrite trimEnd_cons, Ht, trimEnd_cons, Hh, trimEnd_cons, He,
      trimEnd_cons, Hspace.
    reflexivity. }
  unfold normalizeTitleForSorting. cbv zeta. rewrite Hlow, Htrim.
  destruct H1 as [-> | ->], H2 as [-> | ->], H3 as [-> | ->]; reflexivity.
Qed.

Lemma article_moves_to_the_end_witness :
  normalizeTitleForSorting ("THE" +:+ " " +:+ "Shining")
  = Some ("Shining" +:+ ", The").
Proof.
  apply (article_moves_to_the_end "THE" "Shining"); reflexivity.
Defined.
